(** * AI Config Switcher: the profile store, the detector and the switcher

    A shallow embedding of [src/extension.ts] (class [AIConfigManager]) and
    the properties of its profile lifecycle and workspace mutation engine.

    The asynchronous methods are embedded as programs of a small free monad
    over the awaited library calls (fs-extra, glob, the VS Code window); a
    sequential interpreter runs a program against a model of the world, and a
    scheduler interleaves two programs at their calls. The profile store is
    embedded twice: on the profiles that its document denotes, which is what
    the manager works with, and on the document as a JSON value, which is what
    [fs.readJSON] and [fs.writeJSON] see. The command handlers are dialogs
    with the user over these programs, and the synchronous [ConfigManager] of
    the same file is embedded as state-passing functions on the same file
    system. *)

From Stdlib Require Import Ascii.
From stdpp Require Import gmap strings list fin_maps sorting.

Set Warnings "-register-all".

Local Open Scope string_scope.
Local Open Scope list_scope.
Local Open Scope nat_scope.

(** ** Paths

    A path is the list of its segments below the POSIX root; the workspace
    folder and every path handed to the file system are of this form. *)

Module Path.

Abbreviation t := (list string).

(** [s.split('/')] *)
Fixpoint split (s : string) : list string :=
  match s with
  | EmptyString => [EmptyString]
  | String c rest =>
      if Ascii.eqb c "/"%char then EmptyString :: split rest
      else match split rest with
           | seg :: segs => String c seg :: segs
           | [] => [String c EmptyString]
           end
  end.

(** One segment of [path.normalize] on an absolute path: empty segments and
    [.] are dropped, [..] climbs one level and stays at the root. *)
Definition step (acc : t) (seg : string) : t :=
  if decide (seg = "") then acc
  else if decide (seg = ".") then acc
  else if decide (seg = "..") then removelast acc
  else acc ++ [seg].

Definition resolve (base : t) (segs : list string) : t := foldl step base segs.

(** [path.join(base, rel)] for an absolute, normalized [base]. *)
Definition join (base : t) (rel : string) : t := resolve base (split rel).

(** [path.dirname] *)
Definition dirname (p : t) : t := removelast p.

(** [path.join] keeps a trailing separator of its last argument; a path
    written this way names a directory. *)
Fixpoint endsWithSlash (s : string) : bool :=
  match s with
  | EmptyString => false
  | String c EmptyString => Ascii.eqb c "/"%char
  | String _ rest => endsWithSlash rest
  end.

End Path.

(** ** Data model *)

Inductive AIToolType := cursor | windsurf | kilocode | claude_dev | copilot | other.

Global Instance AIToolType_eq_dec : EqDecision AIToolType.
Proof. solve_decision. Defined.

(** The tool identifier as the string the source uses for it. *)
Definition toolName (tool : AIToolType) : string :=
  match tool with
  | cursor => "cursor"
  | windsurf => "windsurf"
  | kilocode => "kilocode"
  | claude_dev => "claude-dev"
  | copilot => "copilot"
  | other => "other"
  end.

(** Values of a profile's [configs]: [string | object] (any JSON value at run
    time; [typeof content === 'string'] singles out [JString]). *)
Inductive json :=
| JNull
| JBool (b : bool)
| JNumber (literal : string)
| JString (s : string)
| JArray (items : list json)
| JObject (members : list (string * json)).

Record AIProfile := {
  name : string;
  description : string;
  configs : list (string * json);   (* in the order of [Object.entries] *)
  ignorePatterns : string;
  rules : string;
  memoryBank : string;
  aiTool : AIToolType
}.

(** [CONFIG_MAPPINGS], in the order of [Object.entries]. *)
Definition CONFIG_MAPPINGS : list (AIToolType * list string) :=
  [ (cursor, [".cursorrules"; ".cursorignore"; ".cursor"]);
    (windsurf, [".windsurfrules"; ".windsurfignore"; "windsurf.json"; ".windsurf"]);
    (kilocode, [".ai_config.toml"; ".pr_agent.toml"; ".kiloignore"; ".kilo"]);
    (claude_dev, [".claude-rules"; ".claude-ignore"; "claude-dev.json"; ".claude"]);
    (copilot, [".github/copilot-instructions.md"; ".github"]);
    (other, [".aiexclude"; ".amazonq"; "devfile.yaml"; ".gemini"; ".replit";
             "replit.nix"; ".cody"; ".clinerules"; "memory_bank"]) ].

(** The settings read through [vscode.workspace.getConfiguration]. *)
Record settings := {
  backupBeforeSwitch : bool;
  showNotifications : bool
}.

(** ** The world the extension runs in *)

(** What a file holds: text written by [fs.writeFile], or a value written by
    [fs.writeJSON] with [{ spaces: 2 }]. *)
Inductive fileData :=
| Text (s : string)
| Formatted (value : json).

Inductive node :=
| Dir
| File (data : fileData).

(** The persisted store document at [profilesPath], as [fs.readJSON] sees it,
    when what it holds is a mapping of profiles, with the numbers of their
    declared files taken as written. [Raw.document] below is the document
    without these two provisos. *)
Inductive document :=
| DocAbsent
| DocMalformed (raw : string)                 (* present, [JSON.parse] throws *)
| DocFalsy                                    (* parses to null, false, 0 or the empty string *)
| DocProfiles (m : gmap string AIProfile).

(** The store document lies in the global storage of the extension, outside
    the workspace: it is kept apart from the files that the manager reads and
    writes by path. *)
Record world := {
  files : gmap (list string) node;   (* the file system, by absolute path *)
  profilesDoc : document;
  profilesWritable : bool;           (* whether [profilesPath] can be opened for writing *)
  shown : list string;               (* information messages, latest first *)
  logged : list string               (* [console.error] lines, latest first *)
}.

Definition withFiles (w : world) (fs : gmap (list string) node) : world :=
  {| files := fs; profilesDoc := profilesDoc w; profilesWritable := profilesWritable w;
     shown := shown w; logged := logged w |}.

Inductive outcome (R : Type) :=
| Returned (r : R)
| Thrown (message : string).
Arguments Returned {R} r.
Arguments Thrown {R} message.

(** ** The file system calls of fs-extra *)

Module FS.

Abbreviation t := (gmap (list string) node).

(** The root is a directory whatever the map holds. *)
Definition stat (fs : t) (p : Path.t) : option node :=
  match p with
  | [] => Some Dir
  | _ => fs !! p
  end.

Definition pathExists (fs : t) (p : Path.t) : bool :=
  match stat fs p with Some _ => true | None => false end.

(** [fs.remove]: the path and all below it; a missing path is no error. *)
Definition remove (fs : t) (p : Path.t) : t :=
  filter (λ kv, ¬ p `prefix_of` kv.1) fs.

(** [fs.ensureDir]: create the missing directories from the root down; a
    regular file on the way is an error. *)
Fixpoint mkdirs (made : Path.t) (todo : list string) (fs : t) : outcome unit * t :=
  match todo with
  | [] => (Returned (), fs)
  | seg :: rest =>
      let q := made ++ [seg] in
      match fs !! q with
      | Some (File _) =>
          (Thrown match rest with
                  | [] => "EEXIST: file already exists"
                  | _ => "ENOTDIR: not a directory"
                  end, fs)
      | _ => mkdirs q rest (<[q := Dir]> fs)
      end
  end.

Definition ensureDir (fs : t) (p : Path.t) : outcome unit * t := mkdirs [] p fs.

(** [fs.writeFile] (and [fs.writeJSON], which serializes and then writes):
    the parent must be a directory and the path must not name one. *)
Definition writeFile (fs : t) (p : Path.t) (trailingSlash : bool) (d : fileData)
  : outcome unit * t :=
  if trailingSlash then (Thrown "EISDIR: illegal operation on a directory", fs)
  else match stat fs p with
       | Some Dir => (Thrown "EISDIR: illegal operation on a directory", fs)
       | _ =>
           match stat fs (Path.dirname p) with
           | Some Dir => (Returned (), <[p := File d]> fs)
           | Some (File _) => (Thrown "ENOTDIR: not a directory", fs)
           | None => (Thrown "ENOENT: no such file or directory", fs)
           end
       end.

Definition isDir (n : node) : bool :=
  match n with Dir => true | File _ => false end.

(** fs-extra's [checkPaths]: a directory never replaces a file, nor a file a
    directory. *)
Definition kindConflict (src : node) (dest : option node) : bool :=
  match src, dest with
  | Dir, Some (File _) => true
  | File _, Some Dir => true
  | _, _ => false
  end.

(** The order in which the entries of a directory tree are copied. *)
Definition shallower (a b : Path.t * node) : Prop := length a.1 ≤ length b.1.

Global Instance shallower_dec : RelDecision shallower.
Proof. intros a b. unfold shallower. apply _. Defined.

(** What lies strictly below [src], by path relative to [src], parents
    before their children. *)
Definition below (fs : t) (src : Path.t) : list (Path.t * node) :=
  merge_sort shallower
    (omap (λ kv : Path.t * node,
             if decide (src `prefix_of` kv.1 ∧ kv.1 ≠ src)
             then Some (drop (length src) kv.1, kv.2) else None)
          (map_to_list fs)).

Fixpoint copyEntries (dest : Path.t) (entries : list (Path.t * node)) (fs : t)
  : outcome unit * t :=
  match entries with
  | [] => (Returned (), fs)
  | (rel, n) :: rest =>
      if kindConflict n (fs !! (dest ++ rel))
      then (Thrown "Cannot overwrite: directory and non-directory", fs)
      else copyEntries dest rest (<[dest ++ rel := n]> fs)
  end.

(** [fs.copy(src, dest)] with the default [overwrite: true]: files replace
    files, directories are merged. *)
Definition copy (fs : t) (src dest : Path.t) : outcome unit * t :=
  match stat fs src with
  | None => (Thrown "ENOENT: no such file or directory", fs)
  | Some s =>
      if decide (src = dest)
      then (Thrown "Source and destination must not be the same.", fs)
      else if kindConflict s (stat fs dest)
      then (Thrown "Cannot overwrite: directory and non-directory", fs)
      else if isDir s && bool_decide (src `prefix_of` dest)
      then (Thrown "Cannot copy to a subdirectory of itself", fs)
      else
        let '(made, fs1) :=
          if pathExists fs (Path.dirname dest) then (Returned (), fs)
          else ensureDir fs (Path.dirname dest) in
        match made with
        | Thrown e => (Thrown e, fs1)
        | Returned _ =>
            match stat fs1 (Path.dirname dest), s with
            | Some Dir, File d => (Returned (), <[dest := File d]> fs1)
            | Some Dir, Dir => copyEntries dest (below fs src) (<[dest := Dir]> fs1)
            | _, _ => (Thrown "ENOTDIR: not a directory", fs1)
            end
        end
  end.

End FS.

(** ** Awaited calls and programs *)

(** The calls of the library functions. All but the last two are awaited in
    the source; [showInformationMessage] and [console.error] are not, which
    makes no difference to the file system. *)
Inductive call : Type → Type :=
| ReadProfilesJSON : call (option (gmap string AIProfile))      (* [fs.readJSON(profilesPath)] *)
| WriteProfilesJSON (m : gmap string AIProfile) : call unit     (* [fs.writeJSON(profilesPath, m, ..)] *)
| Glob (cwd : Path.t) (pattern : string) : call (list string)
| PathExists (p : Path.t) : call bool
| EnsureDir (p : Path.t) : call unit
| Remove (p : Path.t) : call unit
| WriteFile (p : Path.t) (trailingSlash : bool) (content : string) : call unit
| WriteJSON (p : Path.t) (trailingSlash : bool) (content : json) : call unit
| Copy (src dest : Path.t) : call unit
| ShowInformationMessage (message : string) : call unit
| ConsoleError (line : string) : call unit.

(** A program either returns, throws an [Error] with a message, or awaits a
    call and goes on with what the call returned or threw. *)
Inductive prog (A : Type) : Type :=
| Ret (a : A)
| Throw (message : string)
| Await {R : Type} (c : call R) (k : outcome R → prog A).
Arguments Ret {A} a.
Arguments Throw {A} message.
Arguments Await {A R} c k.

Fixpoint bind {A B : Type} (m : prog A) (f : A → prog B) : prog B :=
  match m with
  | Ret a => f a
  | Throw e => Throw e
  | Await c k => Await c (λ r, bind (k r) f)
  end.

(** [try { m } catch (error) { handler(handleError(error)) }] *)
Fixpoint tryCatch {A : Type} (m : prog A) (handler : string → prog A) : prog A :=
  match m with
  | Ret a => Ret a
  | Throw e => handler e
  | Await c k => Await c (λ r, tryCatch (k r) handler)
  end.

Global Instance prog_ret : MRet prog := @Ret.
Global Instance prog_bind : MBind prog := λ A B f m, bind m f.

(** [await c]: a rejected promise throws at the [await]. *)
Definition await {R : Type} (c : call R) : prog R :=
  Await c (λ r, match r with Returned v => Ret v | Thrown e => Throw e end).

(** [for (const x of xs) { body }] *)
Fixpoint forEach {X : Type} (xs : list X) (body : X → prog unit) : prog unit :=
  match xs with
  | [] => Ret ()
  | x :: rest => body x ;; forEach rest body
  end.

Definition onFiles {R : Type} (w : world) (r : outcome R * FS.t) : outcome R * world :=
  (r.1, withFiles w r.2).

(** What a call does to the world. The catalogue's glob patterns are literal
    names, so a pattern matches exactly when the path it names exists. The
    file system has no permissions, so [fs.remove] goes through. *)
Definition perform {R : Type} (c : call R) (w : world) : outcome R * world :=
  match c in call R return outcome R * world with
  | ReadProfilesJSON =>
      match profilesDoc w with
      | DocAbsent => (Thrown "ENOENT: no such file or directory", w)
      | DocMalformed _ => (Thrown "Unexpected token in JSON", w)
      | DocFalsy => (Returned None, w)
      | DocProfiles m => (Returned (Some m), w)
      end
  | WriteProfilesJSON m =>
      if profilesWritable w
      then (Returned (),
            {| files := files w; profilesDoc := DocProfiles m;
               profilesWritable := true; shown := shown w; logged := logged w |})
      else (Thrown "EACCES: permission denied", w)
  | Glob cwd pattern =>
      (Returned (if FS.pathExists (files w) (Path.join cwd pattern) then [pattern] else []), w)
  | PathExists p => (Returned (FS.pathExists (files w) p), w)
  | EnsureDir p => onFiles w (FS.ensureDir (files w) p)
  | Remove p => (Returned (), withFiles w (FS.remove (files w) p))
  | WriteFile p slash content => onFiles w (FS.writeFile (files w) p slash (Text content))
  | WriteJSON p slash content => onFiles w (FS.writeFile (files w) p slash (Formatted content))
  | Copy src dest => onFiles w (FS.copy (files w) src dest)
  | ShowInformationMessage message =>
      (Returned (),
       {| files := files w; profilesDoc := profilesDoc w;
          profilesWritable := profilesWritable w;
          shown := message :: shown w; logged := logged w |})
  | ConsoleError line =>
      (Returned (),
       {| files := files w; profilesDoc := profilesDoc w;
          profilesWritable := profilesWritable w;
          shown := shown w; logged := line :: logged w |})
  end.

(** Running a program to its end, one invocation at a time. *)
Fixpoint exec {A : Type} (m : prog A) (w : world) : outcome A * world :=
  match m with
  | Ret a => (Returned a, w)
  | Throw e => (Thrown e, w)
  | Await c k => let '(r, w') := perform c w in exec (k r) w'
  end.

(** The calls a run makes, in order. *)
Inductive anyCall : Type :=
| AnyCall {R : Type} (c : call R).

Fixpoint trace {A : Type} (m : prog A) (w : world) : list anyCall :=
  match m with
  | Ret _ | Throw _ => []
  | Await c k => let '(r, w') := perform c w in AnyCall c :: trace (k r) w'
  end.

(** Two invocations in flight: the schedule says whose pending call completes
    next ([true]: the first, [false]: the second); a finished invocation
    ignores its turns. A call takes effect as one step. *)
Definition advance {A : Type} (m : prog A) (w : world) : prog A * world :=
  match m with
  | Await c k => let '(r, w') := perform c w in (k r, w')
  | _ => (m, w)
  end.

Fixpoint interleave {A B : Type} (schedule : list bool) (m1 : prog A) (m2 : prog B) (w : world)
  : prog A * prog B * world :=
  match schedule with
  | [] => (m1, m2, w)
  | true :: rest => let '(m1', w') := advance m1 w in interleave rest m1' m2 w'
  | false :: rest => let '(m2', w') := advance m2 w in interleave rest m1 m2' w'
  end.

(** ** The profile store *)

Definition quote : string := String (ascii_of_nat 34) "".

(** The mapping that the loader returns is a plain object: the parsed
    document, or [{}]. Besides its own keys, which are the stored names, it
    answers to the names that every object inherits from [Object.prototype]. *)
Definition inheritedNames : list string :=
  [ "constructor"; "__defineGetter__"; "__defineSetter__"; "hasOwnProperty";
    "__lookupGetter__"; "__lookupSetter__"; "isPrototypeOf"; "propertyIsEnumerable";
    "toString"; "valueOf"; "__proto__"; "toLocaleString" ].

(** What [profiles[key]] evaluates to. A member of [Object.prototype] is a
    function, or for [__proto__] the prototype itself: it is truthy and has
    none of the fields of a profile. *)
Inductive property :=
| Own (profile : AIProfile)
| Inherited
| Undefined.

(** [profiles[key]] *)
Definition getProperty (profiles : gmap string AIProfile) (key : string) : property :=
  match profiles !! key with
  | Some profile => Own profile
  | None => if bool_decide (key ∈ inheritedNames) then Inherited else Undefined
  end.

(** [profiles[key] = profile], as far as the own keys go, which are what
    [fs.writeJSON] writes. The key [__proto__], unless the parsed document
    has it as an own key, is the accessor of [Object.prototype]: the
    assignment changes the prototype of [profiles] and none of its keys. *)
Definition setProperty (profiles : gmap string AIProfile) (key : string)
    (profile : AIProfile) : gmap string AIProfile :=
  if bool_decide (key = "__proto__" ∧ profiles !! key = None) then profiles
  else <[key := profile]> profiles.

Definition getProfiles : prog (gmap string AIProfile) :=
  tryCatch (r ← await ReadProfilesJSON; Ret (default ∅ r)) (λ _, Ret ∅).

Definition saveProfile (profileName : string) (profile : AIProfile) : prog unit :=
  tryCatch
    (profiles ← getProfiles;
     await (WriteProfilesJSON (setProperty profiles profileName profile)))
    (λ e, Throw ("Failed to save profile: " +:+ e)).

Definition saveProfiles (profiles : gmap string AIProfile) : prog unit :=
  tryCatch (await (WriteProfilesJSON profiles))
    (λ e, Throw ("Failed to save profiles: " +:+ e)).

Definition createProfile (currentWorkspace : option Path.t)
    (name description : string) (aiTool : AIToolType) : prog unit :=
  match currentWorkspace with
  | None => Throw "No workspace is open"
  | Some _ =>
      let profile :=
        {| name := name;
           description := if decide (description = "")
                          then toolName aiTool +:+ " configuration" else description;
           configs := [];
           ignorePatterns := "";
           rules := "";
           memoryBank := "";
           aiTool := aiTool |} in
      saveProfile name profile
  end.

(** ** The store document as JSON

    [fs.readJSON] reads the document with [JSON.parse], [fs.writeJSON] writes
    [JSON.stringify] of its argument, and [getProfiles] returns whatever the
    document parses to: it checks nothing. The calls [ReadProfilesJSON] and
    [WriteProfilesJSON] above take a document that holds profiles as the
    mapping it denotes. Here the loader and the saver are embedded on the
    document itself, which can be any JSON value, with its numbers as
    JavaScript reads them. *)

Module JSON.

(** A number of a JSON text, [-? digits (. digits)? ((e|E) (+|-)? digits)?],
    as the decimal [± mantissa · 10^exponent]. *)
Record decimal := {
  negative : bool;
  mantissa : Z;
  exponent : Z
}.

Definition digitOf (c : ascii) : option Z :=
  let n := Z.of_nat (nat_of_ascii c) in
  if ((48 <=? n) && (n <=? 57))%Z then Some (n - 48)%Z else None.

(** The digits at the front of [s]: their value after the digits [acc], how
    many they are, and the rest of [s]. *)
Fixpoint leadingDigits (s : string) (acc : Z) (count : Z) : Z * Z * string :=
  match s with
  | String c rest =>
      match digitOf c with
      | Some d => leadingDigits rest (10 * acc + d) (count + 1)
      | None => (acc, count, s)
      end
  | EmptyString => (acc, count, s)
  end.

Definition signed (s : string) (plus : bool) : bool * string :=
  match s with
  | String "-" rest => (true, rest)
  | String "+" rest => if plus then (false, rest) else (false, s)
  | _ => (false, s)
  end.

(** The exponent part: empty, or [e] or [E], a sign and digits to the end. *)
Definition exponentOf (s : string) : option Z :=
  match s with
  | EmptyString => Some 0%Z
  | String c rest =>
      if Ascii.eqb c "e" || Ascii.eqb c "E" then
        let '(minus, rest) := signed rest true in
        let '(e, count, rest) := leadingDigits rest 0 0 in
        if (0 <? count)%Z && bool_decide (rest = "")
        then Some (if minus then - e else e)%Z else None
      else None
  end.

Definition readNumber (literal : string) : option decimal :=
  let '(minus, s) := signed literal false in
  let '(int, count, rest) := leadingDigits s 0 0 in
  let leadingZero := match s with String "0" _ => (1 <? count)%Z | _ => false end in
  if (count =? 0)%Z || leadingZero then None
  else
    let '(m, places, rest, complete) :=
      match rest with
      | String "." rest =>
          let '(m, places, rest) := leadingDigits rest int 0 in
          (m, places, rest, (0 <? places)%Z)
      | _ => (int, 0%Z, rest, true)
      end in
    if complete then
      e ← exponentOf rest;
      Some {| negative := minus; mantissa := m; exponent := (e - places)%Z |}
    else None.

(** The magnitude of a decimal as a fraction of two integers. *)
Definition fraction (d : decimal) : Z * Z :=
  ((mantissa d * 10 ^ Z.max (exponent d) 0)%Z, (10 ^ Z.max (- exponent d) 0)%Z).

(** A number is read as the double nearest to it, ties to the even one. The
    largest double is [2^1024 - 2^971]: from half way to [2^1024] on a
    number is read as [Infinity]. The smallest is [2^-1074]: up to half of it
    a number is read as zero. *)
Definition overflows (d : decimal) : bool :=
  let '(n, m) := fraction d in ((2 ^ 1024 - 2 ^ 970) * m <=? n)%Z.

Definition vanishes (d : decimal) : bool :=
  let '(n, m) := fraction d in (n * 2 ^ 1075 <=? m)%Z.

Definition isInfinite (literal : string) : bool :=
  match readNumber literal with
  | Some d => overflows d
  | None => false
  end.

Definition isZero (literal : string) : bool :=
  match readNumber literal with
  | Some d => vanishes d
  | None => false
  end.

Definition isNegativeZero (literal : string) : bool :=
  match readNumber literal with
  | Some d => negative d && vanishes d
  | None => false
  end.

(** [!!value] of a parsed value: [null], [false], zero and the empty string
    are falsy. *)
Definition truthy (value : json) : bool :=
  match value with
  | JNull => false
  | JBool b => b
  | JNumber literal => negb (isZero literal)
  | JString s => negb (bool_decide (s = ""))
  | JArray _ | JObject _ => true
  end.

(** [JSON.parse(JSON.stringify(value))] for a value that was parsed: the
    text has [null] for [Infinity] and [0] for the negative zero. A literal
    stands for the double it is read as, which every other number is written
    and read back as. *)
Fixpoint restored (value : json) : json :=
  match value with
  | JNumber literal =>
      if isInfinite literal then JNull
      else if isNegativeZero literal then JNumber "0"
      else value
  | JArray items => JArray (map restored items)
  | JObject members => JObject (map (λ member, (member.1, restored member.2)) members)
  | _ => value
  end.

(** Every number of the value is a number of JSON that is read neither as
    [Infinity] nor as the negative zero. *)
Fixpoint exact (value : json) : bool :=
  match value with
  | JNumber literal =>
      bool_decide (is_Some (readNumber literal))
      && negb (isInfinite literal) && negb (isNegativeZero literal)
  | JArray items => forallb exact items
  | JObject members => forallb (λ member, exact member.2) members
  | _ => true
  end.

End JSON.

Module Raw.

(** The persisted store document at [profilesPath]. *)
Inductive document :=
| Missing
| Unparsable (raw : string)                   (* present, [JSON.parse] throws *)
| Holds (content : json).                     (* present, parses to [content] *)

Record store := {
  doc : document;
  writable : bool                    (* whether [profilesPath] can be opened for writing *)
}.

(** [fs.readJSON(profilesPath)] *)
Definition readJSON (s : store) : outcome json * store :=
  match doc s with
  | Missing => (Thrown "ENOENT: no such file or directory", s)
  | Unparsable _ => (Thrown "Unexpected token in JSON", s)
  | Holds content => (Returned content, s)
  end.

(** [fs.writeJSON(profilesPath, value, { spaces: 2 })] *)
Definition writeJSON (value : json) (s : store) : outcome unit * store :=
  if writable s
  then (Returned (), {| doc := Holds (JSON.restored value); writable := true |})
  else (Thrown "EACCES: permission denied", s).

(** [return (await fs.readJSON(this.profilesPath)) || {}], and [return {}]
    from the [catch] *)
Definition getProfiles (s : store) : outcome json * store :=
  match readJSON s with
  | (Returned content, s') =>
      (Returned (if JSON.truthy content then content else JObject []), s')
  | (Thrown _, s') => (Returned (JObject []), s')
  end.

Definition saveProfiles (profiles : json) (s : store) : outcome unit * store :=
  match writeJSON profiles s with
  | (Returned r, s') => (Returned r, s')
  | (Thrown e, s') => (Thrown ("Failed to save profiles: " +:+ e), s')
  end.

(** [await saveProfiles(await getProfiles())] *)
Definition loadThenSave (s : store) : outcome unit * store :=
  match getProfiles s with
  | (Returned profiles, s') => saveProfiles profiles s'
  | (Thrown e, s') => (Thrown e, s')
  end.

End Raw.

(** A profile as [fs.writeJSON] writes it, and a mapping of profiles with its
    keys in the given order. *)
Definition encodeProfile (profile : AIProfile) : json :=
  JObject [ ("name", JString (name profile));
            ("description", JString (description profile));
            ("configs", JObject (configs profile));
            ("ignorePatterns", JString (ignorePatterns profile));
            ("rules", JString (rules profile));
            ("memoryBank", JString (memoryBank profile));
            ("aiTool", JString (toolName (aiTool profile))) ].

Definition encodeProfiles (entries : list (string * AIProfile)) : json :=
  JObject ((λ entry, (entry.1, encodeProfile entry.2)) <$> entries).

(** The raw document behind a document of the profile store, with [null] for
    the falsy document and the keys in the order of [map_to_list]. *)
Definition rawDocument (d : document) : Raw.document :=
  match d with
  | DocAbsent => Raw.Missing
  | DocMalformed raw => Raw.Unparsable raw
  | DocFalsy => Raw.Holds JNull
  | DocProfiles m => Raw.Holds (encodeProfiles (map_to_list m))
  end.

(** No number in the declared files of the profile is read as [Infinity] or
    as the negative zero: the profile is read back as it is written. *)
Definition exactProfile (profile : AIProfile) : Prop :=
  JSON.exact (encodeProfile profile) = true.

(** ** The detector *)

Fixpoint detectPatterns (cwd : Path.t) (patterns : list string) : prog bool :=
  match patterns with
  | [] => Ret false
  | pattern :: rest =>
      found ← tryCatch
                (matches ← await (Glob cwd pattern);
                 Ret (bool_decide (0 < length matches)))
                (λ e, await (ConsoleError ("Error detecting " +:+ pattern +:+ ": " +:+ e)) ;;
                      Ret false);
      if (found : bool) then Ret true else detectPatterns cwd rest
  end.

Fixpoint detectTools (cwd : Path.t) (entries : list (AIToolType * list string))
    (detectedTools : list AIToolType) : prog (list AIToolType) :=
  match entries with
  | [] => Ret detectedTools
  | (tool, patterns) :: rest =>
      found ← detectPatterns cwd patterns;
      detectTools cwd rest (if (found : bool) then detectedTools ++ [tool] else detectedTools)
  end.

Definition detectAIConfigurations (currentWorkspace : option Path.t)
  : prog (list AIToolType) :=
  match currentWorkspace with
  | None => Ret []
  | Some ws => detectTools ws CONFIG_MAPPINGS []
  end.

(** ** The switcher *)

(** [isoString.replace(/[:.]/g, '-')] *)
Fixpoint dashed (s : string) : string :=
  match s with
  | EmptyString => EmptyString
  | String c rest =>
      String (if Ascii.eqb c ":"%char || Ascii.eqb c "."%char then "-"%char else c)
             (dashed rest)
  end.

Definition backupDirOf (ws : Path.t) : Path.t := Path.join ws ".ai-config-backups".

Definition backupPathOf (ws : Path.t) (now : string) : Path.t :=
  Path.join (backupDirOf ws) ("backup-" +:+ dashed now).

(** [now] is [new Date().toISOString()] at the time of the call. *)
Definition backupCurrentConfig (currentWorkspace : option Path.t) (now : string) : prog unit :=
  match currentWorkspace with
  | None => Ret ()
  | Some ws =>
      tryCatch
        (let backupDir := backupDirOf ws in
         let backupPath := backupPathOf ws now in
         await (EnsureDir backupDir) ;;
         forEach CONFIG_MAPPINGS (λ '(tool, patterns),
           forEach patterns (λ configFile,
             let sourcePath := Path.join ws configFile in
             present ← await (PathExists sourcePath);
             if (present : bool) then
               let destPath := Path.join backupPath configFile in
               await (EnsureDir (Path.dirname destPath)) ;;
               await (Copy sourcePath destPath)
             else Ret ())))
        (λ e, Throw ("Failed to create backup: " +:+ e))
  end.

Definition removeExisting (ws : Path.t) : prog unit :=
  forEach CONFIG_MAPPINGS (λ '(tool, patterns),
    forEach patterns (λ configFile,
      let filePath := Path.join ws configFile in
      present ← await (PathExists filePath);
      if (present : bool) then await (Remove filePath) else Ret ())).

Definition writeConfigs (ws : Path.t) (entries : list (string * json)) : prog unit :=
  forEach entries (λ '(fileName, content),
    let filePath := Path.join ws fileName in
    await (EnsureDir (Path.dirname filePath)) ;;
    match content with
    | JString text => await (WriteFile filePath (Path.endsWithSlash fileName) text)
    | _ => await (WriteJSON filePath (Path.endsWithSlash fileName) content)
    end).

Definition writeSpecialized (ws : Path.t) (profile : AIProfile) : prog unit :=
  (if decide (rules profile = "") then Ret ()
   else await (WriteFile (Path.join ws ".rules") false (rules profile))) ;;
  (if decide (ignorePatterns profile = "") then Ret ()
   else await (WriteFile (Path.join ws ".aiignore") false (ignorePatterns profile))) ;;
  (if decide (memoryBank profile = "") then Ret ()
   else await (WriteFile (Path.join ws "memory_bank") false (memoryBank profile))).

(** [if (config.get('backupBeforeSwitch')) { await this.backupCurrentConfig(); }] *)
Definition backupStep (ws : Path.t) (config : settings) (now : string) : prog unit :=
  if backupBeforeSwitch config then backupCurrentConfig (Some ws) now else Ret ().

(** The body of the [try] block of [switchProfile]. *)
Definition switchSteps (ws : Path.t) (config : settings) (now : string)
    (profileName : string) (profile : AIProfile) : prog unit :=
  backupStep ws config now ;;
  removeExisting ws ;;
  writeConfigs ws (configs profile) ;;
  writeSpecialized ws profile ;;
  (if showNotifications config
   then await (ShowInformationMessage ("Switched to AI profile: " +:+ profileName))
   else Ret ()).

(** The same block when [profile] is a member of [Object.prototype]: the
    backup and the clearing go ahead, and [Object.entries(profile.configs)]
    throws a [TypeError], since [profile.configs] is [undefined]. *)
Definition switchStepsInherited (ws : Path.t) (config : settings) (now : string)
  : prog unit :=
  backupStep ws config now ;;
  removeExisting ws ;;
  Throw "Cannot convert undefined or null to object".

Definition switchProfile (currentWorkspace : option Path.t) (config : settings)
    (now : string) (profileName : string) : prog unit :=
  match currentWorkspace with
  | None => Throw "No workspace is open"
  | Some ws =>
      profiles ← getProfiles;
      let failed e :=
        Throw ("Failed to switch to profile " +:+ quote +:+ profileName
               +:+ quote +:+ ": " +:+ e) in
      match getProperty profiles profileName with
      | Undefined => Throw ("Profile " +:+ quote +:+ profileName +:+ quote +:+ " not found")
      | Own profile => tryCatch (switchSteps ws config now profileName profile) failed
      | Inherited => tryCatch (switchStepsInherited ws config now) failed
      end
  end.

(** ** The current profile and the tree of profiles *)

(** [Object.entries(profiles)]: the entries of the loaded mapping in the
    order of the keys of the JavaScript object, which the mapping does not
    record. The code that enumerates the store takes the enumeration as a
    parameter. *)
Definition enumeration : Type := gmap string AIProfile → list (string * AIProfile).

Definition getCurrentProfile (entries : enumeration) (currentWorkspace : option Path.t)
  : prog (option AIProfile) :=
  match currentWorkspace with
  | None => Ret None
  | Some _ =>
      detectedTools ← detectAIConfigurations currentWorkspace;
      if decide (length detectedTools = 0) then Ret None
      else
        profiles ← getProfiles;
        Ret (find (λ profile, bool_decide (aiTool profile ∈ detectedTools))
                  (entries profiles).*2)
  end.

(** [AIProfileItem]: the fields after the constructor has run. *)
Record AIProfileItem := {
  itemName : string;
  itemTooltip : string;
  itemDescription : string;
  isActive : bool;
  iconPath : string;
  commandArguments : list string     (* of [aiConfigSwitcher.switchProfile] *)
}.

Definition newAIProfileItem (name description aiTool : string) (isActive : bool)
  : AIProfileItem :=
  {| itemName := name;
     itemTooltip := name +:+ ": " +:+ description;
     itemDescription := aiTool +:+ (if isActive then " (active)" else "");
     isActive := isActive;
     iconPath := if isActive then "check" else "gear";
     commandArguments := [name] |}.

(** [AIProfileProvider.getChildren] *)
Definition getChildren (entries : enumeration) (currentWorkspace : option Path.t)
    (element : option AIProfileItem) : prog (list AIProfileItem) :=
  match element with
  | None =>
      profiles ← getProfiles;
      currentProfile ← getCurrentProfile entries currentWorkspace;
      Ret ((λ '(profileName, profile),
              newAIProfileItem profileName
                (if decide (description profile = "")
                 then toolName (aiTool profile) +:+ " configuration"
                 else description profile)
                (toolName (aiTool profile))
                (bool_decide (Some profileName = name <$> currentProfile)))
           <$> entries profiles)
  | Some _ => Ret []
  end.

(** ** The commands

    A command handler talks to the user through the VS Code window and calls
    the manager. *)

Record quickPickItem := {
  label : string;
  pickDescription : string;
  detail : string
}.

Inductive request : Type → Type :=
| Run {R : Type} (m : prog R) : request R
    (* a method of the manager, or a call that needs no answer *)
| ShowInputBox (placeHolder value : string)
    (validateInput : option (string → prog (option string))) : request (option string)
| ShowQuickPick {X : Type} (items : list X) (labelOf : X → string) (placeHolder : string)
    : request (option X)
| AskInformation (message : string) (items : list string) : request (option string)
    (* [showInformationMessage(message, ...items)], awaited *)
| ShowWarningMessage (message : string) (items : list string) : request (option string)
| ShowErrorMessage (message : string) : request unit
| ExecuteCommand (command : string) (arguments : list string) : request unit
| Refresh : request unit.                       (* [treeDataProvider.refresh()] *)

Inductive dialog (A : Type) : Type :=
| Finish (a : A)
| Raise (message : string)
| Ask {R : Type} (q : request R) (k : outcome R → dialog A).
Arguments Finish {A} a.
Arguments Raise {A} message.
Arguments Ask {A R} q k.

Fixpoint dialog_then {A B : Type} (m : dialog A) (f : A → dialog B) : dialog B :=
  match m with
  | Finish a => f a
  | Raise e => Raise e
  | Ask q k => Ask q (λ r, dialog_then (k r) f)
  end.

(** [try { m } catch (error) { handler(message of error) }] *)
Fixpoint attempt {A : Type} (m : dialog A) (handler : string → dialog A) : dialog A :=
  match m with
  | Finish a => Finish a
  | Raise e => handler e
  | Ask q k => Ask q (λ r, attempt (k r) handler)
  end.

Global Instance dialog_ret : MRet dialog := @Finish.
Global Instance dialog_bind : MBind dialog := λ A B f m, dialog_then m f.

Definition ask {R : Type} (q : request R) : dialog R :=
  Ask q (λ r, match r with Returned v => Finish v | Thrown e => Raise e end).

(** What the handlers see of VS Code besides the world of the manager: the
    answers the user is going to give, in order ([None]: the box or the pick
    is dismissed), and what has been shown and asked for. *)
Record desk := {
  state : world;
  answers : list (option string);
  errors : list string;                       (* [showErrorMessage], latest first *)
  warnings : list string;                     (* [showWarningMessage], latest first *)
  executed : list (string * list string);     (* [executeCommand], latest first *)
  refreshed : nat
}.

Definition withState (d : desk) (w : world) : desk :=
  {| state := w; answers := answers d; errors := errors d; warnings := warnings d;
     executed := executed d; refreshed := refreshed d |}.

Definition withAnswers (d : desk) (rest : list (option string)) : desk :=
  {| state := state d; answers := rest; errors := errors d; warnings := warnings d;
     executed := executed d; refreshed := refreshed d |}.

(** An input box: a value that [validateInput] answers with a message is
    not accepted and the user goes on to the next value or dismisses the
    box. *)
Fixpoint inputBox (validateInput : option (string → prog (option string)))
    (answers : list (option string)) (w : world)
  : outcome (option string) * (list (option string) * world) :=
  match answers with
  | [] => (Returned None, ([], w))
  | None :: rest => (Returned None, (rest, w))
  | Some value :: rest =>
      match validateInput with
      | None => (Returned (Some value), (rest, w))
      | Some validate =>
          match exec (validate value) w with
          | (Returned None, w') => (Returned (Some value), (rest, w'))
          | (Returned (Some _), w') => inputBox validateInput rest w'
          | (Thrown e, w') => (Thrown e, (rest, w'))
          end
      end
  end.

(** The next answer, if it is one of the choices on offer. *)
Definition chosen {X : Type} (items : list X) (labelOf : X → string)
    (answers : list (option string)) : option X * list (option string) :=
  match answers with
  | [] => (None, [])
  | None :: rest => (None, rest)
  | Some a :: rest => (find (λ x, bool_decide (labelOf x = a)) items, rest)
  end.

Definition respond {R : Type} (q : request R) (d : desk) : outcome R * desk :=
  match q in request R return outcome R * desk with
  | Run m => let '(r, w) := exec m (state d) in (r, withState d w)
  | ShowInputBox _ _ validateInput =>
      let '(r, (rest, w)) := inputBox validateInput (answers d) (state d) in
      (r, withAnswers (withState d w) rest)
  | ShowQuickPick items labelOf _ =>
      let '(r, rest) := chosen items labelOf (answers d) in
      (Returned r, withAnswers d rest)
  | AskInformation message items =>
      let '(r, rest) := chosen items id (answers d) in
      (Returned r,
       withAnswers (withState d (perform (ShowInformationMessage message) (state d)).2) rest)
  | ShowWarningMessage message items =>
      let '(r, rest) := chosen items id (answers d) in
      (Returned r,
       {| state := state d; answers := rest; errors := errors d;
          warnings := message :: warnings d; executed := executed d;
          refreshed := refreshed d |})
  | ShowErrorMessage message =>
      (Returned (),
       {| state := state d; answers := answers d; errors := message :: errors d;
          warnings := warnings d; executed := executed d; refreshed := refreshed d |})
  | ExecuteCommand command arguments =>
      (Returned (),
       {| state := state d; answers := answers d; errors := errors d;
          warnings := warnings d; executed := (command, arguments) :: executed d;
          refreshed := refreshed d |})
  | Refresh =>
      (Returned (),
       {| state := state d; answers := answers d; errors := errors d;
          warnings := warnings d; executed := executed d; refreshed := S (refreshed d) |})
  end.

Fixpoint run {A : Type} (m : dialog A) (d : desk) : outcome A * desk :=
  match m with
  | Finish a => (Returned a, d)
  | Raise e => (Thrown e, d)
  | Ask q k => let '(r, d') := respond q d in run (k r) d'
  end.

(** [if (!value)] for a string that may be undefined *)
Definition given (value : option string) : option string :=
  match value with
  | Some "" => None
  | _ => value
  end.

Definition showInformationMessage (message : string) : dialog unit :=
  ask (Run (await (ShowInformationMessage message))).

(** [Array.prototype.join] *)
Fixpoint joined (separator : string) (items : list string) : string :=
  match items with
  | [] => ""
  | [item] => item
  | item :: rest => item +:+ separator +:+ joined separator rest
  end.

(** [AIConfigManager.suggestProfileCreation] *)
Definition suggestProfileCreation (entries : enumeration) (currentWorkspace : option Path.t)
  : dialog unit :=
  detectedTools ← ask (Run (detectAIConfigurations currentWorkspace));
  if decide (length detectedTools = 0) then Finish ()
  else
    profiles ← ask (Run getProfiles);
    let hasMatchingProfile :=
      existsb (λ profile, bool_decide (aiTool profile ∈ detectedTools)) (entries profiles).*2 in
    if hasMatchingProfile then Finish ()
    else
      create ← ask (AskInformation
                      ("Detected " +:+ joined ", " (toolName <$> detectedTools)
                       +:+ " configuration. Would you like to create a profile?")
                      ["Yes"; "No"]);
      if decide (create = Some "Yes")
      then ask (ExecuteCommand "aiConfigSwitcher.syncFromCurrent" [])
      else Finish ().

(** The [catch] block of every handler. *)
Definition showError (errorMessage : string) : dialog unit :=
  ask (ShowErrorMessage errorMessage).

(** The quick pick of a stored profile, as the handlers build it. *)
Definition profileItems (entries : enumeration) (profiles : gmap string AIProfile)
  : list quickPickItem :=
  (λ '(profileName, profile),
     {| label := profileName; pickDescription := toolName (aiTool profile); detail := "" |})
  <$> entries profiles.

(** [if (!profileName) { ... profileName = selected.label; }] of the switch and
    the edit handler: without an argument the user picks a stored profile. *)
Definition chooseProfile (entries : enumeration) (profileName : option string)
    (placeHolder : string) : dialog (option string) :=
  match given profileName with
  | Some profileName => Finish (Some profileName)
  | None =>
      profiles ← ask (Run getProfiles);
      selected ← ask (ShowQuickPick (profileItems entries profiles) label placeHolder);
      Finish (label <$> (selected : option quickPickItem))
  end.

(** [aiConfigSwitcher.switchProfile] *)
Definition switchProfileCommand (entries : enumeration) (currentWorkspace : option Path.t)
    (config : settings) (now : string) (profileName : option string) : dialog unit :=
  attempt
    (profileName ← chooseProfile entries profileName "Select a profile to switch to";
     match profileName with
     | None => Finish ()
     | Some profileName =>
         ask (Run (switchProfile currentWorkspace config now profileName)) ;;
         ask Refresh
     end)
    showError.

(** The [validateInput] of the name boxes. *)
Definition validateName (value : string) : prog (option string) :=
  if decide (value = "") then Ret (Some "Profile name is required")
  else
    profiles ← getProfiles;
    match getProperty profiles value with
    | Undefined => Ret None
    | _ => Ret (Some "Profile already exists")
    end.

(** [Object.keys(CONFIG_MAPPINGS) as AIToolType[]] *)
Definition aiTools : list AIToolType := CONFIG_MAPPINGS.*1.

(** [aiConfigSwitcher.createProfile] *)
Definition createProfileCommand (currentWorkspace : option Path.t) : dialog unit :=
  attempt
    (profileName ← ask (ShowInputBox "Enter profile name" "" (Some validateName));
     match given profileName with
     | None => Finish ()
     | Some profileName =>
         description ← ask (ShowInputBox "Enter profile description" "" None);
         let description := default "" description in
         aiTool ← ask (ShowQuickPick aiTools toolName "Select AI tool type");
         match aiTool with
         | None => Finish ()
         | Some aiTool =>
             ask (Run (createProfile currentWorkspace profileName description aiTool)) ;;
             ask Refresh ;;
             showInformationMessage ("Created profile: " +:+ profileName)
         end
     end)
    showError.

(** [aiConfigSwitcher.editProfile] *)
Definition editProfileCommand (entries : enumeration) (currentWorkspace : option Path.t)
    (profileName : option string) : dialog unit :=
  attempt
    (profileName ← chooseProfile entries profileName "Select a profile to edit";
     match profileName with
     | None => Finish ()
     | Some profileName =>
         profiles ← ask (Run getProfiles);
         match getProperty profiles profileName with
         | Undefined => ask (ShowErrorMessage ("Profile " +:+ profileName +:+ " not found"))
         | profile =>
             (* [profile.description] of an inherited member is [undefined]:
                the box opens empty *)
             let value := match profile with
                          | Own profile => description profile
                          | _ => ""
                          end in
             description ← ask (ShowInputBox "Enter new profile description" value None);
             match description with
             | None => Finish ()
             | Some description =>
                 aiToolPick ← ask (ShowQuickPick aiTools toolName "Select AI tool type");
                 match aiToolPick with
                 | None => Finish ()
                 | Some aiTool =>
                     ask (Run (createProfile currentWorkspace profileName description aiTool)) ;;
                     ask Refresh ;;
                     showInformationMessage ("Updated profile: " +:+ profileName)
                 end
             end
         end
     end)
    showError.

(** [aiConfigSwitcher.syncFromCurrent] *)
Definition syncFromCurrentCommand (currentWorkspace : option Path.t) : dialog unit :=
  attempt
    (profileName ← ask (ShowInputBox "Enter profile name for current configuration" ""
                          (Some validateName));
     match given profileName with
     | None => Finish ()
     | Some profileName =>
         description ← ask (ShowInputBox "Enter profile description" "" None);
         let description := default "" description in
         detectedTools ← ask (Run (detectAIConfigurations currentWorkspace));
         match detectedTools with
         | [] => ask (ShowErrorMessage "No AI configuration detected in current workspace")
         | aiTool :: _ =>
             ask (Run (createProfile currentWorkspace profileName description aiTool)) ;;
             ask Refresh ;;
             showInformationMessage
               ("Created profile from current configuration: " +:+ profileName)
         end
     end)
    showError.

(** [aiConfigSwitcher.manageProfiles] *)
Definition manageProfilesCommand (entries : enumeration) : dialog unit :=
  attempt
    (profiles ← ask (Run getProfiles);
     let items :=
       (λ '(profileName, profile),
          {| label := profileName; pickDescription := toolName (aiTool profile);
             detail := description profile |}) <$> entries profiles in
     selected ← ask (ShowQuickPick items label "Select a profile to manage");
     match selected with
     | None => Finish ()
     | Some selected =>
         action ← ask (ShowQuickPick ["Delete"; "Edit"] id
                         ("Choose action for " +:+ label selected));
         match action with
         | None => Finish ()
         | Some action =>
             if decide (action = "Delete") then
               confirm ← ask (ShowWarningMessage
                                ("Are you sure you want to delete profile " +:+ quote
                                 +:+ label selected +:+ quote +:+ "?")
                                ["Yes"; "No"]);
               if decide (confirm = Some "Yes") then
                 ask (Run (saveProfiles (delete (label selected) profiles))) ;;
                 ask Refresh ;;
                 showInformationMessage ("Deleted profile: " +:+ label selected)
               else Finish ()
             else if decide (action = "Edit") then
               ask (ExecuteCommand "aiConfigSwitcher.editProfile" [label selected])
             else Finish ()
         end
     end)
    showError.

(** ** The configuration manager

    [ConfigManager], the second manager of the file, keeps named
    configurations as folders under [.agent-configs] of the workspace folder
    and lists them in [configs.json]. It works through the synchronous calls
    of Node's [fs]: a method takes the state it finds to an outcome and the
    state it leaves. *)

Inductive notice :=
| ErrorMessage (message : string)
| InformationMessage (message : string).

Record bench := {
  disk : FS.t;
  notices : list notice     (* what [vscode.window] has shown, latest first *)
}.

Definition withDisk (w : bench) (fs : FS.t) : bench :=
  {| disk := fs; notices := notices w |}.

(** Synchronous code: [None] stands for a recursion that has not come to an
    end within the depth granted to it. *)
Definition sync (A : Type) : Type := bench → option (outcome A * bench).

Definition sync_return {A : Type} (a : A) : sync A := λ w, Some (Returned a, w).

(** An exception that the runtime raises *)
Definition throw {A : Type} (message : string) : sync A := λ w, Some (Thrown message, w).

Definition sync_then {A B : Type} (m : sync A) (f : A → sync B) : sync B :=
  λ w, match m w with
       | None => None
       | Some (Returned a, w1) => f a w1
       | Some (Thrown e, w1) => Some (Thrown e, w1)
       end.

(** [try { m } catch (error) { handler }] *)
Definition sync_catch {A : Type} (m : sync A) (handler : string → sync A) : sync A :=
  λ w, match m w with
       | None => None
       | Some (Returned a, w1) => Some (Returned a, w1)
       | Some (Thrown e, w1) => handler e w1
       end.

Global Instance sync_ret : MRet sync := @sync_return.
Global Instance sync_bind : MBind sync := λ A B f m, sync_then m f.

(** A computation that touches nothing *)
Definition lift {A : Type} (r : outcome A) : sync A := λ w, Some (r, w).

(** A call that changes the file system. *)
Definition onDisk {R : Type} (f : FS.t → outcome R * FS.t) : sync R :=
  λ w, Some ((f (disk w)).1, withDisk w (f (disk w)).2).

(** [xs.forEach(body)] *)
Fixpoint forEachSync {X : Type} (xs : list X) (body : X → sync unit) : sync unit :=
  match xs with
  | [] => sync_return ()
  | x :: rest => sync_then (body x) (λ _, forEachSync rest body)
  end.

(** *** The calls of [fs] *)

Definition existsSync (p : Path.t) : sync bool :=
  λ w, Some (Returned (FS.pathExists (disk w) p), w).

Definition lstatSync (p : Path.t) : sync node :=
  λ w, match FS.stat (disk w) p with
       | Some n => Some (Returned n, w)
       | None => Some (Thrown "ENOENT: no such file or directory", w)
       end.

(** [fs.mkdirSync(p)]: the parent must be a directory and [p] must be new. *)
Definition mkdir (fs : FS.t) (p : Path.t) : outcome unit * FS.t :=
  match FS.stat fs p with
  | Some _ => (Thrown "EEXIST: file already exists", fs)
  | None =>
      match FS.stat fs (Path.dirname p) with
      | Some Dir => (Returned (), <[p := Dir]> fs)
      | Some (File _) => (Thrown "ENOTDIR: not a directory", fs)
      | None => (Thrown "ENOENT: no such file or directory", fs)
      end
  end.

Definition mkdirSync (p : Path.t) : sync unit := onDisk (λ fs, mkdir fs p).

(** [fs.mkdirSync(p, { recursive: true })] *)
Definition mkdirSyncRecursive (p : Path.t) : sync unit := onDisk (λ fs, FS.ensureDir fs p).

(** The names [fs.readdirSync] gives for a directory, in the order of the
    file system. *)
Definition listing : Type := FS.t → Path.t → list string.

Definition readdirSync (names : listing) (p : Path.t) : sync (list string) :=
  λ w, match FS.stat (disk w) p with
       | Some Dir => Some (Returned (names (disk w) p), w)
       | Some (File _) => Some (Thrown "ENOTDIR: not a directory", w)
       | None => Some (Thrown "ENOENT: no such file or directory", w)
       end.

Definition readFileSync (p : Path.t) : sync fileData :=
  λ w, match FS.stat (disk w) p with
       | Some (File d) => Some (Returned d, w)
       | Some Dir => Some (Thrown "EISDIR: illegal operation on a directory", w)
       | None => Some (Thrown "ENOENT: no such file or directory", w)
       end.

Definition writeFileSync (p : Path.t) (d : fileData) : sync unit :=
  onDisk (λ fs, FS.writeFile fs p false d).

(** [fs.copyFileSync(source, target)]: the target is opened as for a write. *)
Definition copyFileSync (source target : Path.t) : sync unit :=
  onDisk (λ fs, match FS.stat fs source with
                | Some (File d) => FS.writeFile fs target false d
                | Some Dir => (Thrown "EISDIR: illegal operation on a directory", fs)
                | None => (Thrown "ENOENT: no such file or directory", fs)
                end).

(** [vscode.window.showErrorMessage], not awaited *)
Definition showErrorMessage (message : string) : sync unit :=
  λ w, Some (Returned (), {| disk := disk w; notices := ErrorMessage message :: notices w |}).

(** [vscode.window.showInformationMessage], not awaited *)
Definition showInformation (message : string) : sync unit :=
  λ w, Some (Returned (),
             {| disk := disk w; notices := InformationMessage message :: notices w |}).

(** *** The methods *)

(** [JSON.parse] on text, [None] when it throws. *)
Definition parser : Type := string → option json.

(** [JSON.parse(text)] for what a file holds. [Formatted value] is the text
    that [JSON.stringify(value, null, 2)] gives (with or without a final
    newline), which parses to [value]. *)
Definition JSON_parse (parse : parser) (d : fileData) : outcome json :=
  match d with
  | Text s =>
      match parse s with
      | Some value => Returned value
      | None => Thrown "SyntaxError: Unexpected token"
      end
  | Formatted value => Returned value
  end.

(** [workspaceRoot] is the first workspace folder; without one it is the
    empty string, which [path.join] and [fs] resolve against the working
    directory of the process. *)
Definition configsPathOf (workspaceRoot : Path.t) : Path.t :=
  Path.join workspaceRoot ".agent-configs".

Definition configFileOf (workspaceRoot : Path.t) : Path.t :=
  Path.join (configsPathOf workspaceRoot) "configs.json".

Definition getConfigurations (parse : parser) (workspaceRoot : Path.t) : sync json :=
  sync_catch
    (d ← readFileSync (configFileOf workspaceRoot); lift (JSON_parse parse d))
    (λ _, sync_return (JArray [])).

Definition saveConfigList (workspaceRoot : Path.t) (configs : list json) : sync unit :=
  writeFileSync (configFileOf workspaceRoot) (Formatted (JArray configs)).

(** [copyFolderRecursive(source, target)], followed to the given depth of
    recursion. The names of a directory are single segments, so [path.join]
    appends them. *)
Fixpoint copyFolderRecursive (names : listing) (depth : nat) (source target : Path.t)
  : sync unit :=
  match depth with
  | 0 => λ _, None
  | S depth =>
      found ← existsSync source;
      if found : bool then
        stats ← lstatSync source;
        if FS.isDir stats then
          mkdirSyncRecursive target ;;
          files ← readdirSync names source;
          forEachSync files
            (λ file, copyFolderRecursive names depth (source ++ [file]) (target ++ [file]))
        else copyFileSync source target
      else sync_return ()
  end.

(** [createBaseTemplates]: [path.join(configsPath, '.base', dir)] and the
    [default.txt] in it. *)
Definition createBaseTemplates (workspaceRoot : Path.t) : sync unit :=
  forEachSync ["rules"; "memory-bank"; "templates"]
    (λ dir,
       let dirPath := Path.join (Path.join (configsPathOf workspaceRoot) ".base") dir in
       mkdirSyncRecursive dirPath ;;
       writeFileSync (Path.join dirPath "default.txt")
         (Text ("# Default " +:+ dir +:+ " configuration"))).

Definition ensureDirectoryExists (workspaceRoot : Path.t) : sync unit :=
  found ← existsSync (configsPathOf workspaceRoot);
  if found : bool then sync_return ()
  else
    mkdirSync (configsPathOf workspaceRoot) ;;
    createBaseTemplates workspaceRoot ;;
    saveConfigList workspaceRoot [].

(** [c.name] for a parsed value: [undefined] unless [c] is an object with that
    member; reading a property of [null] throws. *)
Definition nameOf (c : json) : outcome (option json) :=
  match c with
  | JNull => Thrown "TypeError: Cannot read properties of null (reading 'name')"
  | JObject members => Returned (snd <$> find (λ member, bool_decide (member.1 = "name")) members)
  | _ => Returned None
  end.

(** [configs.some((c: any) => c.name === name)] on the elements of an array *)
Fixpoint someNamed (name : string) (configs : list json) : outcome bool :=
  match configs with
  | [] => Returned false
  | c :: rest =>
      match nameOf c with
      | Thrown e => Thrown e
      | Returned (Some (JString s)) =>
          if decide (s = name) then Returned true else someNamed name rest
      | Returned _ => someNamed name rest
      end
  end.

(** The element [{ name, active: false }] *)
Definition configEntry (name : string) : json :=
  JObject [("name", JString name); ("active", JBool false)].

(** [createConfig(name)]. What [getConfigurations] returns is whatever the
    file holds: only an array has [some] and [push]. An exception leaves the
    method; nothing catches it. A trailing separator of [name] makes no
    difference: the path then names the directory that has just been made. *)
Definition createConfig (parse : parser) (names : listing) (depth : nat)
    (workspaceRoot : Path.t) (name : string) : sync unit :=
  configs ← getConfigurations parse workspaceRoot;
  match configs with
  | JArray items =>
      found ← lift (someNamed name items);
      if found : bool then
        showErrorMessage ("Configuration " +:+ quote +:+ name +:+ quote +:+ " already exists!")
      else
        let basePath := Path.join (configsPathOf workspaceRoot) ".base" in
        let newConfigPath := Path.join (configsPathOf workspaceRoot) name in
        mkdirSync newConfigPath ;;
        copyFolderRecursive names depth basePath newConfigPath ;;
        saveConfigList workspaceRoot (items ++ [configEntry name]) ;;
        showInformation
          ("Configuration " +:+ quote +:+ name +:+ quote +:+ " created successfully!")
  | JNull => throw "TypeError: Cannot read properties of null (reading 'some')"
  | _ => throw "TypeError: configs.some is not a function"
  end.

(** * Properties *)

Global Arguments Path.join : simpl never.
Global Arguments Path.dirname : simpl never.
Global Arguments backupDirOf : simpl never.
Global Arguments backupPathOf : simpl never.

(** ** Running programs *)

Definition continue {A B : Type} (r : outcome A * world)
    (k : A → world → outcome B * world) : outcome B * world :=
  match r with
  | (Returned a, w) => k a w
  | (Thrown e, w) => (Thrown e, w)
  end.

Definition recover {A : Type} (r : outcome A * world)
    (h : string → world → outcome A * world) : outcome A * world :=
  match r with
  | (Returned a, w) => (Returned a, w)
  | (Thrown e, w) => h e w
  end.

Lemma exec_bind {A B : Type} (m : prog A) (f : A → prog B) (w : world) :
  exec (m ≫= f) w = continue (exec m w) (λ a w', exec (f a) w').
Proof.
  unfold mbind, prog_bind. revert w.
  induction m as [a|e|R c k IH]; intros w; simpl; try done.
  destruct (perform c w) as [r w']. apply IH.
Qed.

Lemma exec_tryCatch {A : Type} (m : prog A) (h : string → prog A) (w : world) :
  exec (tryCatch m h) w = recover (exec m w) (λ e w', exec (h e) w').
Proof.
  revert w. induction m as [a|e|R c k IH]; intros w; simpl; try done.
  destruct (perform c w) as [r w']. apply IH.
Qed.

Lemma exec_await {R : Type} (c : call R) (w : world) : exec (await c) w = perform c w.
Proof. simpl. by destruct (perform c w) as [[r|e] w']. Qed.

Lemma exec_forEach_cons {X : Type} (x : X) (xs : list X) (body : X → prog unit) (w : world) :
  exec (forEach (x :: xs) body) w = continue (exec (body x) w) (λ _ w', exec (forEach xs body) w').
Proof. simpl. apply exec_bind. Qed.

Lemma exec_bind_returned {A B : Type} (m : prog A) (f : A → prog B) (w w' : world) (b : B) :
  exec (m ≫= f) w = (Returned b, w') →
  ∃ a w1, exec m w = (Returned a, w1) ∧ exec (f a) w1 = (Returned b, w').
Proof.
  rewrite exec_bind. destruct (exec m w) as [[a|e] w1]; simpl; [|done]. eauto.
Qed.

Lemma exec_forEach_returned {X : Type} (x : X) (xs : list X) (body : X → prog unit)
    (w w' : world) :
  exec (forEach (x :: xs) body) w = (Returned (), w') →
  ∃ w1, exec (body x) w = (Returned (), w1) ∧ exec (forEach xs body) w1 = (Returned (), w').
Proof.
  cbn [forEach]. intros (a & w1 & H1 & H2)%exec_bind_returned. destruct a. eauto.
Qed.

Lemma exec_forEach_app {X : Type} (xs ys : list X) (body : X → prog unit) (w : world) :
  exec (forEach (xs ++ ys) body) w =
  continue (exec (forEach xs body) w) (λ _ w', exec (forEach ys body) w').
Proof.
  revert w. induction xs as [|x xs IH]; intros w; [done|].
  rewrite <- app_comm_cons, !exec_forEach_cons.
  destruct (exec (body x) w) as [[[]|e] w1]; simpl; [apply IH|done].
Qed.

(** Nested loops run as one loop over the concatenation. *)
Lemma exec_forEach_nested {X Y : Type} (xs : list X) (inner : X → list Y)
    (body : Y → prog unit) (w : world) :
  exec (forEach xs (λ x, forEach (inner x) body)) w = exec (forEach (xs ≫= inner) body) w.
Proof.
  revert w. induction xs as [|x xs IH]; intros w; [done|].
  rewrite exec_forEach_cons. cbn [mbind list_bind]. rewrite exec_forEach_app.
  destruct (exec (forEach (inner x) body) w) as [[[]|e] w1]; simpl; [apply IH|done].
Qed.

Lemma exec_forEach_ext {X : Type} (xs : list X) (body body' : X → prog unit) (w : world) :
  (∀ x w, exec (body x) w = exec (body' x) w) →
  exec (forEach xs body) w = exec (forEach xs body') w.
Proof.
  intros Hext. revert w. induction xs as [|x xs IH]; intros w; [done|].
  rewrite !exec_forEach_cons, Hext.
  destruct (exec (body' x) w) as [[[]|e] w1]; simpl; [apply IH|done].
Qed.

Lemma trace_bind {A B : Type} (m : prog A) (f : A → prog B) (w : world) :
  trace (m ≫= f) w =
  trace m w ++ match exec m w with
               | (Returned a, w') => trace (f a) w'
               | (Thrown _, _) => []
               end.
Proof.
  unfold mbind, prog_bind. revert w.
  induction m as [a|e|R c k IH]; intros w; simpl; try done.
  destruct (perform c w) as [r w']. simpl. f_equal. apply IH.
Qed.

Lemma trace_tryCatch {A : Type} (m : prog A) (h : string → prog A) (w : world) :
  trace (tryCatch m h) w =
  trace m w ++ match exec m w with
               | (Returned _, _) => []
               | (Thrown e, w') => trace (h e) w'
               end.
Proof.
  revert w. induction m as [a|e|R c k IH]; intros w; simpl; try done.
  destruct (perform c w) as [r w']. simpl. f_equal. apply IH.
Qed.

(** A property of every call a program can make, whatever the calls answer. *)
Inductive callsIn {A : Type} (P : anyCall → Prop) : prog A → Prop :=
| callsIn_Ret a : callsIn P (Ret a)
| callsIn_Throw e : callsIn P (Throw e)
| callsIn_Await {R : Type} (c : call R) k :
    P (AnyCall c) → (∀ r, callsIn P (k r)) → callsIn P (Await c k).

Lemma callsIn_bind {A B : Type} (P : anyCall → Prop) (m : prog A) (f : A → prog B) :
  callsIn P m → (∀ a, callsIn P (f a)) → callsIn P (m ≫= f).
Proof.
  unfold mbind, prog_bind. intros Hm Hf.
  induction Hm as [a|e|R c k Hc Hk IH]; simpl; [apply Hf|constructor|].
  constructor; [done|]. intros r. apply IH.
Qed.

Lemma callsIn_tryCatch {A : Type} (P : anyCall → Prop) (m : prog A) (h : string → prog A) :
  callsIn P m → (∀ e, callsIn P (h e)) → callsIn P (tryCatch m h).
Proof.
  intros Hm Hh.
  induction Hm as [a|e|R c k Hc Hk IH]; simpl; [constructor|apply Hh|].
  constructor; [done|]. intros r. apply IH.
Qed.

Lemma callsIn_await {R : Type} (P : anyCall → Prop) (c : call R) :
  P (AnyCall c) → callsIn P (await c).
Proof. intros Hc. constructor; [done|]. intros [v|e]; constructor. Qed.

Lemma callsIn_forEach {X : Type} (P : anyCall → Prop) (xs : list X) (body : X → prog unit) :
  (∀ x, x ∈ xs → callsIn P (body x)) → callsIn P (forEach xs body).
Proof.
  induction xs as [|x xs IH]; intros H; simpl; [constructor|].
  apply callsIn_bind; [apply H; left|].
  intros _. apply IH. intros y Hy. apply H. by right.
Qed.

Lemma callsIn_mono {A : Type} (P Q : anyCall → Prop) (m : prog A) :
  (∀ c, P c → Q c) → callsIn P m → callsIn Q m.
Proof. intros HPQ Hm. induction Hm; constructor; auto. Qed.

Lemma callsIn_trace {A : Type} (P : anyCall → Prop) (m : prog A) (w : world) :
  callsIn P m → Forall P (trace m w).
Proof.
  intros Hm. revert w. induction Hm as [a|e|R c k Hc Hk IH]; intros w; simpl; try done.
  destruct (perform c w) as [r w']. constructor; [done|apply IH].
Qed.

(** A relation between worlds that every call of a program respects is
    respected by its runs, alone or interleaved with another program. *)
Section Respect.
Context (P : anyCall → Prop) (Rel : world → world → Prop).
Hypothesis Rel_refl : ∀ w, Rel w w.
Hypothesis Rel_trans : ∀ w1 w2 w3, Rel w1 w2 → Rel w2 w3 → Rel w1 w3.
Hypothesis Rel_perform :
  ∀ (R : Type) (c : call R) (w : world), P (AnyCall c) → Rel w (perform c w).2.

Lemma exec_respects {A : Type} (m : prog A) (w : world) :
  callsIn P m → Rel w (exec m w).2.
Proof.
  intros Hm. revert w.
  induction Hm as [a|e|R c k Hc Hk IH]; intros w; simpl; try apply Rel_refl.
  specialize (Rel_perform R c w Hc).
  destruct (perform c w) as [r w']. simpl in *.
  eapply Rel_trans; [done|apply IH].
Qed.

Lemma advance_respects {A : Type} (m : prog A) (w : world) :
  callsIn P m → Rel w (advance m w).2 ∧ callsIn P (advance m w).1.
Proof.
  intros Hm. destruct Hm as [a|e|R c k Hc Hk]; simpl;
    try (split; [apply Rel_refl|constructor]).
  specialize (Rel_perform R c w Hc).
  destruct (perform c w) as [r w']. simpl in *. split; [done|apply Hk].
Qed.

Lemma interleave_respects {A B : Type} (schedule : list bool)
    (m1 : prog A) (m2 : prog B) (w : world) :
  callsIn P m1 → callsIn P m2 → Rel w (interleave schedule m1 m2 w).2.
Proof.
  revert m1 m2 w.
  induction schedule as [|[] rest IH]; intros m1 m2 w H1 H2; simpl; [apply Rel_refl| |].
  - destruct (advance_respects m1 w H1) as [Hr Hc].
    destruct (advance m1 w) as [m1' w']. simpl in *.
    eapply Rel_trans; [done|by apply IH].
  - destruct (advance_respects m2 w H2) as [Hr Hc].
    destruct (advance m2 w) as [m2' w']. simpl in *.
    eapply Rel_trans; [done|by apply IH].
Qed.
End Respect.

(** An invocation that has run to its end. *)
Definition finished {A : Type} (r : outcome A) : prog A :=
  match r with
  | Returned a => Ret a
  | Thrown e => Throw e
  end.

(** Turns enough for all calls of the first invocation: it runs to its end
    as it would alone. *)
Lemma interleave_first_to_end {A B : Type} (m1 : prog A) (m2 : prog B) (w : world)
    (schedule : list bool) :
  interleave (replicate (length (trace m1 w)) true ++ schedule) m1 m2 w =
  interleave schedule (finished (exec m1 w).1) m2 (exec m1 w).2.
Proof.
  revert w. induction m1 as [a|e|R c k IH]; intros w; try done.
  cbn [trace exec]. destruct (perform c w) as [r w'] eqn:E.
  cbn [length replicate app interleave advance]. rewrite E. apply IH.
Qed.

Lemma interleave_second_to_end {A B : Type} (m1 : prog A) (m2 : prog B) (w : world)
    (schedule : list bool) :
  interleave (replicate (length (trace m2 w)) false ++ schedule) m1 m2 w =
  interleave schedule m1 (finished (exec m2 w).1) (exec m2 w).2.
Proof.
  revert w. induction m2 as [a|e|R c k IH]; intros w; try done.
  cbn [trace exec]. destruct (perform c w) as [r w'] eqn:E.
  cbn [length replicate app interleave advance]. rewrite E. apply IH.
Qed.

(** ** Lists and paths *)

Lemma app_cons_assoc {X : Type} (l : list X) (x : X) (r : list X) :
  l ++ x :: r = (l ++ [x]) ++ r.
Proof. by rewrite <- app_assoc. Qed.


Lemma dirname_prefix (p : Path.t) : Path.dirname p `prefix_of` p.
Proof.
  unfold Path.dirname. induction p as [|x p _] using rev_ind; [done|].
  rewrite removelast_last. by apply prefix_app_r.
Qed.

Lemma strict_prefix_dirname (p q : Path.t) : p `prefix_of` q → p ≠ q → p `prefix_of` Path.dirname q.
Proof.
  intros [k ->] Hne. unfold Path.dirname.
  destruct k as [|x k] using rev_ind; [by rewrite app_nil_r in Hne|].
  rewrite app_assoc, removelast_last. by apply prefix_app_r.
Qed.

Lemma prefix_incomparable (ws t p : Path.t) :
  ws `prefix_of` t → ¬ ws `prefix_of` p → ¬ p `prefix_of` ws →
  ¬ t `prefix_of` p ∧ ¬ p `prefix_of` t.
Proof.
  intros Hws Hout Hup. split.
  - intros Ht. apply Hout. by etrans.
  - intros Hp. destruct (prefix_weak_total ws p t Hws Hp); done.
Qed.

(** A segment that [path.normalize] keeps as it is. *)
Definition plain (seg : string) : Prop := seg ≠ "" ∧ seg ≠ "." ∧ seg ≠ "..".

Global Instance plain_dec (seg : string) : Decision (plain seg).
Proof. unfold plain. apply _. Defined.

Lemma step_plain (acc : Path.t) (seg : string) : plain seg → Path.step acc seg = acc ++ [seg].
Proof. intros (H1 & H2 & H3). unfold Path.step. by rewrite !decide_False. Qed.

Lemma resolve_plain (base : Path.t) (segs : list string) :
  Forall plain segs → Path.resolve base segs = base ++ segs.
Proof.
  unfold Path.resolve. intros H. revert base.
  induction H as [|seg segs Hseg _ IH]; intros base; simpl; [by rewrite app_nil_r|].
  rewrite step_plain by done. rewrite IH. by rewrite <- app_assoc.
Qed.

(** Without a [..] segment the walk never leaves its starting point. *)
Lemma resolve_stays_below (base : Path.t) (segs : list string) :
  ".." ∉ segs → base `prefix_of` Path.resolve base segs.
Proof.
  unfold Path.resolve. revert base.
  induction segs as [|seg segs IH]; intros base Hno; simpl; [done|].
  apply not_elem_of_cons in Hno as [Hne Hno].
  etrans; [|apply IH; done].
  unfold Path.step. repeat case_decide; try done. by apply prefix_app_r.
Qed.

(** Whether a name holds a separator. *)
Fixpoint hasSlash (s : string) : bool :=
  match s with
  | EmptyString => false
  | String c rest => Ascii.eqb c "/"%char || hasSlash rest
  end.

Lemma split_no_slash (s : string) : hasSlash s = false → Path.split s = [s].
Proof.
  induction s as [|c rest IH]; simpl; [done|].
  destruct (Ascii.eqb c "/"); simpl; [done|]. intros H. by rewrite IH.
Qed.

Lemma hasSlash_dashed (s : string) : hasSlash (dashed s) = hasSlash s.
Proof.
  induction s as [|c rest IH]; simpl; [done|]. rewrite IH. f_equal.
  destruct (Ascii.eqb c ":") eqn:E1; simpl.
  - apply Ascii.eqb_eq in E1 as ->. done.
  - destruct (Ascii.eqb c ".") eqn:E2; simpl; [|done].
    apply Ascii.eqb_eq in E2 as ->. done.
Qed.

Lemma hasSlash_append (a b : string) : hasSlash (a +:+ b) = hasSlash a || hasSlash b.
Proof.
  induction a as [|c a IH]; [reflexivity|].
  change (String c a +:+ b) with (String c (a +:+ b)). simpl.
  rewrite IH. apply orb_assoc.
Qed.

Lemma backupDirOf_eq (ws : Path.t) : backupDirOf ws = ws ++ [".ai-config-backups"].
Proof.
  unfold backupDirOf, Path.join. by rewrite resolve_plain by (repeat constructor; done).
Qed.

(** With a separator-free time stamp the backup lands in a directory of its
    own right below [.ai-config-backups]. *)
Lemma backupPathOf_below (ws : Path.t) (now : string) :
  hasSlash now = false →
  backupPathOf ws now = ws ++ [".ai-config-backups"; "backup-" +:+ dashed now].
Proof.
  intros H. unfold backupPathOf, backupDirOf, Path.join.
  assert (Path.split ("backup-" +:+ dashed now) = ["backup-" +:+ dashed now]) as ->.
  { apply split_no_slash. by rewrite hasSlash_append, hasSlash_dashed, H. }
  rewrite resolve_plain.
  - change (Path.split ".ai-config-backups") with [".ai-config-backups"].
    rewrite resolve_plain; [by rewrite <- app_assoc|].
    repeat constructor; done.
  - repeat constructor; done.
Qed.

Lemma backupPathOf_in_backupDir (ws : Path.t) (now : string) :
  hasSlash now = false → backupDirOf ws `prefix_of` backupPathOf ws now.
Proof.
  intros Hnow. rewrite backupPathOf_below, backupDirOf_eq by done.
  exists ["backup-" +:+ dashed now]. by rewrite <- app_assoc.
Qed.

(** ** The catalogue *)

(** All catalogued patterns, tool by tool. *)
Definition allPatterns : list string := CONFIG_MAPPINGS ≫= snd.

Lemma pattern_in_catalogue (tool : AIToolType) (patterns : list string) (f : string) :
  (tool, patterns) ∈ CONFIG_MAPPINGS → f ∈ patterns → f ∈ allPatterns.
Proof. intros H1 H2. unfold allPatterns. apply list_elem_of_bind. by exists (tool, patterns). Qed.

Lemma join_pattern (base : Path.t) (f : string) :
  f ∈ allPatterns → Path.join base f = base ++ Path.split f ∧ Path.split f ≠ [].
Proof.
  revert f. apply Forall_forall. unfold allPatterns.
  repeat (first [apply Forall_nil_2 | apply Forall_cons_2]);
    (split; [|discriminate]); unfold Path.join; apply resolve_plain;
    apply (bool_decide_unpack _); vm_compute; reflexivity.
Qed.

Lemma join_pattern_prefix (base : Path.t) (f : string) (p : Path.t) :
  f ∈ allPatterns → Path.join base f `prefix_of` p → base `prefix_of` p.
Proof.
  intros Hf. destruct (join_pattern base f Hf) as [-> _].
  intros H. etrans; [|exact H]. by apply prefix_app_r.
Qed.

Lemma join_nonempty (base : Path.t) (f : string) : f ∈ allPatterns → Path.join base f ≠ [].
Proof.
  intros Hf. destruct (join_pattern base f Hf) as [-> Hne]. by intros [_ ?]%app_eq_nil.
Qed.

Definition nestedPattern : string := ".github/copilot-instructions.md".

Lemma pattern_top_level (f : string) (base : Path.t) :
  f ∈ allPatterns → f ≠ nestedPattern → Path.join base f = base ++ [f].
Proof.
  intros Hf Hne. destruct (join_pattern base f Hf) as [-> _]. f_equal.
  assert (Forall (λ f, f = nestedPattern ∨ Path.split f = [f]) allPatterns) as Hall
      by (apply (bool_decide_unpack _); by vm_compute).
  rewrite Forall_forall in Hall. by destruct (Hall f Hf).
Qed.

Lemma pattern_not_backups (f : string) :
  f ∈ allPatterns → ∃ x rest, Path.split f = x :: rest ∧ x ≠ ".ai-config-backups".
Proof.
  revert f. apply Forall_forall. unfold allPatterns.
  repeat (first [apply Forall_nil_2 | apply Forall_cons_2]);
    (eexists _, _; split; [by vm_compute|discriminate]).
Qed.

Lemma pattern_split_inj (f g : string) :
  f ∈ allPatterns → g ∈ allPatterns → Path.split f = Path.split g → f = g.
Proof.
  assert (Forall (λ f, Forall (λ g, Path.split f = Path.split g → f = g) allPatterns)
                 allPatterns) as Hall
      by (apply (bool_decide_unpack _); by vm_compute).
  intros Hf Hg. rewrite Forall_forall in Hall. specialize (Hall f Hf).
  rewrite Forall_forall in Hall. by apply Hall.
Qed.

Lemma source_outside_backup (ws : Path.t) (now f : string) (q : Path.t) :
  hasSlash now = false → f ∈ allPatterns →
  q `prefix_of` backupPathOf ws now ∨ backupPathOf ws now `prefix_of` q →
  Path.join ws f ≠ q ∧ ¬ Path.join ws f `prefix_of` q.
Proof.
  intros Hnow Hf Hq.
  destruct (join_pattern ws f Hf) as [-> _].
  destruct (pattern_not_backups f Hf) as (x & rest & -> & Hx).
  assert (¬ ws ++ x :: rest `prefix_of` q) as Hno; [|split; [by intros <-|done]].
  intros Hpre. rewrite backupPathOf_below in Hq by done.
  assert (ws ++ x :: rest `prefix_of` ws ++ [".ai-config-backups"; "backup-" +:+ dashed now]
          ∨ ws ++ [".ai-config-backups"; "backup-" +:+ dashed now] `prefix_of` ws ++ x :: rest)
    as [H|H].
  { destruct Hq as [Hq|Hq]; [left; by etrans|].
    destruct (prefix_weak_total _ _ _ Hpre Hq); auto. }
  - apply prefix_app_inv, prefix_cons_inv_1 in H. done.
  - apply prefix_app_inv, prefix_cons_inv_1 in H. done.
Qed.

Lemma dest_below_backup (bp : Path.t) (f : string) (q : Path.t) :
  f ∈ allPatterns → q `prefix_of` bp → Path.join bp f ≠ q ∧ ¬ Path.join bp f `prefix_of` q.
Proof.
  intros Hf Hq. destruct (join_pattern bp f Hf) as [-> Hne].
  assert (¬ bp ++ Path.split f `prefix_of` q) as Hno; [|split; [by intros <-|done]].
  intros Hpre. apply prefix_length in Hq, Hpre. rewrite length_app in Hpre.
  destruct (Path.split f); [done|]. simpl in Hpre. lia.
Qed.

Lemma pattern_not_in_backup (ws : Path.t) (now f g : string) (t : Path.t) :
  hasSlash now = false → f ∈ allPatterns → g ∈ allPatterns →
  Path.join ws f `prefix_of` t →
  ¬ (Path.join (backupPathOf ws now) g `prefix_of` t ∨
     t `prefix_of` Path.join (backupPathOf ws now) g).
Proof.
  intros Hnow Hf Hg Hft Hcases.
  destruct (join_pattern (backupPathOf ws now) g Hg) as [Hj _].
  assert (backupPathOf ws now `prefix_of` Path.join (backupPathOf ws now) g) as Hbp
      by (rewrite Hj; by apply prefix_app_r).
  destruct Hcases as [Hgt|Htg].
  - destruct (prefix_weak_total _ _ _ Hft (transitivity Hbp Hgt)) as [H|H].
    + destruct (source_outside_backup ws now f (backupPathOf ws now)) as [_ Hno]; auto.
    + destruct (source_outside_backup ws now f (Path.join ws f)) as [Hno _]; auto.
  - destruct (source_outside_backup ws now f (Path.join (backupPathOf ws now) g))
      as [_ Hno]; auto.
    apply Hno. by etrans.
Qed.

(** [CONFIG_MAPPINGS[tool]] *)
Definition footprintOf (tool : AIToolType) : list string :=
  default [] (snd <$> find (λ entry, bool_decide (entry.1 = tool)) CONFIG_MAPPINGS).

Lemma CONFIG_MAPPINGS_footprintOf (tool : AIToolType) (patterns : list string) :
  (tool, patterns) ∈ CONFIG_MAPPINGS ↔ patterns = footprintOf tool.
Proof.
  split.
  - unfold CONFIG_MAPPINGS. rewrite !elem_of_cons, elem_of_nil.
    intros H. repeat (destruct H as [H|H]); try done; by inversion H.
  - intros ->. unfold CONFIG_MAPPINGS.
    destruct tool; cbv [footprintOf CONFIG_MAPPINGS find]; simpl;
      rewrite !elem_of_cons; tauto.
Qed.

Definition reservedPaths (ws : Path.t) : list Path.t :=
  [Path.join ws ".rules"; Path.join ws ".aiignore"; Path.join ws "memory_bank"].

Lemma reservedPaths_below (ws t : Path.t) : t ∈ reservedPaths ws → ws `prefix_of` t.
Proof.
  unfold reservedPaths. rewrite !elem_of_cons, elem_of_nil.
  intros [->|[->|[->|[]]]]; unfold Path.join;
    rewrite resolve_plain by (repeat constructor; done); by apply prefix_app_r.
Qed.

(** ** The file system *)

Lemma stat_lookup (fs : FS.t) (q : Path.t) : q ≠ [] → FS.stat fs q = fs !! q.
Proof. by destruct q. Qed.

Lemma lookup_remove (fs : FS.t) (p q : Path.t) :
  FS.remove fs p !! q = if decide (p `prefix_of` q) then None else fs !! q.
Proof.
  unfold FS.remove. case_decide as Hp.
  - apply map_lookup_filter_None. right. intros n _ Hn. by apply Hn.
  - destruct (fs !! q) as [n|] eqn:E.
    + by apply map_lookup_filter_Some.
    + apply map_lookup_filter_None. by left.
Qed.

Lemma mkdirs_keeps (made todo : Path.t) (fs : FS.t) (q : Path.t) (n : node) :
  fs !! q = Some n → (FS.mkdirs made todo fs).2 !! q = Some n.
Proof.
  revert made fs. induction todo as [|seg rest IH]; intros made fs Hq; simpl; [done|].
  destruct (fs !! (made ++ [seg])) as [[|d]|] eqn:E; simpl; try done.
  - apply IH. destruct (decide (made ++ [seg] = q)) as [Heq|Hne].
    + subst q. rewrite lookup_insert_eq. congruence.
    + by rewrite lookup_insert_ne.
  - apply IH. destruct (decide (made ++ [seg] = q)) as [Heq|Hne].
    + subst q. congruence.
    + by rewrite lookup_insert_ne.
Qed.

Lemma mkdirs_no_create (made todo : Path.t) (fs : FS.t) (q : Path.t) :
  ¬ q `prefix_of` made ++ todo → fs !! q = None → (FS.mkdirs made todo fs).2 !! q = None.
Proof.
  revert made fs. induction todo as [|seg rest IH]; intros made fs Hpre Hq; simpl; [done|].
  rewrite app_cons_assoc in Hpre.
  assert (made ++ [seg] ≠ q) as Hne.
  { intros <-. apply Hpre. by apply prefix_app_r. }
  destruct (fs !! (made ++ [seg])) as [[|d]|] eqn:E; simpl; try done.
  - apply IH; [done|by rewrite lookup_insert_ne].
  - apply IH; [done|by rewrite lookup_insert_ne].
Qed.

Lemma mkdirs_other (made todo : Path.t) (fs : FS.t) (q : Path.t) :
  ¬ q `prefix_of` made ++ todo → (FS.mkdirs made todo fs).2 !! q = fs !! q.
Proof.
  intros Hq. destruct (fs !! q) as [n|] eqn:E.
  - by apply mkdirs_keeps.
  - by apply mkdirs_no_create.
Qed.

(** When [fs.ensureDir] returns, the directory is there. *)
Lemma mkdirs_made (made todo : Path.t) (fs : FS.t) :
  (FS.mkdirs made todo fs).1 = Returned () → todo ≠ [] →
  (FS.mkdirs made todo fs).2 !! (made ++ todo) = Some Dir.
Proof.
  revert made fs. induction todo as [|seg rest IH]; intros made fs Hok Hne; [done|].
  simpl in *. rewrite app_cons_assoc.
  destruct (fs !! (made ++ [seg])) as [[|d]|] eqn:E; simpl in *; try done.
  - destruct rest as [|seg' rest']; [simpl; by rewrite app_nil_r, lookup_insert_eq|].
    by apply IH.
  - destruct rest as [|seg' rest']; [simpl; by rewrite app_nil_r, lookup_insert_eq|].
    by apply IH.
Qed.

Lemma ensureDir_made (fs : FS.t) (p : Path.t) :
  (FS.ensureDir fs p).1 = Returned () → FS.stat (FS.ensureDir fs p).2 p = Some Dir.
Proof.
  intros Hok. destruct p as [|seg rest]; [done|].
  unfold FS.stat. by apply (mkdirs_made [] (seg :: rest)).
Qed.

Lemma mkdirs_ok (made todo : Path.t) (fs : FS.t) :
  (∀ q d, q `prefix_of` made ++ todo → fs !! q ≠ Some (File d)) →
  (FS.mkdirs made todo fs).1 = Returned ().
Proof.
  revert made fs. induction todo as [|seg rest IH]; intros made fs Hfree; [done|].
  cbn [FS.mkdirs]. rewrite app_cons_assoc in Hfree.
  assert (∀ d, fs !! (made ++ [seg]) ≠ Some (File d)) as Hseg.
  { intros d. apply Hfree. by apply prefix_app_r. }
  assert ((FS.mkdirs (made ++ [seg]) rest (<[made ++ [seg] := Dir]> fs)).1 = Returned ())
    as Hrec.
  { apply IH. intros q d Hq. destruct (decide (made ++ [seg] = q)) as [<-|Hne].
    - by rewrite lookup_insert_eq.
    - rewrite lookup_insert_ne by done. by apply Hfree. }
  destruct (fs !! (made ++ [seg])) as [[|d]|]; [done|by destruct (Hseg d)|done].
Qed.

Lemma mkdirs_makes_dirs (made todo : Path.t) (fs : FS.t) (q : Path.t) (d : fileData) :
  (FS.mkdirs made todo fs).2 !! q = Some (File d) → fs !! q = Some (File d).
Proof.
  revert made fs. induction todo as [|seg rest IH]; intros made fs; [done|].
  cbn [FS.mkdirs].
  destruct (fs !! (made ++ [seg])) as [[|d']|] eqn:E; [|done|];
    intros H%IH; (destruct (decide (made ++ [seg] = q)) as [<-|Hne];
      [by rewrite lookup_insert_eq in H|by rewrite lookup_insert_ne in H]).
Qed.



Lemma writeFile_other (fs : FS.t) (p : Path.t) (slash : bool) (d : fileData) (q : Path.t) :
  p ≠ q → (FS.writeFile fs p slash d).2 !! q = fs !! q.
Proof.
  intros Hne. unfold FS.writeFile.
  destruct slash; [done|].
  destruct (FS.stat fs p) as [[|?]|]; try done;
    destruct (FS.stat fs (Path.dirname p)) as [[|?]|]; simpl; try done;
    by rewrite lookup_insert_ne.
Qed.

Lemma writeFile_written (fs : FS.t) (p : Path.t) (slash : bool) (d : fileData) :
  (FS.writeFile fs p slash d).1 = Returned () →
  (FS.writeFile fs p slash d).2 !! p = Some (File d).
Proof.
  unfold FS.writeFile. destruct slash; [done|].
  destruct (FS.stat fs p) as [[|?]|]; try done;
    destruct (FS.stat fs (Path.dirname p)) as [[|?]|]; simpl; try done;
    intros _; by rewrite lookup_insert_eq.
Qed.

Lemma copyEntries_outside (dest : Path.t) (entries : list (Path.t * node)) (fs : FS.t)
    (q : Path.t) :
  ¬ dest `prefix_of` q → (FS.copyEntries dest entries fs).2 !! q = fs !! q.
Proof.
  intros Hq. revert fs. induction entries as [|[rel n] rest IH]; intros fs; simpl; [done|].
  destruct (FS.kindConflict _ _); [done|].
  rewrite IH. apply lookup_insert_ne. intros <-. apply Hq. by apply prefix_app_r.
Qed.

Lemma copy_keeps (fs : FS.t) (src dest q : Path.t) (n : node) :
  ¬ dest `prefix_of` q → fs !! q = Some n → (FS.copy fs src dest).2 !! q = Some n.
Proof.
  intros Hq Hn. unfold FS.copy.
  destruct (FS.stat fs src) as [s|]; [|done].
  destruct (decide (src = dest)); [done|].
  destruct (FS.kindConflict s (FS.stat fs dest)); [done|].
  destruct (FS.isDir s && bool_decide (src `prefix_of` dest)); [done|].
  assert (∀ (x : node) (fs1 : FS.t), fs1 !! q = Some n → <[dest := x]> fs1 !! q = Some n)
    as Hins.
  { intros x fs1 H1. rewrite lookup_insert_ne; [done|]. by intros <-. }
  assert (∀ fs1 : FS.t, fs1 !! q = Some n →
            match FS.stat fs1 (Path.dirname dest), s with
            | Some Dir, File d => (Returned (), <[dest := File d]> fs1)
            | Some Dir, Dir =>
                FS.copyEntries dest (FS.below fs src) (<[dest := Dir]> fs1)
            | _, _ => (Thrown "ENOTDIR: not a directory", fs1)
            end.2 !! q = Some n) as Hcopy.
  { intros fs1 H1. destruct (FS.stat fs1 (Path.dirname dest)) as [[|?]|]; try done.
    destruct s as [|d]; cbn [snd]; [|by apply Hins].
    rewrite copyEntries_outside by done. by apply Hins. }
  destruct (FS.pathExists fs (Path.dirname dest)); [by apply Hcopy|].
  pose proof (mkdirs_keeps [] (Path.dirname dest) fs q n Hn) as Hk.
  unfold FS.ensureDir. destruct (FS.mkdirs [] (Path.dirname dest) fs) as [[[]|e] fs1];
    cbn [snd] in *; [by apply Hcopy|done].
Qed.

Lemma copy_no_create (fs : FS.t) (src dest q : Path.t) :
  ¬ dest `prefix_of` q → ¬ q `prefix_of` dest → fs !! q = None →
  (FS.copy fs src dest).2 !! q = None.
Proof.
  intros Hq Hq' Hn. unfold FS.copy.
  destruct (FS.stat fs src) as [s|]; [|done].
  destruct (decide (src = dest)); [done|].
  destruct (FS.kindConflict s (FS.stat fs dest)); [done|].
  destruct (FS.isDir s && bool_decide (src `prefix_of` dest)); [done|].
  assert (∀ (x : node) (fs1 : FS.t), fs1 !! q = None → <[dest := x]> fs1 !! q = None) as Hins.
  { intros x fs1 H1. rewrite lookup_insert_ne; [done|]. by intros <-. }
  assert (∀ fs1 : FS.t, fs1 !! q = None →
            match FS.stat fs1 (Path.dirname dest), s with
            | Some Dir, File d => (Returned (), <[dest := File d]> fs1)
            | Some Dir, Dir =>
                FS.copyEntries dest (FS.below fs src) (<[dest := Dir]> fs1)
            | _, _ => (Thrown "ENOTDIR: not a directory", fs1)
            end.2 !! q = None) as Hcopy.
  { intros fs1 H1. destruct (FS.stat fs1 (Path.dirname dest)) as [[|?]|]; try done.
    destruct s as [|d]; cbn [snd]; [|by apply Hins].
    rewrite copyEntries_outside by done. by apply Hins. }
  destruct (FS.pathExists fs (Path.dirname dest)); [by apply Hcopy|].
  assert (¬ q `prefix_of` [] ++ Path.dirname dest) as Hd.
  { simpl. intros H. apply Hq'. etrans; [done|apply dirname_prefix]. }
  pose proof (mkdirs_no_create [] (Path.dirname dest) fs q Hd Hn) as Hk.
  unfold FS.ensureDir. destruct (FS.mkdirs [] (Path.dirname dest) fs) as [[[]|e] fs1];
    cbn [snd] in *; [by apply Hcopy|done].
Qed.

(** ** What a call can touch *)

(** The paths at which a call can change or delete what exists, and the
    paths at which it can create something. *)
Definition modifies (c : anyCall) (p : Path.t) : Prop :=
  match c with
  | AnyCall (Remove q) => q `prefix_of` p
  | AnyCall (WriteFile q _ _) => q = p
  | AnyCall (WriteJSON q _ _) => q = p
  | AnyCall (Copy _ dest) => dest `prefix_of` p
  | _ => False
  end.

Definition creates (c : anyCall) (p : Path.t) : Prop :=
  match c with
  | AnyCall (EnsureDir q) => p `prefix_of` q
  | AnyCall (WriteFile q _ _) => q = p
  | AnyCall (WriteJSON q _ _) => q = p
  | AnyCall (Copy _ dest) => dest `prefix_of` p ∨ p `prefix_of` dest
  | _ => False
  end.

Lemma perform_keeps {R : Type} (c : call R) (w : world) (p : Path.t) (n : node) :
  ¬ modifies (AnyCall c) p → files w !! p = Some n → files (perform c w).2 !! p = Some n.
Proof.
  destruct c; simpl; intros Hm Hn; try done.
  - by destruct (profilesDoc w).
  - by destruct (profilesWritable w).
  - by apply mkdirs_keeps.
  - rewrite lookup_remove. by rewrite decide_False.
  - by rewrite writeFile_other.
  - by rewrite writeFile_other.
  - by apply copy_keeps.
Qed.

Lemma perform_no_create {R : Type} (c : call R) (w : world) (p : Path.t) :
  ¬ creates (AnyCall c) p → files w !! p = None → files (perform c w).2 !! p = None.
Proof.
  destruct c; simpl; intros Hm Hn; try done.
  - by destruct (profilesDoc w).
  - by destruct (profilesWritable w).
  - by apply mkdirs_no_create.
  - rewrite lookup_remove. by case_decide.
  - by rewrite writeFile_other.
  - by rewrite writeFile_other.
  - apply copy_no_create; tauto.
Qed.

(** Lifting to runs. *)
Lemma exec_keeps {A : Type} (m : prog A) (w : world) (p : Path.t) (n : node) :
  callsIn (λ c, ¬ modifies c p) m → files w !! p = Some n → files (exec m w).2 !! p = Some n.
Proof.
  intros Hm.
  apply (exec_respects (λ c, ¬ modifies c p)
           (λ w w', files w !! p = Some n → files w' !! p = Some n)); try done.
  - intros w1 w2 w3 H12 H23 H. auto.
  - intros R c w1 Hc. by apply perform_keeps.
Qed.

Lemma exec_no_create {A : Type} (m : prog A) (w : world) (p : Path.t) :
  callsIn (λ c, ¬ creates c p) m → files w !! p = None → files (exec m w).2 !! p = None.
Proof.
  intros Hm.
  apply (exec_respects (λ c, ¬ creates c p)
           (λ w w', files w !! p = None → files w' !! p = None)); try done.
  - intros w1 w2 w3 H12 H23 H. auto.
  - intros R c w1 Hc. by apply perform_no_create.
Qed.

Lemma exec_unchanged {A : Type} (m : prog A) (w : world) (p : Path.t) :
  callsIn (λ c, ¬ modifies c p ∧ ¬ creates c p) m → files (exec m w).2 !! p = files w !! p.
Proof.
  intros Hm.
  apply (exec_respects (λ c, ¬ modifies c p ∧ ¬ creates c p)
           (λ w w', files w' !! p = files w !! p)); try done.
  - intros w1 w2 w3 H12 H23. congruence.
  - intros R c w1 [Hc1 Hc2]. destruct (files w1 !! p) as [n|] eqn:E.
    + by apply perform_keeps.
    + by apply perform_no_create.
Qed.

(** ** Well-formed file systems *)

(** A file system is a tree: what exists lies in a directory. *)
Definition wellFormed (fs : FS.t) : Prop :=
  ∀ q x, is_Some (fs !! (q ++ [x])) → FS.stat fs q = Some Dir.

(** Checking the premises on a given file system. *)
Definition dirAt (fs : FS.t) (q : Path.t) : bool :=
  match FS.stat fs q with Some Dir => true | _ => false end.

Lemma wellFormed_check (fs : FS.t) :
  map_Forall (λ k _, k = [] ∨ dirAt fs (removelast k) = true) fs → wellFormed fs.
Proof.
  intros Hall q x [n Hn]. destruct (Hall _ _ Hn) as [Hnil|Hdir]; [by destruct q|].
  rewrite removelast_last in Hdir. unfold dirAt in Hdir.
  by destruct (FS.stat fs q) as [[|?]|].
Qed.

Lemma wellFormed_ancestors (fs : FS.t) (p k : Path.t) :
  wellFormed fs → p ≠ [] → is_Some (fs !! (p ++ k)) → is_Some (fs !! p).
Proof.
  intros Hwf Hp. induction k as [|x k IH] using rev_ind; [by rewrite app_nil_r|].
  rewrite app_assoc. intros Hsome%Hwf. apply IH.
  assert (FS.stat fs (p ++ k) = fs !! (p ++ k)) as Hstat by (by destruct p).
  rewrite <- Hstat, Hsome. by eexists.
Qed.








(** ** The profile store *)

(** The mapping a document denotes for the loader. *)
Definition loaded (d : document) : gmap string AIProfile :=
  match d with
  | DocProfiles m => m
  | _ => ∅
  end.

Lemma exec_getProfiles (w : world) :
  exec getProfiles w = (Returned (loaded (profilesDoc w)), w).
Proof.
  unfold getProfiles. rewrite exec_tryCatch, exec_bind, exec_await. simpl.
  by destruct (profilesDoc w).
Qed.

Lemma trace_getProfiles (w : world) : trace getProfiles w = [AnyCall ReadProfilesJSON].
Proof. unfold getProfiles. cbn. by destruct (profilesDoc w). Qed.


(** The record that [createProfile] stores. *)
Definition freshProfile (n d : string) (tool : AIToolType) : AIProfile :=
  {| name := n;
     description := if decide (d = "") then toolName tool +:+ " configuration" else d;
     configs := []; ignorePatterns := ""; rules := ""; memoryBank := "";
     aiTool := tool |}.

Lemma getProperty_own (profiles : gmap string AIProfile) (key : string)
    (profile : AIProfile) :
  profiles !! key = Some profile → getProperty profiles key = Own profile.
Proof. intros H. unfold getProperty. by rewrite H. Qed.

Lemma getProperty_Own (profiles : gmap string AIProfile) (key : string)
    (profile : AIProfile) :
  getProperty profiles key = Own profile → profiles !! key = Some profile.
Proof.
  unfold getProperty. destruct (profiles !! key); [congruence|].
  by destruct (bool_decide (key ∈ inheritedNames)).
Qed.


Lemma getProperty_Inherited (profiles : gmap string AIProfile) (key : string) :
  getProperty profiles key = Inherited ↔ profiles !! key = None ∧ key ∈ inheritedNames.
Proof.
  unfold getProperty. destruct (profiles !! key) as [profile|].
  - split; [done|]. by intros [? _].
  - destruct (bool_decide_reflect (key ∈ inheritedNames)); split; try done.
    by intros [_ ?].
Qed.

Lemma setProperty_insert (profiles : gmap string AIProfile) (key : string)
    (profile : AIProfile) :
  key ≠ "__proto__" ∨ is_Some (profiles !! key) →
  setProperty profiles key profile = <[key := profile]> profiles.
Proof.
  intros H. unfold setProperty. rewrite bool_decide_eq_false_2; [done|].
  intros [-> Hnone]. destruct H as [?|[? ?]]; [done|congruence].
Qed.

Lemma setProperty_proto (profiles : gmap string AIProfile) (profile : AIProfile) :
  profiles !! "__proto__" = None → setProperty profiles "__proto__" profile = profiles.
Proof. intros H. unfold setProperty. by rewrite bool_decide_eq_true_2. Qed.



Lemma exec_saveProfile (n : string) (p : AIProfile) (w : world) :
  exec (saveProfile n p) w =
  if profilesWritable w
  then (Returned (),
        {| files := files w;
           profilesDoc := DocProfiles (setProperty (loaded (profilesDoc w)) n p);
           profilesWritable := true; shown := shown w; logged := logged w |})
  else (Thrown "Failed to save profile: EACCES: permission denied", w).
Proof.
  unfold saveProfile. rewrite exec_tryCatch, exec_bind, exec_getProfiles.
  cbn [continue]. rewrite exec_await. simpl. by destruct (profilesWritable w).
Qed.

(** ** The store document as JSON *)

Lemma json_nested_ind (P : json → Prop) :
  P JNull → (∀ b, P (JBool b)) → (∀ literal, P (JNumber literal)) → (∀ s, P (JString s)) →
  (∀ items, Forall P items → P (JArray items)) →
  (∀ members, Forall (λ member, P member.2) members → P (JObject members)) →
  ∀ value, P value.
Proof.
  intros Hnull Hbool Hnumber Hstring Harray Hobject.
  fix IH 1. intros [|b|literal|s|items|members].
  - apply Hnull.
  - apply Hbool.
  - apply Hnumber.
  - apply Hstring.
  - apply Harray.
    induction items as [|item items IHitems]; constructor; [apply IH|apply IHitems].
  - apply Hobject.
    induction members as [|[key item] members IHmembers]; constructor;
      [apply IH|apply IHmembers].
Qed.

(** A value whose numbers are exact is read back as it was written. *)
Lemma restored_exact (value : json) : JSON.exact value = true → JSON.restored value = value.
Proof.
  induction value as [|b|literal|s|items IH|members IH] using json_nested_ind;
    cbn [JSON.exact JSON.restored]; try done.
  - intros [[_ H1]%andb_true_iff H2]%andb_true_iff.
    apply negb_true_iff in H1, H2. by rewrite H1, H2.
  - intros Hall. f_equal. induction IH as [|item items Hitem _ IHitems]; [done|].
    cbn in Hall. apply andb_true_iff in Hall as [H1 H2].
    cbn. by rewrite Hitem, IHitems.
  - intros Hall. f_equal. induction IH as [|[key item] members Hitem _ IHmembers]; [done|].
    cbn in Hall. apply andb_true_iff in Hall as [H1 H2].
    cbn in *. by rewrite Hitem, IHmembers.
Qed.

(** The loader always returns, and leaves the store as it is. *)
Lemma raw_getProfiles (s : Raw.store) :
  Raw.getProfiles s
  = (Returned match Raw.doc s with
              | Raw.Holds content => if JSON.truthy content then content else JObject []
              | _ => JObject []
              end, s).
Proof. unfold Raw.getProfiles, Raw.readJSON. by destruct (Raw.doc s). Qed.

(** On a document of the profile store the two loaders agree: the raw one
    returns, as JSON, the mapping that [getProfiles] returns. *)
Lemma getProfiles_agree (w : world) (writable : bool) :
  (Raw.getProfiles {| Raw.doc := rawDocument (profilesDoc w); Raw.writable := writable |}).1
  = match (exec getProfiles w).1 with
    | Returned profiles => Returned (encodeProfiles (map_to_list profiles))
    | Thrown e => Thrown e
    end.
Proof.
  rewrite raw_getProfiles, exec_getProfiles. cbn [fst Raw.doc].
  destruct (profilesDoc w); cbn; by rewrite ?map_to_list_empty.
Qed.

(** Writing the profiles agrees as well, when their numbers are exact: then
    [fs.writeJSON] leaves the document that denotes the written mapping. *)
Lemma exact_encodeProfiles (m : gmap string AIProfile) :
  map_Forall (λ _, exactProfile) m → JSON.exact (encodeProfiles (map_to_list m)) = true.
Proof.
  intros Hall. apply map_Forall_to_list in Hall. unfold encodeProfiles. cbn [JSON.exact].
  induction Hall as [|[k profile] entries Hprofile _ IH]; [done|].
  rewrite fmap_cons. cbn [forallb fst snd]. rewrite IH, andb_true_r. exact Hprofile.
Qed.

Lemma writeJSON_agree (m : gmap string AIProfile) (s : Raw.store) :
  map_Forall (λ _, exactProfile) m →
  Raw.writable s = true →
  Raw.writeJSON (encodeProfiles (map_to_list m)) s
  = (Returned (), {| Raw.doc := rawDocument (DocProfiles m); Raw.writable := true |}).
Proof.
  intros Hall Hw. unfold Raw.writeJSON. rewrite Hw.
  by rewrite (restored_exact _ (exact_encodeProfiles m Hall)).
Qed.

Lemma trace_saveProfile (n : string) (p : AIProfile) (w : world) :
  trace (saveProfile n p) w
  = [AnyCall ReadProfilesJSON;
     AnyCall (WriteProfilesJSON (setProperty (loaded (profilesDoc w)) n p))].
Proof.
  unfold saveProfile.
  rewrite trace_tryCatch, trace_bind, trace_getProfiles, exec_getProfiles.
  rewrite exec_bind, exec_getProfiles. cbn [continue]. rewrite exec_await.
  cbn. by destruct (profilesWritable w).
Qed.

(** ** The detector *)

Definition present (fs : FS.t) (cwd : Path.t) (pattern : string) : bool :=
  FS.pathExists fs (Path.join cwd pattern).

(** The patterns of one footprint that get tested: up to the first match. *)
Fixpoint probed (fs : FS.t) (cwd : Path.t) (patterns : list string) : list string :=
  match patterns with
  | [] => []
  | pattern :: rest => pattern :: (if present fs cwd pattern then [] else probed fs cwd rest)
  end.

Lemma exec_detectPatterns (cwd : Path.t) (patterns : list string) (w : world) :
  exec (detectPatterns cwd patterns) w = (Returned (existsb (present (files w) cwd) patterns), w).
Proof.
  induction patterns as [|pattern rest IH]; cbn [detectPatterns existsb]; [done|].
  rewrite exec_bind, exec_tryCatch, exec_bind, exec_await. simpl.
  unfold present at 1. destruct (FS.pathExists _ _); simpl; [done|apply IH].
Qed.

Lemma trace_detectPatterns (cwd : Path.t) (patterns : list string) (w : world) :
  trace (detectPatterns cwd patterns) w =
  (λ pattern, AnyCall (Glob cwd pattern)) <$> probed (files w) cwd patterns.
Proof.
  induction patterns as [|pattern rest IH]; cbn [detectPatterns probed]; [done|].
  rewrite trace_bind, trace_tryCatch, trace_bind, exec_tryCatch, exec_bind, exec_await.
  simpl. unfold present at 1. destruct (FS.pathExists _ _); simpl; [done|].
  f_equal. apply IH.
Qed.

Definition matching (fs : FS.t) (cwd : Path.t) (entries : list (AIToolType * list string))
  : list AIToolType :=
  fst <$> filter (λ entry, existsb (present fs cwd) entry.2 = true) entries.

Lemma exec_detectTools (cwd : Path.t) (entries : list (AIToolType * list string))
    (acc : list AIToolType) (w : world) :
  exec (detectTools cwd entries acc) w = (Returned (acc ++ matching (files w) cwd entries), w).
Proof.
  revert acc. induction entries as [|[tool patterns] rest IH]; intros acc;
    cbn [detectTools].
  - unfold matching. simpl. by rewrite app_nil_r.
  - rewrite exec_bind, exec_detectPatterns. simpl. rewrite IH.
    unfold matching. rewrite filter_cons. simpl.
    destruct (existsb _ _); simpl; [|done].
    by rewrite <- app_assoc.
Qed.

Lemma trace_detectTools (cwd : Path.t) (entries : list (AIToolType * list string))
    (acc : list AIToolType) (w : world) :
  trace (detectTools cwd entries acc) w =
  entries ≫= (λ entry, (λ pattern, AnyCall (Glob cwd pattern)) <$> probed (files w) cwd entry.2).
Proof.
  revert acc. induction entries as [|[tool patterns] rest IH]; intros acc;
    cbn [detectTools]; [done|].
  rewrite trace_bind, exec_detectPatterns, trace_detectPatterns, IH. done.
Qed.

(** ** The calls of a switch *)

Definition dataOf (content : json) : fileData :=
  match content with
  | JString text => Text text
  | _ => Formatted content
  end.

(** What the writing step writes, in order: the declared files, then the
    reserved files of the non-empty text fields. *)
Definition configWrites (ws : Path.t) (entries : list (string * json))
  : list (Path.t * fileData) :=
  (λ entry, (Path.join ws entry.1, dataOf entry.2)) <$> entries.

Definition specializedWrites (ws : Path.t) (profile : AIProfile) : list (Path.t * fileData) :=
  (if decide (rules profile = "") then []
   else [(Path.join ws ".rules", Text (rules profile))]) ++
  (if decide (ignorePatterns profile = "") then []
   else [(Path.join ws ".aiignore", Text (ignorePatterns profile))]) ++
  (if decide (memoryBank profile = "") then []
   else [(Path.join ws "memory_bank", Text (memoryBank profile))]).

Definition writesOf (ws : Path.t) (profile : AIProfile) : list (Path.t * fileData) :=
  configWrites ws (configs profile) ++ specializedWrites ws profile.

Definition backupCalls (ws : Path.t) (now : string) (c : anyCall) : Prop :=
  match c with
  | AnyCall (PathExists _) => True
  | AnyCall (EnsureDir q) =>
      q = backupDirOf ws ∨
      ∃ f, f ∈ allPatterns ∧ q = Path.dirname (Path.join (backupPathOf ws now) f)
  | AnyCall (Copy src dest) =>
      ∃ f, f ∈ allPatterns ∧ src = Path.join ws f ∧ dest = Path.join (backupPathOf ws now) f
  | _ => False
  end.

Definition clearCalls (ws : Path.t) (c : anyCall) : Prop :=
  match c with
  | AnyCall (PathExists _) => True
  | AnyCall (Remove q) => ∃ f, f ∈ allPatterns ∧ q = Path.join ws f
  | _ => False
  end.

Definition writeCalls (writes : list (Path.t * fileData)) (c : anyCall) : Prop :=
  match c with
  | AnyCall (EnsureDir q) => ∃ t, t ∈ writes.*1 ∧ q = Path.dirname t
  | AnyCall (WriteFile t _ _) => t ∈ writes.*1
  | AnyCall (WriteJSON t _ _) => t ∈ writes.*1
  | _ => False
  end.

Definition noticeCalls (c : anyCall) : Prop :=
  match c with
  | AnyCall (ShowInformationMessage _) => True
  | _ => False
  end.

Definition switchCalls (ws : Path.t) (now : string) (profile : AIProfile) (c : anyCall) : Prop :=
  backupCalls ws now c ∨ clearCalls ws c ∨ writeCalls (writesOf ws profile) c ∨ noticeCalls c.

(** The calls that clear or write the workspace. *)
Definition destructive (c : anyCall) : Prop :=
  match c with
  | AnyCall (Remove _) => True
  | AnyCall (WriteFile _ _ _) => True
  | AnyCall (WriteJSON _ _ _) => True
  | _ => False
  end.

Lemma backupCurrentConfig_calls (ws : Path.t) (now : string) :
  callsIn (backupCalls ws now) (backupCurrentConfig (Some ws) now).
Proof.
  unfold backupCurrentConfig. apply callsIn_tryCatch; [|constructor].
  apply callsIn_bind; [apply callsIn_await; by left|]. intros _.
  apply callsIn_forEach. intros [tool patterns] Htool.
  apply callsIn_forEach. intros f Hf.
  pose proof (pattern_in_catalogue _ _ _ Htool Hf) as Hin.
  apply callsIn_bind; [by apply callsIn_await|]. intros [|]; [|constructor].
  apply callsIn_bind; [apply callsIn_await; right; by exists f|]. intros _.
  apply callsIn_await. by exists f.
Qed.

Lemma removeExisting_calls (ws : Path.t) : callsIn (clearCalls ws) (removeExisting ws).
Proof.
  unfold removeExisting.
  apply callsIn_forEach. intros [tool patterns] Htool.
  apply callsIn_forEach. intros f Hf.
  pose proof (pattern_in_catalogue _ _ _ Htool Hf) as Hin.
  apply callsIn_bind; [by apply callsIn_await|]. intros [|]; [|constructor].
  apply callsIn_await. by exists f.
Qed.

Lemma writeConfigs_calls (ws : Path.t) (entries : list (string * json)) :
  callsIn (writeCalls (configWrites ws entries)) (writeConfigs ws entries).
Proof.
  unfold writeConfigs.
  apply callsIn_forEach. intros [fileName content] Hin.
  assert (Path.join ws fileName ∈ (configWrites ws entries).*1) as Ht.
  { unfold configWrites. rewrite <- list_fmap_compose.
    apply list_elem_of_fmap. by exists (fileName, content). }
  apply callsIn_bind; [apply callsIn_await; by exists (Path.join ws fileName)|]. intros _.
  destruct content; by apply callsIn_await.
Qed.

Lemma specializedWrites_targets (ws : Path.t) (profile : AIProfile) (t : Path.t) :
  t ∈ (specializedWrites ws profile).*1 ↔
  (rules profile ≠ "" ∧ t = Path.join ws ".rules") ∨
  (ignorePatterns profile ≠ "" ∧ t = Path.join ws ".aiignore") ∨
  (memoryBank profile ≠ "" ∧ t = Path.join ws "memory_bank").
Proof.
  unfold specializedWrites. rewrite !fmap_app, !elem_of_app.
  repeat case_decide; cbn [fmap list_fmap fst];
    rewrite ?elem_of_nil, ?list_elem_of_singleton; tauto.
Qed.

Lemma writeSpecialized_calls (ws : Path.t) (profile : AIProfile) :
  callsIn (writeCalls (specializedWrites ws profile)) (writeSpecialized ws profile).
Proof.
  unfold writeSpecialized.
  apply callsIn_bind; [|intros _; apply callsIn_bind; [|intros _]];
    (case_decide; [constructor|]); apply callsIn_await;
    apply specializedWrites_targets; tauto.
Qed.

Lemma writeCalls_mono (ws1 ws2 : list (Path.t * fileData)) (c : anyCall) :
  (∀ t, t ∈ ws1.*1 → t ∈ ws2.*1) → writeCalls ws1 c → writeCalls ws2 c.
Proof.
  intros Hsub. destruct c as [R c]. destruct c; cbn; try done.
  - intros (t & Ht & ->). exists t. auto.
  - apply Hsub.
  - apply Hsub.
Qed.

Lemma writeCalls_app_l (ws1 ws2 : list (Path.t * fileData)) (c : anyCall) :
  writeCalls ws1 c → writeCalls (ws1 ++ ws2) c.
Proof.
  apply writeCalls_mono. intros t Ht. rewrite fmap_app, elem_of_app. by left.
Qed.

Lemma writeCalls_app_r (ws1 ws2 : list (Path.t * fileData)) (c : anyCall) :
  writeCalls ws2 c → writeCalls (ws1 ++ ws2) c.
Proof.
  apply writeCalls_mono. intros t Ht. rewrite fmap_app, elem_of_app. by right.
Qed.

Lemma switchSteps_calls (ws : Path.t) (config : settings) (now : string)
    (profileName : string) (profile : AIProfile) :
  callsIn (switchCalls ws now profile) (switchSteps ws config now profileName profile).
Proof.
  unfold switchSteps, backupStep, switchCalls.
  apply callsIn_bind.
  { destruct (backupBeforeSwitch config); [|constructor].
    eapply callsIn_mono; [|apply backupCurrentConfig_calls]. tauto. }
  intros _. apply callsIn_bind.
  { eapply callsIn_mono; [|apply removeExisting_calls]. tauto. }
  intros _. apply callsIn_bind.
  { eapply callsIn_mono; [|apply writeConfigs_calls].
    intros c Hc. right; right; left. by apply writeCalls_app_l. }
  intros _. apply callsIn_bind.
  { eapply callsIn_mono; [|apply writeSpecialized_calls].
    intros c Hc. right; right; left. by apply writeCalls_app_r. }
  intros _. destruct (showNotifications config); [|constructor].
  apply callsIn_await. cbn. tauto.
Qed.

(** For an inherited name the switch backs up and clears, and writes
    nothing. *)
Lemma switchStepsInherited_calls (ws : Path.t) (config : settings) (now : string) :
  callsIn (λ c, backupCalls ws now c ∨ clearCalls ws c) (switchStepsInherited ws config now).
Proof.
  unfold switchStepsInherited, backupStep. apply callsIn_bind.
  { destruct (backupBeforeSwitch config); [|constructor].
    eapply callsIn_mono; [|apply backupCurrentConfig_calls]. tauto. }
  intros _. apply callsIn_bind; [|intros _; constructor].
  eapply callsIn_mono; [|apply removeExisting_calls]. tauto.
Qed.

Lemma writesOf_targets (ws : Path.t) (profile : AIProfile) (t : Path.t) :
  t ∈ (writesOf ws profile).*1 →
  (∃ k, k ∈ (configs profile).*1 ∧ t = Path.join ws k) ∨ t ∈ reservedPaths ws.
Proof.
  unfold writesOf. rewrite fmap_app, elem_of_app. intros [Ht|Ht].
  - left. unfold configWrites in Ht. rewrite <- list_fmap_compose in Ht.
    apply list_elem_of_fmap in Ht as ([k c] & -> & Hin). exists k. split; [|done].
    apply list_elem_of_fmap. by exists (k, c).
  - right. apply specializedWrites_targets in Ht. unfold reservedPaths.
    rewrite !elem_of_cons. tauto.
Qed.

Lemma targets_below (ws : Path.t) (profile : AIProfile) (t : Path.t) :
  (∀ k, k ∈ (configs profile).*1 → ".." ∉ Path.split k) →
  t ∈ (writesOf ws profile).*1 → ws `prefix_of` t.
Proof.
  intros Hkeys [(k & Hk & ->)|Ht]%writesOf_targets.
  - apply resolve_stays_below. by apply Hkeys.
  - by apply reservedPaths_below.
Qed.

(** Every path a call of a switch acts on lies in the workspace, provided
    no declared file name has a [..] segment. *)
Lemma switchCalls_below (ws : Path.t) (now : string) (profile : AIProfile)
    (c : anyCall) (p : Path.t) :
  hasSlash now = false →
  (∀ k, k ∈ (configs profile).*1 → ".." ∉ Path.split k) →
  switchCalls ws now profile c →
  modifies c p ∨ creates c p →
  ∃ t, ws `prefix_of` t ∧ (t `prefix_of` p ∨ p `prefix_of` t).
Proof.
  intros Hnow Hkeys Hc Hp.
  assert (ws `prefix_of` backupDirOf ws) as Hdir.
  { rewrite backupDirOf_eq. by apply prefix_app_r. }
  assert (∀ f, f ∈ allPatterns → ws `prefix_of` Path.join (backupPathOf ws now) f) as Hdest.
  { intros f Hf. destruct (join_pattern (backupPathOf ws now) f Hf) as [-> _].
    apply prefix_app_r. etrans; [exact Hdir|by apply backupPathOf_in_backupDir]. }
  assert (∀ f, f ∈ allPatterns → ws `prefix_of` Path.join ws f) as Hsrc.
  { intros f Hf. destruct (join_pattern ws f Hf) as [-> _]. by apply prefix_app_r. }
  destruct c as [R c].
  destruct Hc as [Hc|[Hc|[Hc|Hc]]]; destruct c; cbn in *; try tauto.
  - destruct Hp as [[]|Hp]. destruct Hc as [->|(f & Hf & ->)].
    + exists (backupDirOf ws). auto.
    + exists (Path.join (backupPathOf ws now) f). split; [auto|]. right.
      etrans; [exact Hp|apply dirname_prefix].
  - destruct Hc as (f & Hf & _ & ->). exists (Path.join (backupPathOf ws now) f).
    split; [auto|]. tauto.
  - destruct Hc as (f & Hf & ->). exists (Path.join ws f). split; [auto|]. tauto.
  - destruct Hp as [[]|Hp]. destruct Hc as (t & Ht & ->). exists t.
    split; [by apply (targets_below ws profile)|]. right.
    etrans; [exact Hp|apply dirname_prefix].
  - exists p0. split; [by apply (targets_below ws profile)|].
    destruct Hp as [->| ->]; by left.
  - exists p0. split; [by apply (targets_below ws profile)|].
    destruct Hp as [->| ->]; by left.
Qed.



(** ** The backup step *)

(** One round of the backup loop. *)
Definition backupPair (sourcePath destPath : Path.t) : prog unit :=
  present ← await (PathExists sourcePath);
  if (present : bool) then
    await (EnsureDir (Path.dirname destPath)) ;;
    await (Copy sourcePath destPath)
  else Ret ().

Definition backupOne (ws backupPath : Path.t) (configFile : string) : prog unit :=
  backupPair (Path.join ws configFile) (Path.join backupPath configFile).

Lemma exec_backupCurrentConfig (ws : Path.t) (now : string) (w : world) :
  exec (backupCurrentConfig (Some ws) now) w =
  recover (continue (exec (await (EnsureDir (backupDirOf ws))) w)
                    (λ _ w', exec (forEach allPatterns (backupOne ws (backupPathOf ws now))) w'))
          (λ e w', (Thrown ("Failed to create backup: " +:+ e), w')).
Proof.
  unfold backupCurrentConfig. rewrite exec_tryCatch, exec_bind.
  destruct (exec (await (EnsureDir (backupDirOf ws))) w) as [[[]|e] w1]; [|done].
  cbn [continue]. unfold allPatterns. rewrite <- exec_forEach_nested.
  rewrite (exec_forEach_ext _ _ (λ entry, forEach entry.2 (backupOne ws (backupPathOf ws now))));
    [done|]. by intros [tool patterns] w'.
Qed.

Lemma backup_thrown (ws : Path.t) (now : string) (w : world) (e : string) :
  (exec (backupCurrentConfig (Some ws) now) w).1 = Thrown e →
  ∃ cause, e = "Failed to create backup: " +:+ cause.
Proof.
  unfold backupCurrentConfig. rewrite exec_tryCatch.
  match goal with |- context [recover ?r _] => destruct r as [[[]|cause] w1] end;
    cbn; [done|]. intros [= <-]. by exists cause.
Qed.

(** A backup changes nothing outside [.ai-config-backups]; above it, it can
    only create missing directories. *)
Lemma backup_frame (ws : Path.t) (now : string) (w : world) (p : Path.t) :
  hasSlash now = false →
  ¬ backupDirOf ws `prefix_of` p →
  (∀ n, files w !! p = Some n →
        files (exec (backupCurrentConfig (Some ws) now) w).2 !! p = Some n) ∧
  (¬ p `prefix_of` backupDirOf ws →
   files (exec (backupCurrentConfig (Some ws) now) w).2 !! p = files w !! p).
Proof.
  intros Hnow Hout.
  assert (∀ f, f ∈ allPatterns →
               backupDirOf ws `prefix_of` Path.join (backupPathOf ws now) f) as Hdest.
  { intros f Hf. destruct (join_pattern (backupPathOf ws now) f Hf) as [-> _].
    apply prefix_app_r. by apply backupPathOf_in_backupDir. }
  assert (∀ c, backupCalls ws now c → ¬ modifies c p) as Hmod.
  { intros [R c] Hc. destruct c; cbn in *; try tauto.
    destruct Hc as (f & Hf & _ & ->). intros Hpre. apply Hout. etrans; [by apply Hdest|done]. }
  split.
  - intros n Hn. apply exec_keeps; [|done].
    eapply callsIn_mono; [|apply backupCurrentConfig_calls]. done.
  - intros Hup. apply exec_unchanged.
    eapply callsIn_mono; [|apply backupCurrentConfig_calls].
    intros c Hc. split; [by apply Hmod|].
    destruct c as [R c]. destruct c; cbn in *; try tauto.
    + destruct Hc as [->|(f & Hf & ->)]; [done|]. intros Hpre.
      assert (p `prefix_of` Path.join (backupPathOf ws now) f) as Hp
          by (etrans; [exact Hpre|apply dirname_prefix]).
      destruct (prefix_weak_total _ _ _ (Hdest f Hf) Hp); done.
    + destruct Hc as (f & Hf & _ & ->). intros [Hpre|Hpre].
      * apply Hout. etrans; [by apply Hdest|done].
      * destruct (prefix_weak_total _ _ _ (Hdest f Hf) Hpre); done.
Qed.

(** A round for a regular file: the directory of the copy is made, and the
    copy replaces what is at its place, if anything. *)
Lemma exec_backupPair_file (src dest : Path.t) (w : world) (d : fileData) :
  src ≠ [] → dest ≠ [] → src ≠ dest →
  files w !! src = Some (File d) →
  (∀ q d', q `prefix_of` Path.dirname dest → files w !! q ≠ Some (File d')) →
  files w !! dest ≠ Some Dir →
  exec (backupPair src dest) w =
  (Returned (),
   withFiles w (<[dest := File d]> (FS.ensureDir (files w) (Path.dirname dest)).2)).
Proof.
  intros Hsrc Hdest Hne Hfile Hfree Hkind.
  unfold backupPair. rewrite exec_bind, exec_await. cbn [perform continue].
  assert (∀ fs : FS.t, FS.stat fs src = fs !! src) as Hstat_src by by destruct src.
  assert (∀ fs : FS.t, FS.stat fs dest = fs !! dest) as Hstat_dest by by destruct dest.
  unfold FS.pathExists at 1. rewrite Hstat_src, Hfile.
  rewrite exec_bind, exec_await. cbn [perform]. unfold onFiles.
  pose proof (mkdirs_ok [] (Path.dirname dest) (files w) Hfree) as Hok.
  pose proof (ensureDir_made (files w) (Path.dirname dest) Hok) as Hmade.
  pose proof (mkdirs_keeps [] (Path.dirname dest) (files w) src _ Hfile) as Hkept.
  assert (¬ dest `prefix_of` Path.dirname dest) as Hlonger.
  { intros Hpre. apply prefix_length in Hpre. unfold Path.dirname in Hpre.
    destruct dest as [|x dest] using rev_ind; [done|].
    rewrite removelast_last, length_app in Hpre. simpl in Hpre. lia. }
  pose proof (mkdirs_other [] (Path.dirname dest) (files w) dest Hlonger) as Hsame.
  unfold FS.ensureDir in *.
  destruct (FS.mkdirs [] (Path.dirname dest) (files w)) as [r fs1]. cbn [fst snd] in *.
  subst r. cbn [continue]. rewrite exec_await. cbn [perform]. unfold onFiles.
  cbn [files withFiles]. unfold FS.copy. rewrite Hstat_src, Hkept.
  rewrite decide_False by done. rewrite Hstat_dest, Hsame.
  assert (FS.kindConflict (File d) (files w !! dest) = false) as ->.
  { destruct (files w !! dest) as [[|?]|]; done. }
  cbn [FS.isDir andb]. unfold FS.pathExists. rewrite Hmade. cbn [fst snd].
  by rewrite Hmade.
Qed.

Lemma exec_backupPair_absent (src dest : Path.t) (w : world) :
  src ≠ [] → files w !! src = None → exec (backupPair src dest) w = (Returned (), w).
Proof.
  intros Hsrc Hnone. unfold backupPair. rewrite exec_bind, exec_await.
  cbn [perform continue]. unfold FS.pathExists.
  assert (FS.stat (files w) src = files w !! src) as -> by by destruct src.
  by rewrite Hnone.
Qed.

Lemma regular_check (fs : FS.t) (base : Path.t) :
  map_Forall (λ k n, k ∈ (Path.join base <$> allPatterns) → FS.isDir n = false) fs →
  ∀ f n, f ∈ allPatterns → fs !! Path.join base f = Some n → FS.isDir n = false.
Proof.
  intros Hall f n Hf Hn. apply (Hall _ _ Hn). apply list_elem_of_fmap. by exists f.
Qed.

Lemma no_file_check (fs : FS.t) (target : Path.t) :
  map_Forall (λ k n, k `prefix_of` target → FS.isDir n = true) fs →
  ∀ q d, q `prefix_of` target → fs !! q ≠ Some (File d).
Proof. intros Hall q d Hq Hn. by pose proof (Hall _ _ Hn Hq). Qed.

Section BackupLoop.
Context (ws : Path.t) (now : string) (w0 : world).
Hypothesis Hnow : hasSlash now = false.
Hypothesis Hwf : wellFormed (files w0).
Hypothesis Hregular :
  ∀ f n, f ∈ allPatterns → files w0 !! Path.join ws f = Some n → FS.isDir n = false.

(** What the loop maintains: no regular file on the way to the backup
    directory, the workspace entries as they were, no directory in the way of
    a copy. *)
Definition backupInv (w : world) : Prop :=
  (∀ q d, q `prefix_of` backupPathOf ws now → files w !! q ≠ Some (File d)) ∧
  (∀ f, f ∈ allPatterns → files w !! Path.join ws f = files w0 !! Path.join ws f) ∧
  (∀ f, f ∈ allPatterns → files w !! Path.join (backupPathOf ws now) f ≠ Some Dir).

Lemma nested_absent : files w0 !! Path.join ws nestedPattern = None.
Proof.
  destruct (files w0 !! Path.join ws nestedPattern) as [n|] eqn:E; [|done].
  assert (nestedPattern ∈ allPatterns) as Hin by (apply (bool_decide_unpack _); by vm_compute).
  assert (".github" ∈ allPatterns) as Hgh by (apply (bool_decide_unpack _); by vm_compute).
  destruct (join_pattern ws nestedPattern Hin) as [Hj _].
  change (Path.split nestedPattern) with ([".github"] ++ ["copilot-instructions.md"]) in Hj.
  rewrite app_assoc in Hj. rewrite Hj in E.
  pose proof (Hwf (ws ++ [".github"]) "copilot-instructions.md" (mk_is_Some _ _ E)) as Hdir.
  assert (FS.stat (files w0) (ws ++ [".github"]) = files w0 !! (ws ++ [".github"])) as Hstat
      by by destruct ws.
  rewrite Hstat in Hdir.
  assert (Path.join ws ".github" = ws ++ [".github"]) as Hj'
      by (by apply pattern_top_level).
  rewrite <- Hj' in Hdir. by apply Hregular in Hdir.
Qed.

Lemma backup_round (f : string) (w : world) :
  f ∈ allPatterns → backupInv w →
  ∃ w', exec (backupOne ws (backupPathOf ws now) f) w = (Returned (), w') ∧
        backupInv w' ∧
        (∀ d, files w0 !! Path.join ws f = Some (File d) →
              files w' !! Path.join (backupPathOf ws now) f = Some (File d)) ∧
        (∀ p n, files w !! p = Some n →
                (is_Some (files w0 !! Path.join ws f) → p ≠ Path.join (backupPathOf ws now) f) →
                files w' !! p = Some n).
Proof.
  intros Hf (HA & HB & HC). unfold backupOne.
  destruct (files w0 !! Path.join ws f) as [n|] eqn:E.
  - (* present: a regular file *)
    pose proof (Hregular f n Hf E) as Hn. destruct n as [|d]; [done|]. clear Hn.
    assert (f ≠ nestedPattern) as Hne by (intros ->; by rewrite nested_absent in E).
    set (dest := Path.join (backupPathOf ws now) f).
    assert (Path.dirname dest = backupPathOf ws now) as Hdirname.
    { unfold dest. rewrite pattern_top_level by done. unfold Path.dirname.
      by rewrite removelast_last. }
    assert (files w !! Path.join ws f = Some (File d)) as Hsrc by by rewrite HB.
    destruct (source_outside_backup ws now f dest Hnow Hf) as [Hsd _].
    { right. rewrite <- Hdirname. apply dirname_prefix. }
    rewrite (exec_backupPair_file _ _ _ d); try done.
    2:{ by apply join_nonempty. }
    2:{ by apply join_nonempty. }
    2:{ by rewrite Hdirname. }
    2:{ by apply HC. }
    rewrite Hdirname. unfold FS.ensureDir.
    eexists. split; [done|]. unfold backupInv. cbn [files withFiles].
    split; [|split].
    + split; [|split].
      * intros q d' Hq. destruct (dest_below_backup (backupPathOf ws now) f q Hf Hq) as [Hd _].
        fold dest in Hd. rewrite lookup_insert_ne by done.
        intros H%mkdirs_makes_dirs. by apply (HA q d').
      * intros g Hg.
        destruct (source_outside_backup ws now g dest Hnow Hg) as [Hgd _].
        { right. rewrite <- Hdirname. apply dirname_prefix. }
        rewrite lookup_insert_ne by done. rewrite <- HB by done.
        apply mkdirs_other. simpl.
        by apply (source_outside_backup ws now g); [..|left].
      * intros g Hg. destruct (decide (dest = Path.join (backupPathOf ws now) g)) as [<-|Hdg].
        -- by rewrite lookup_insert_eq.
        -- rewrite lookup_insert_ne by done. rewrite mkdirs_other; [by apply HC|].
           simpl. by apply dest_below_backup.
    + intros d' [= <-]. by rewrite lookup_insert_eq.
    + intros p n Hp Hpd. rewrite lookup_insert_ne by (intros <-; by apply Hpd).
      by apply mkdirs_keeps.
  - (* absent *)
    rewrite exec_backupPair_absent; [|by apply join_nonempty|by rewrite HB].
    exists w. split; [done|]. split; [done|]. split; [done|]. auto.
Qed.

Lemma backup_rounds (fs : list string) (w : world) :
  (∀ f, f ∈ fs → f ∈ allPatterns) → backupInv w →
  ∃ w', exec (forEach fs (backupOne ws (backupPathOf ws now))) w = (Returned (), w') ∧
        backupInv w' ∧
        (∀ f d, f ∈ fs → files w0 !! Path.join ws f = Some (File d) →
                files w' !! Path.join (backupPathOf ws now) f = Some (File d)) ∧
        (∀ p n, files w !! p = Some n →
                (∀ f, f ∈ fs → is_Some (files w0 !! Path.join ws f) →
                      p ≠ Path.join (backupPathOf ws now) f) →
                files w' !! p = Some n).
Proof.
  revert w. induction fs as [|f fs IH]; intros w Hsub Hinv.
  { exists w. split; [done|]. split; [done|]. split; [|by auto].
    intros f d Hf. by apply elem_of_nil in Hf. }
  assert (f ∈ allPatterns) as Hf by (apply Hsub; left).
  destruct (backup_round f w Hf Hinv) as (w1 & Hexec1 & Hinv1 & Hcopy1 & Hkeep1).
  destruct (IH w1) as (w' & Hexec & Hinv' & Hcopy & Hkeep); [|done|].
  { intros g Hg. apply Hsub. by right. }
  exists w'. rewrite exec_forEach_cons, Hexec1. cbn [continue].
  split; [done|]. split; [done|]. split.
  - intros g d Hg Hsrc. destruct (decide (g ∈ fs)) as [Hin|Hout]; [by apply Hcopy|].
    apply elem_of_cons in Hg as [->|Hg]; [|done].
    apply Hkeep; [by apply Hcopy1|].
    intros h Hh _ Heq. apply Hout.
    assert (h ∈ allPatterns) as Hh' by (apply Hsub; by right).
    destruct (join_pattern (backupPathOf ws now) f Hf) as [Hjf _].
    destruct (join_pattern (backupPathOf ws now) h Hh') as [Hjh _].
    rewrite Hjf, Hjh in Heq. apply app_inv_head in Heq.
    by rewrite (pattern_split_inj f h Hf Hh' Heq).
  - intros p n Hp Hnot. apply Hkeep.
    + apply (Hkeep1 p n Hp). intros Hsome. apply Hnot; [left|done].
    + intros g Hg Hsome. apply Hnot; [by right|done].
Qed.
End BackupLoop.

(** ** The clearing step *)

Definition clearOne (ws : Path.t) (configFile : string) : prog unit :=
  let filePath := Path.join ws configFile in
  present ← await (PathExists filePath);
  if (present : bool) then await (Remove filePath) else Ret ().

Lemma exec_removeExisting (ws : Path.t) (w : world) :
  exec (removeExisting ws) w = exec (forEach allPatterns (clearOne ws)) w.
Proof.
  unfold removeExisting, allPatterns. rewrite <- exec_forEach_nested.
  apply exec_forEach_ext. by intros [tool patterns] w'.
Qed.

Lemma exec_clearOne (ws : Path.t) (f : string) (w : world) :
  exec (clearOne ws f) w =
  (Returned (),
   if FS.pathExists (files w) (Path.join ws f)
   then withFiles w (FS.remove (files w) (Path.join ws f)) else w).
Proof.
  unfold clearOne. rewrite exec_bind, exec_await. cbn [perform continue].
  destruct (FS.pathExists _ _); [by rewrite exec_await|done].
Qed.

Lemma clearOne_absent (ws : Path.t) (f : string) (w : world) :
  Path.join ws f ≠ [] → files (exec (clearOne ws f) w).2 !! Path.join ws f = None.
Proof.
  intros Hne. rewrite exec_clearOne. cbn [snd].
  unfold FS.pathExists, FS.stat. destruct (Path.join ws f) as [|seg rest] eqn:E; [done|].
  destruct (files w !! (seg :: rest)) as [n|] eqn:En; [|done].
  cbn [files withFiles]. rewrite lookup_remove. by rewrite decide_True.
Qed.

Lemma clearOne_no_create (ws : Path.t) (f : string) (w : world) (p : Path.t) :
  files w !! p = None → files (exec (clearOne ws f) w).2 !! p = None.
Proof.
  intros Hp. rewrite exec_clearOne. cbn [snd].
  destruct (FS.pathExists _ _); [|done].
  cbn [files withFiles]. rewrite lookup_remove. by case_decide.
Qed.

Lemma clear_loop (ws : Path.t) (fs : list string) (w : world) :
  (exec (forEach fs (clearOne ws)) w).1 = Returned () ∧
  (∀ p, files w !! p = None → files (exec (forEach fs (clearOne ws)) w).2 !! p = None) ∧
  (∀ f, f ∈ fs → Path.join ws f ≠ [] →
        files (exec (forEach fs (clearOne ws)) w).2 !! Path.join ws f = None).
Proof.
  revert w. induction fs as [|f fs IH]; intros w.
  { split; [done|]. split; [done|]. intros f Hf. by apply elem_of_nil in Hf. }
  rewrite exec_forEach_cons.
  pose proof (clearOne_absent ws f w) as Habs.
  pose proof (clearOne_no_create ws f w) as Hnc.
  destruct (exec (clearOne ws f) w) as [[[]|e] w1] eqn:E;
    [|by rewrite exec_clearOne in E].
  cbn [continue snd] in *. destruct (IH w1) as (IH1 & IH2 & IH3).
  split; [done|]. split; [by auto|].
  intros g [->|Hg]%elem_of_cons Hne; [by auto|by apply IH3].
Qed.

(** After the clearing step no catalogued path is left. *)
Lemma removeExisting_cleared (ws : Path.t) (w : world) :
  (exec (removeExisting ws) w).1 = Returned () ∧
  ∀ f, f ∈ allPatterns → files (exec (removeExisting ws) w).2 !! Path.join ws f = None.
Proof.
  rewrite exec_removeExisting. destruct (clear_loop ws allPatterns w) as (H1 & _ & H3).
  split; [done|]. intros f Hf. apply H3; [done|].
  destruct (join_pattern ws f Hf) as [-> Hne]. intros [_ ?]%app_eq_nil. done.
Qed.



(** ** The writing step *)

(** The last data written to a path by a sequence of writes. *)
Fixpoint lastWrite (writes : list (Path.t * fileData)) (t : Path.t) : option fileData :=
  match writes with
  | [] => None
  | (p, d) :: rest =>
      match lastWrite rest t with
      | Some d' => Some d'
      | None => if decide (p = t) then Some d else None
      end
  end.

Lemma lastWrite_app (ws1 ws2 : list (Path.t * fileData)) (t : Path.t) :
  lastWrite (ws1 ++ ws2) t =
  match lastWrite ws2 t with
  | Some d => Some d
  | None => lastWrite ws1 t
  end.
Proof.
  induction ws1 as [|[p d] ws1 IH]; simpl; [by destruct (lastWrite ws2 t)|].
  rewrite IH. by destruct (lastWrite ws2 t).
Qed.

(** The effect of writes that all returned: at a written path the data
    written last, elsewhere what was there before. *)
Definition written (writes : list (Path.t * fileData)) (w w' : world) : Prop :=
  ∀ t, match lastWrite writes t with
       | Some d => files w' !! t = Some (File d)
       | None => ∀ n, files w !! t = Some n → files w' !! t = Some n
       end.

Lemma written_nil (w w' : world) : files w' = files w → written [] w w'.
Proof. intros Heq t. simpl. by rewrite Heq. Qed.

Lemma written_app (ws1 ws2 : list (Path.t * fileData)) (w w1 w' : world) :
  written ws1 w w1 → written ws2 w1 w' → written (ws1 ++ ws2) w w'.
Proof.
  intros H1 H2 t. rewrite lastWrite_app. specialize (H1 t). specialize (H2 t).
  destruct (lastWrite ws2 t); [done|].
  destruct (lastWrite ws1 t); [by apply H2|]. intros n Hn. by apply H2, H1.
Qed.

Lemma written_one (p : Path.t) (slash : bool) (d : fileData) (w : world) :
  (FS.writeFile (files w) p slash d).1 = Returned () →
  written [(p, d)] w (withFiles w (FS.writeFile (files w) p slash d).2).
Proof.
  intros Hok t. cbn [lastWrite]. case_decide as Hp.
  - subst t. by apply writeFile_written.
  - intros n Hn. cbn [files withFiles]. by rewrite writeFile_other.
Qed.

Lemma writeConfigs_written (ws : Path.t) (entries : list (string * json)) (w w' : world) :
  exec (writeConfigs ws entries) w = (Returned (), w') →
  written (configWrites ws entries) w w'.
Proof.
  unfold writeConfigs. revert w.
  induction entries as [|[fileName content] rest IH]; intros w.
  { intros [= <-]. by apply written_nil. }
  intros (w1 & Hone & Hrest)%exec_forEach_returned.
  apply (written_app [_] _ w w1 w'); [|by apply IH]. clear IH Hrest.
  apply exec_bind_returned in Hone as ([] & w0 & Hdir & Hwrite).
  rewrite exec_await in Hdir. cbn [perform onFiles] in Hdir.
  assert (∀ c : call unit,
            perform c w0 = onFiles w0 (FS.writeFile (files w0) (Path.join ws fileName)
                                        (Path.endsWithSlash fileName) (dataOf content)) →
            exec (await c) w0 = (Returned (), w1) →
            written [(Path.join ws fileName, dataOf content)] w w1) as Hgen.
  { intros c Hc. rewrite exec_await, Hc. unfold onFiles. intros [= Hok <-].
    intros t. pose proof (written_one _ _ _ w0 Hok t) as Hw. cbn [lastWrite] in *.
    case_decide; [done|]. intros n Hn. apply Hw.
    injection Hdir as _ <-. cbn [files withFiles]. by apply mkdirs_keeps. }
  destruct content; (eapply Hgen; [|exact Hwrite]); done.
Qed.

Lemma writeSpecialized_written (ws : Path.t) (profile : AIProfile) (w w' : world) :
  exec (writeSpecialized ws profile) w = (Returned (), w') →
  written (specializedWrites ws profile) w w'.
Proof.
  unfold writeSpecialized, specializedWrites.
  intros ([] & w1 & H1 & ([] & w2 & H2 & H3)%exec_bind_returned)%exec_bind_returned.
  assert (∀ (field : string) (p : Path.t) (wa wb : world),
            exec (if decide (field = "") then Ret ()
                  else await (WriteFile p false field)) wa = (Returned (), wb) →
            written (if decide (field = "") then [] else [(p, Text field)]) wa wb) as Hgen.
  { intros field p wa wb. destruct (decide (field = "")).
    - cbn [exec]. intros [= <-]. by apply written_nil.
    - rewrite exec_await. cbn [perform]. unfold onFiles.
      pose proof (written_one p false (Text field) wa) as Hw.
      destruct (FS.writeFile (files wa) p false (Text field)) as [r fs'].
      cbn [fst snd] in *. intros [= -> <-]. by apply Hw. }
  apply (written_app _ _ w w1 w'); [by apply Hgen|].
  apply (written_app _ _ w1 w2 w'); by apply Hgen.
Qed.

(** ** The switch as a whole *)

Definition switchFailure (profileName e : string) : string :=
  "Failed to switch to profile " +:+ quote +:+ profileName +:+ quote +:+ ": " +:+ e.

Lemma exec_switchProfile (ws : Path.t) (config : settings) (now profileName : string)
    (profile : AIProfile) (w : world) :
  loaded (profilesDoc w) !! profileName = Some profile →
  exec (switchProfile (Some ws) config now profileName) w =
  recover (exec (switchSteps ws config now profileName profile) w)
          (λ e w', (Thrown (switchFailure profileName e), w')).
Proof.
  intros Hp. unfold switchProfile. rewrite exec_bind, exec_getProfiles. cbn [continue].
  rewrite (getProperty_own _ _ _ Hp). by rewrite exec_tryCatch.
Qed.

Lemma switchProfile_returned (ws : Path.t) (config : settings) (now profileName : string)
    (profile : AIProfile) (w w' : world) :
  loaded (profilesDoc w) !! profileName = Some profile →
  exec (switchProfile (Some ws) config now profileName) w = (Returned (), w') →
  exec (switchSteps ws config now profileName profile) w = (Returned (), w').
Proof.
  intros Hp. rewrite (exec_switchProfile _ _ _ _ profile) by done.
  by destruct (exec (switchSteps _ _ _ _ _) w) as [[[]|e] w1].
Qed.

Lemma switchProfile_files (ws : Path.t) (config : settings) (now profileName : string)
    (profile : AIProfile) (w : world) :
  loaded (profilesDoc w) !! profileName = Some profile →
  (exec (switchProfile (Some ws) config now profileName) w).2 =
  (exec (switchSteps ws config now profileName profile) w).2.
Proof.
  intros Hp. rewrite (exec_switchProfile _ _ _ _ profile) by done.
  by destruct (exec (switchSteps _ _ _ _ _) w) as [[[]|e] w1].
Qed.

(** The four steps of a switch that returned. *)
Lemma switchSteps_returned (ws : Path.t) (config : settings) (now profileName : string)
    (profile : AIProfile) (w w' : world) :
  exec (switchSteps ws config now profileName profile) w = (Returned (), w') →
  ∃ wb wc wd we,
    exec (if backupBeforeSwitch config
          then backupCurrentConfig (Some ws) now else Ret ()) w = (Returned (), wb) ∧
    exec (removeExisting ws) wb = (Returned (), wc) ∧
    exec (writeConfigs ws (configs profile)) wc = (Returned (), wd) ∧
    exec (writeSpecialized ws profile) wd = (Returned (), we) ∧
    files w' = files we.
Proof.
  unfold switchSteps, backupStep.
  intros ([] & wb & Hb & ([] & wc & Hc & ([] & wd & Hd &
            ([] & we & He & Hn)%exec_bind_returned)%exec_bind_returned
          )%exec_bind_returned)%exec_bind_returned.
  exists wb, wc, wd, we. repeat (split; [done|]).
  destruct (showNotifications config).
  - rewrite exec_await in Hn. by injection Hn as <-.
  - by injection Hn as <-.
Qed.


(** What exists at a path that no step clears or writes is kept. *)
Lemma switchSteps_keeps (ws : Path.t) (config : settings) (now profileName : string)
    (profile : AIProfile) (w : world) (p : Path.t) (n : node) :
  (∀ f, f ∈ allPatterns → ¬ Path.join ws f `prefix_of` p) →
  p ∉ (writesOf ws profile).*1 →
  ¬ backupPathOf ws now `prefix_of` p →
  files w !! p = Some n →
  files (exec (switchSteps ws config now profileName profile) w).2 !! p = Some n.
Proof.
  intros Hfoot Hwrite Hbackup. apply exec_keeps.
  eapply callsIn_mono; [|apply switchSteps_calls].
  intros [R c] [Hc|[Hc|[Hc|Hc]]]; destruct c; cbn in *; try tauto.
  - destruct Hc as (f & Hf & _ & ->). intros H. by apply Hbackup, (join_pattern_prefix _ f).
  - destruct Hc as (f & Hf & ->). by apply Hfoot.
  - by intros <-.
  - by intros <-.
Qed.

(** After a switch that returned: the files the profile writes hold what was
    written to them last, and a catalogued path exists only if the profile
    writes at or below it. *)
Lemma switchSteps_result (ws : Path.t) (config : settings) (now profileName : string)
    (profile : AIProfile) (w w' : world) :
  exec (switchSteps ws config now profileName profile) w = (Returned (), w') →
  (∀ t d, lastWrite (writesOf ws profile) t = Some d → files w' !! t = Some (File d)) ∧
  (∀ f, f ∈ allPatterns →
        (∀ t, t ∈ (writesOf ws profile).*1 → ¬ Path.join ws f `prefix_of` t) →
        files w' !! Path.join ws f = None).
Proof.
  intros (wb & wc & wd & we & Hb & Hc & Hd & He & ->)%switchSteps_returned.
  pose proof (writeConfigs_written _ _ _ _ Hd) as Hwd.
  pose proof (writeSpecialized_written _ _ _ _ He) as Hwe.
  split.
  - intros t d Ht.
    pose proof (written_app _ _ _ _ _ Hwd Hwe t) as Hw.
    unfold writesOf in Ht. by rewrite Ht in Hw.
  - intros f Hf Hfree.
    destruct (removeExisting_cleared ws wb) as [_ Hclear].
    rewrite Hc in Hclear. specialize (Hclear f Hf). cbn [snd] in Hclear.
    assert (∀ c, writeCalls (writesOf ws profile) c → ¬ creates c (Path.join ws f)) as Hno.
    { intros [R c] Hcall. destruct c; cbn in *; try tauto.
      - destruct Hcall as (t & Ht & ->). intros Hpre. apply (Hfree t Ht).
        etrans; [exact Hpre|apply dirname_prefix].
      - intros ->. by apply (Hfree _ Hcall).
      - intros ->. by apply (Hfree _ Hcall). }
    assert (files wd !! Path.join ws f = None) as Hwdf.
    { replace wd with (exec (writeConfigs ws (configs profile)) wc).2 by by rewrite Hd.
      apply exec_no_create; [|done].
      eapply callsIn_mono; [|apply writeConfigs_calls].
      intros c Hcall. by apply Hno, writeCalls_app_l. }
    replace we with (exec (writeSpecialized ws profile) wd).2 by by rewrite He.
    apply exec_no_create; [|done].
    eapply callsIn_mono; [|apply writeSpecialized_calls].
    intros c Hcall. by apply Hno, writeCalls_app_r.
Qed.


(** * Scenarios

    The worlds and profiles that the counterexamples and witnesses run on. *)

Definition storeWith (m : gmap string AIProfile) (fs : FS.t) : world :=
  {| files := fs; profilesDoc := DocProfiles m; profilesWritable := true;
     shown := []; logged := [] |}.

Definition noBackup : settings := {| backupBeforeSwitch := false; showNotifications := true |}.

Definition withBackup : settings := {| backupBeforeSwitch := true; showNotifications := true |}.

(** A stored profile with declared files and text, for the witness. *)
Definition reactCursor : AIProfile :=
  {| name := "react-cursor"; description := "React with Cursor";
     configs := [(".cursorrules", JString "use hooks")];
     ignorePatterns := "node_modules"; rules := "use hooks"; memoryBank := "";
     aiTool := cursor |}.

(** The scenario of the counterexample: [planner] declares a file outside
    every footprint and has rules text; [windsurfer] declares neither. *)
Definition planner : AIProfile :=
  {| name := "planner"; description := "";
     configs := [(".cursorrules", JString "plan first"); ("notes/ai.md", JString "planner notes")];
     ignorePatterns := ""; rules := "plan first"; memoryBank := ""; aiTool := cursor |}.

Definition windsurfer : AIProfile :=
  {| name := "windsurfer"; description := "";
     configs := [(".windsurfrules", JString "surf")];
     ignorePatterns := ""; rules := ""; memoryBank := ""; aiTool := windsurf |}.

Definition twoProfiles : gmap string AIProfile :=
  {[ "planner" := planner; "windsurfer" := windsurfer ]}.

(** A profile whose declared file climbs out of the workspace. *)
Definition escapee : AIProfile :=
  {| name := "escapee"; description := "";
     configs := [("../outside.txt", JString "written next to the workspace")];
     ignorePatterns := ""; rules := ""; memoryBank := ""; aiTool := other |}.

(** The store document of the counterexample: present, but not JSON. *)
Definition brokenStore : world :=
  {| files := ∅; profilesDoc := DocMalformed "{ react-cursor: "; profilesWritable := true;
     shown := []; logged := [] |}.

(** The scenario of the specification: a workspace holding only [.cursorrules]. *)
Definition onlyCursorrules : world :=
  storeWith ∅ (list_to_map [ (["proj"], Dir);
                             (["proj"; ".cursorrules"], File (Text "use hooks")) ]).

Definition emptyProject : world := storeWith twoProfiles (list_to_map [ (["proj"], Dir) ]).

Definition afterPlanner : world :=
  (exec (switchProfile (Some ["proj"]) noBackup "2024-12-16T10:00:00.000Z" "planner")
        emptyProject).2.


(** A project with a CI workflow next to the Copilot instructions. *)
Definition projectWithWorkflows : world :=
  storeWith twoProfiles
    (list_to_map [ (["proj"], Dir);
                   (["proj"; ".github"], Dir);
                   (["proj"; ".github"; "copilot-instructions.md"], File (Text "be brief"));
                   (["proj"; ".github"; "workflows"], Dir);
                   (["proj"; ".github"; "workflows"; "ci.yml"], File (Text "on: push")) ]).

Definition ciWorkflow : Path.t := ["proj"; ".github"; "workflows"; "ci.yml"].

Definition workflowsAfterSwitch : outcome unit * world :=
  exec (switchProfile (Some ["proj"]) noBackup "2024-12-16T10:00:00.000Z" "windsurfer")
       projectWithWorkflows.

Definition homeWithProject : world :=
  storeWith {[ "escapee" := escapee ]}
    (list_to_map [ (["home"], Dir); (["home"; "proj"], Dir) ]).

Definition afterEscapee : outcome unit * world :=
  exec (switchProfile (Some ["home"; "proj"]) noBackup "2024-12-16T10:00:00.000Z" "escapee")
       homeWithProject.

(** A workspace with a leftover of an earlier backup taken at the very same
    instant, when [.cursor] was a regular file. *)
Definition collidingBackup : world :=
  storeWith twoProfiles
    (list_to_map
       [ (["proj"], Dir);
         (["proj"; ".cursorrules"], File (Text "old rules"));
         (["proj"; ".cursor"], Dir);
         (["proj"; ".ai-config-backups"], Dir);
         (["proj"; ".ai-config-backups"; "backup-2024-12-16T10-00-00-000Z"], Dir);
         (["proj"; ".ai-config-backups"; "backup-2024-12-16T10-00-00-000Z"; ".cursor"],
          File (Text "a file then")) ]).

Definition afterFailedBackup : outcome unit * world :=
  exec (switchProfile (Some ["proj"]) withBackup "2024-12-16T10:00:00.000Z" "windsurfer")
       collidingBackup.

Definition backedUpRules : Path.t :=
  ["proj"; ".ai-config-backups"; "backup-2024-12-16T10-00-00-000Z"; ".cursorrules"].

(** A project with Cursor rules, before any switch. *)
Definition cursorProject : world :=
  storeWith twoProfiles
    (list_to_map [ (["proj"], Dir);
                   (["proj"; ".cursorrules"], File (Text "original rules")) ]).

Definition sameInstant : string := "2024-12-16T10:00:00.000Z".

Definition afterFirstBackup : outcome unit * world :=
  exec (switchProfile (Some ["proj"]) withBackup sameInstant "planner") cursorProject.

Definition afterSecondBackup : outcome unit * world :=
  exec (switchProfile (Some ["proj"]) withBackup sameInstant "windsurfer") afterFirstBackup.2.

Definition switchToPlanner : prog unit :=
  switchProfile (Some ["proj"]) noBackup "2024-12-16T10:00:00.000Z" "planner".

Definition switchToWindsurfer : prog unit :=
  switchProfile (Some ["proj"]) noBackup "2024-12-16T10:00:00.100Z" "windsurfer".

(** Both invocations test the catalogued paths before either writes. *)
Definition overlapping : list bool :=
  replicate 27 true ++ replicate 27 false ++ replicate 6 true ++ replicate 3 false.

Definition afterOverlap : prog unit * prog unit * world :=
  interleave overlapping switchToPlanner switchToWindsurfer emptyProject.

(** * The claims *)

(** ** C1: one switch after another *)




(** ** C2: loading a malformed store document *)

(** C2, as stated, fails: the store document of [brokenStore] is present and
    is not JSON, and loading it returns a mapping instead of failing. *)
Lemma getProfiles_malformed_returns :
  profilesDoc brokenStore = DocMalformed "{ react-cursor: " ∧
  (exec getProfiles brokenStore).1 = Returned ∅ ∧
  ¬ ∃ e, (exec getProfiles brokenStore).1 = Thrown e.
Proof.
  split; [done|]. rewrite exec_getProfiles. split; [done|]. by intros [e He].
Qed.

(** A store document that is JSON, and no mapping. *)
Definition numberStore : Raw.store :=
  {| Raw.doc := Raw.Holds (JNumber "5"); Raw.writable := true |}.

(** C2, amended: for every store document that exists, malformed or not, the
    load raises no error, checks nothing and leaves the document as it is. For
    a document that is not JSON, or that is JSON for [null], [false], zero or
    the empty string, it returns the empty mapping; any other document it
    returns as parsed, whether or not that is a mapping of profiles. *)
Theorem getProfiles_malformed (s : Raw.store) :
  Raw.doc s ≠ Raw.Missing →
  ∃ profiles,
    Raw.getProfiles s = (Returned profiles, s) ∧
    match Raw.doc s with
    | Raw.Holds content => profiles = if JSON.truthy content then content else JObject []
    | _ => profiles = JObject []
    end.
Proof.
  intros _. rewrite raw_getProfiles. eexists. split; [reflexivity|].
  by destruct (Raw.doc s).
Qed.

Lemma getProfiles_malformed_witness :
  Raw.getProfiles numberStore = (Returned (JNumber "5"), numberStore).
Proof.
  destruct (getProfiles_malformed numberStore) as (profiles & -> & Hprofiles).
  - discriminate.
  - cbn in Hprofiles. rewrite Hprofiles. vm_compute. reflexivity.
Defined.

(** ** C3: a backup that fails *)

(** C3, as stated, fails: the backup copies [.cursorrules] and then fails on
    [.cursor]; the switch fails, but the target directory is not what it was:
    it holds the copy the failed backup made. *)
Lemma failed_backup_changes_directory :
  (exec (backupCurrentConfig (Some ["proj"]) "2024-12-16T10:00:00.000Z") collidingBackup).1
  = Thrown "Failed to create backup: Cannot overwrite: directory and non-directory" ∧
  afterFailedBackup.1
  = Thrown (switchFailure "windsurfer"
              "Failed to create backup: Cannot overwrite: directory and non-directory") ∧
  ["proj"] `prefix_of` backedUpRules ∧
  files collidingBackup !! backedUpRules = None ∧
  files afterFailedBackup.2 !! backedUpRules = Some (File (Text "old rules")).
Proof.
  repeat split; try (by vm_compute). apply (bool_decide_unpack _). by vm_compute.
Qed.

(** C3, amended: if the backup step of a switch with backup enabled fails,
    the switch fails with the backup's error before any clearing or writing
    call is made, and everything outside [.ai-config-backups] is as it was;
    inside [.ai-config-backups] the copies made before the failure remain. *)
Theorem backup_failure_aborts_switch (ws : Path.t) (config : settings)
    (now profileName : string) (profile : AIProfile) (w : world) (e : string) :
  loaded (profilesDoc w) !! profileName = Some profile →
  backupBeforeSwitch config = true →
  hasSlash now = false →
  (exec (backupCurrentConfig (Some ws) now) w).1 = Thrown e →
  (∃ cause, e = "Failed to create backup: " +:+ cause) ∧
  (exec (switchProfile (Some ws) config now profileName) w).1
    = Thrown (switchFailure profileName e) ∧
  Forall (λ c, ¬ destructive c) (trace (switchProfile (Some ws) config now profileName) w) ∧
  (∀ p, ¬ backupDirOf ws `prefix_of` p →
        (∀ n, files w !! p = Some n →
              files (exec (switchProfile (Some ws) config now profileName) w).2 !! p = Some n) ∧
        (¬ p `prefix_of` backupDirOf ws →
         files (exec (switchProfile (Some ws) config now profileName) w).2 !! p
         = files w !! p)).
Proof.
  intros Hp Hcfg Hnow Hfail.
  split; [by eapply backup_thrown|].
  assert (exec (switchSteps ws config now profileName profile) w
          = (Thrown e, (exec (backupCurrentConfig (Some ws) now) w).2)) as Hsteps.
  { unfold switchSteps, backupStep. rewrite exec_bind, Hcfg.
    destruct (exec (backupCurrentConfig (Some ws) now) w) as [[[]|e'] wb]; [done|].
    cbn in *. congruence. }
  split; [|split].
  - rewrite (exec_switchProfile _ _ _ _ profile), Hsteps by done. done.
  - unfold switchProfile.
    rewrite trace_bind, trace_getProfiles, exec_getProfiles, (getProperty_own _ _ _ Hp).
    rewrite trace_tryCatch, Hsteps. cbn [trace]. rewrite app_nil_r.
    cbn [app]. constructor; [cbn; tauto|].
    unfold switchSteps, backupStep. rewrite trace_bind, Hcfg.
    destruct (exec (backupCurrentConfig (Some ws) now) w) as [[[]|e'] wb]; [done|].
    rewrite app_nil_r.
    eapply Forall_impl; [apply callsIn_trace, backupCurrentConfig_calls|].
    intros [R c] Hc. destruct c; cbn in *; tauto.
  - intros p Hout. rewrite (switchProfile_files _ _ _ _ profile), Hsteps by done.
    by apply backup_frame.
Qed.

Lemma backup_failure_aborts_switch_witness :
  afterFailedBackup.1
  = Thrown (switchFailure "windsurfer"
              "Failed to create backup: Cannot overwrite: directory and non-directory") ∧
  files afterFailedBackup.2 !! ["proj"; ".cursorrules"] = Some (File (Text "old rules")).
Proof.
  destruct (backup_failure_aborts_switch ["proj"] withBackup "2024-12-16T10:00:00.000Z"
              "windsurfer" windsurfer collidingBackup
              "Failed to create backup: Cannot overwrite: directory and non-directory")
    as (_ & Hfails & _ & Hframe);
    [by vm_compute|reflexivity|by vm_compute|by vm_compute|].
  split; [exact Hfails|].
  destruct (Hframe ["proj"; ".cursorrules"]) as [Hkept _].
  - apply (bool_decide_unpack _). by vm_compute.
  - apply Hkept. by vm_compute.
Defined.

(** ** C4: two backups with one time stamp *)

(** C4, as stated, fails: two switches with backup get the same time stamp;
    the second raises no error, and the copy of [.cursorrules] that the first
    had saved is replaced by the second's. *)
Lemma second_backup_overwrites_first :
  afterFirstBackup.1 = Returned () ∧
  files afterFirstBackup.2 !! backupPathOf ["proj"] sameInstant = Some Dir ∧
  files afterFirstBackup.2 !! backedUpRules = Some (File (Text "original rules")) ∧
  afterSecondBackup.1 = Returned () ∧
  files afterSecondBackup.2 !! backedUpRules = Some (File (Text "plan first")).
Proof. repeat split; by vm_compute. Qed.

(** C4, amended: a backup directory of the same time stamp that is already
    there is no error. In a workspace whose catalogued entries are regular
    files, with no regular file on the way to the backup directory and no
    directory in it where a copy goes, the backup returns, whether or not the
    directory exists: every catalogued file of the workspace is copied into
    it, replacing a copy saved there before, and everything else that the
    directory held is kept. *)
Theorem backup_into_existing_directory (ws : Path.t) (now : string) (w : world) :
  hasSlash now = false →
  wellFormed (files w) →
  (∀ f n, f ∈ allPatterns → files w !! Path.join ws f = Some n → FS.isDir n = false) →
  (∀ q d, q `prefix_of` backupPathOf ws now → files w !! q ≠ Some (File d)) →
  (∀ f n, f ∈ allPatterns →
          files w !! Path.join (backupPathOf ws now) f = Some n → FS.isDir n = false) →
  ∃ w', exec (backupCurrentConfig (Some ws) now) w = (Returned (), w') ∧
        (∀ f d, f ∈ allPatterns → files w !! Path.join ws f = Some (File d) →
                files w' !! Path.join (backupPathOf ws now) f = Some (File d)) ∧
        (∀ p n, files w !! p = Some n →
                (∀ f, f ∈ allPatterns → is_Some (files w !! Path.join ws f) →
                      p ≠ Path.join (backupPathOf ws now) f) →
                files w' !! p = Some n).
Proof.
  intros Hnow Hwf Hregular Hway Hdest.
  rewrite exec_backupCurrentConfig, exec_await. cbn [perform]. unfold onFiles.
  assert (backupDirOf ws `prefix_of` backupPathOf ws now) as Hin
      by by apply backupPathOf_in_backupDir.
  assert ((FS.ensureDir (files w) (backupDirOf ws)).1 = Returned ()) as Hok.
  { apply mkdirs_ok. intros q d Hq. apply Hway. by etrans. }
  unfold FS.ensureDir in *.
  pose proof (mkdirs_keeps [] (backupDirOf ws) (files w)) as Hkeeps.
  pose proof (mkdirs_other [] (backupDirOf ws) (files w)) as Hother.
  pose proof (mkdirs_makes_dirs [] (backupDirOf ws) (files w)) as Hdirs.
  destruct (FS.mkdirs [] (backupDirOf ws) (files w)) as [r fs1]. cbn [fst snd] in *.
  subst r. cbn [continue].
  destruct (backup_rounds ws now w Hnow Hwf Hregular allPatterns (withFiles w fs1))
    as (w' & Hexec & _ & Hcopy & Hkeep); [done| |].
  { unfold backupInv. cbn [files withFiles]. split; [|split].
    - intros q d Hq H%Hdirs. by apply (Hway q d).
    - intros f Hf. apply Hother. simpl.
      by apply (source_outside_backup ws now f); [..|left].
    - intros f Hf Hdir. rewrite Hother in Hdir; [by apply Hdest in Hdir|].
      simpl. intros Hpre. by apply (dest_below_backup (backupPathOf ws now) f (backupDirOf ws)). }
  exists w'. rewrite Hexec. cbn [recover]. split; [done|]. split; [by auto|].
  intros p n Hp Hnot. apply Hkeep; [|done]. cbn [files withFiles]. by apply Hkeeps.
Qed.

Lemma backup_into_existing_directory_witness :
  ∃ w', exec (backupCurrentConfig (Some ["proj"]) sameInstant) afterFirstBackup.2
        = (Returned (), w') ∧
        files w' !! backedUpRules = Some (File (Text "plan first")).
Proof.
  destruct (backup_into_existing_directory ["proj"] sameInstant afterFirstBackup.2)
    as (w' & Hexec & Hcopy & _).
  - by vm_compute.
  - apply wellFormed_check. apply (bool_decide_unpack _). by vm_compute.
  - apply regular_check. apply (bool_decide_unpack _). by vm_compute.
  - apply no_file_check. apply (bool_decide_unpack _). by vm_compute.
  - apply regular_check. apply (bool_decide_unpack _). by vm_compute.
  - exists w'. split; [exact Hexec|].
    apply (Hcopy ".cursorrules").
    + apply (bool_decide_unpack _). by vm_compute.
    + by vm_compute.
Defined.

(** ** C5: detection *)

(** C5: detection returns, changes nothing, and reports a tool exactly when a
    path of its footprint exists in the workspace; the patterns of a footprint
    are tested in order, up to the first that exists. *)
Theorem detect_footprints (ws : Path.t) (w : world) :
  ∃ tools,
    exec (detectAIConfigurations (Some ws)) w = (Returned tools, w) ∧
    NoDup tools ∧
    (∀ tool, tool ∈ tools ↔
             ∃ pattern, pattern ∈ footprintOf tool ∧ present (files w) ws pattern = true) ∧
    trace (detectAIConfigurations (Some ws)) w =
      CONFIG_MAPPINGS ≫= (λ entry, (λ pattern, AnyCall (Glob ws pattern))
                                     <$> probed (files w) ws entry.2).
Proof.
  exists (matching (files w) ws CONFIG_MAPPINGS).
  unfold detectAIConfigurations. rewrite exec_detectTools, trace_detectTools.
  split; [done|]. split; [|split; [|done]].
  - unfold matching. apply NoDup_fmap_fst.
    + intros tool p1 p2 [_ H1]%list_elem_of_filter [_ H2]%list_elem_of_filter.
      apply CONFIG_MAPPINGS_footprintOf in H1, H2. congruence.
    + apply NoDup_filter. apply (bool_decide_unpack _). by vm_compute.
  - intros tool. unfold matching. rewrite list_elem_of_fmap. split.
    + intros ([tool' patterns] & -> & [Hex Hin]%list_elem_of_filter).
      apply CONFIG_MAPPINGS_footprintOf in Hin as ->. cbn [fst snd] in *.
      apply existsb_exists in Hex as (pattern & Hin & Hp).
      exists pattern. by rewrite <- list_elem_of_In in Hin.
    + intros (pattern & Hin & Hp). exists (tool, footprintOf tool). split; [done|].
      apply list_elem_of_filter. split; [|by apply CONFIG_MAPPINGS_footprintOf].
      cbn [snd]. apply existsb_exists. exists pattern. by rewrite <- list_elem_of_In.
Qed.

Example detect_only_cursorrules :
  exec (detectAIConfigurations (Some ["proj"])) onlyCursorrules
  = (Returned [cursor], onlyCursorrules).
Proof. vm_compute. reflexivity. Qed.

(** ** C6: where a switch writes *)

(** C6, as stated, fails: the key [../outside.txt] is accepted, resolves to a
    path outside the workspace [/home/proj], and the switch writes there. *)
Lemma switch_writes_outside_workspace :
  ("../outside.txt" ∈ (configs escapee).*1) ∧
  Path.join ["home"; "proj"] "../outside.txt" = ["home"; "outside.txt"] ∧
  ¬ ["home"; "proj"] `prefix_of` ["home"; "outside.txt"] ∧
  afterEscapee.1 = Returned () ∧
  files homeWithProject !! ["home"; "outside.txt"] = None ∧
  files afterEscapee.2 !! ["home"; "outside.txt"]
    = Some (File (Text "written next to the workspace")).
Proof.
  split; [cbn; by apply list_elem_of_singleton|].
  repeat split; try (by vm_compute). apply (bool_decide_unpack _). by vm_compute.
Qed.

(** C6, amended: [switchProfile] validates no key. A key without a [..]
    segment resolves to a path in the workspace (an absolute key is joined
    below the workspace), and for a profile whose keys have no [..] segment
    a switch creates, changes or removes nothing outside the workspace. *)
Theorem switch_stays_in_workspace (ws : Path.t) (config : settings)
    (now profileName : string) (profile : AIProfile) (w : world) :
  loaded (profilesDoc w) !! profileName = Some profile →
  hasSlash now = false →
  (∀ k, k ∈ (configs profile).*1 → ".." ∉ Path.split k) →
  (∀ k, k ∈ (configs profile).*1 → ws `prefix_of` Path.join ws k) ∧
  (∀ p, ¬ ws `prefix_of` p →
        (∀ n, files w !! p = Some n →
              files (exec (switchProfile (Some ws) config now profileName) w).2 !! p = Some n) ∧
        (¬ p `prefix_of` ws →
         files (exec (switchProfile (Some ws) config now profileName) w).2 !! p = files w !! p)).
Proof.
  intros Hp Hnow Hkeys. split.
  { intros k Hk. apply resolve_stays_below. by apply Hkeys. }
  intros p Hout. rewrite (switchProfile_files _ _ _ _ profile) by done. split.
  - intros n Hn. apply exec_keeps; [|done].
    eapply callsIn_mono; [|apply switchSteps_calls].
    intros c Hc Hm.
    destruct (switchCalls_below ws now profile c p) as (t & Ht & [Htp|Hpt]); auto.
    + apply Hout. by etrans.
    + destruct c as [R c]. destruct Hc as [Hc|[Hc|[Hc|Hc]]]; destruct c; cbn in *; try tauto.
      * destruct Hc as (f & Hf & _ & ->). apply Hout.
        etrans; [|exact Hm]. destruct (join_pattern (backupPathOf ws now) f Hf) as [-> _].
        apply prefix_app_r. etrans; [|by apply backupPathOf_in_backupDir].
        rewrite backupDirOf_eq. by apply prefix_app_r.
      * destruct Hc as (f & Hf & ->). apply Hout. etrans; [|exact Hm].
        destruct (join_pattern ws f Hf) as [-> _]. by apply prefix_app_r.
      * subst p0. apply Hout. by apply (targets_below ws profile).
      * subst p0. apply Hout. by apply (targets_below ws profile).
  - intros Hup. apply exec_unchanged.
    eapply callsIn_mono; [|apply switchSteps_calls].
    intros c Hc.
    assert (¬ (modifies c p ∨ creates c p)) as Hno; [|tauto].
    intros Hmc.
    destruct (switchCalls_below ws now profile c p) as (t & Ht & Htp); auto.
    destruct (prefix_incomparable ws t p); tauto.
Qed.

Lemma switch_stays_in_workspace_witness :
  ["proj"] `prefix_of` Path.join ["proj"] "notes/ai.md" ∧
  files (exec (switchProfile (Some ["proj"]) withBackup "2024-12-16T10:00:00.000Z" "planner")
              (storeWith twoProfiles (list_to_map [ (["proj"], Dir);
                                                    (["elsewhere"], File (Text "mine")) ]))).2
    !! ["elsewhere"] = Some (File (Text "mine")).
Proof.
  destruct (switch_stays_in_workspace ["proj"] withBackup "2024-12-16T10:00:00.000Z"
              "planner" planner
              (storeWith twoProfiles (list_to_map [ (["proj"], Dir);
                                                    (["elsewhere"], File (Text "mine")) ])))
    as [Hkeys Hout].
  - by vm_compute.
  - by vm_compute.
  - apply Forall_forall. apply (bool_decide_unpack _). by vm_compute.
  - split.
    + apply Hkeys. apply (bool_decide_unpack _). by vm_compute.
    + destruct (Hout ["elsewhere"]) as [Hkept _].
      * apply (bool_decide_unpack _). by vm_compute.
      * apply Hkept. by vm_compute.
Defined.

(** ** C7: overlapping switches *)

(** C7, as stated, fails: with the calls of two switches completing in the
    order of [overlapping], neither invocation is rejected, both return, and
    the workspace ends with the files of both profiles, which is the result of
    neither order of running one after the other. *)
Lemma overlapping_switches_interleave :
  afterOverlap.1 = (Ret (), Ret ()) ∧
  files afterOverlap.2 !! ["proj"; ".cursorrules"] = Some (File (Text "plan first")) ∧
  files afterOverlap.2 !! ["proj"; ".windsurfrules"] = Some (File (Text "surf")) ∧
  files (exec switchToWindsurfer (exec switchToPlanner emptyProject).2).2
    !! ["proj"; ".cursorrules"] = None ∧
  files (exec switchToPlanner (exec switchToWindsurfer emptyProject).2).2
    !! ["proj"; ".windsurfrules"] = None.
Proof. repeat split; by vm_compute. Qed.

(** C7, amended: [switchProfile] takes no lock. When every call of one
    invocation completes before the first call of the next, the two behave as
    one run after the other; otherwise nothing rejects or delays the second
    invocation, and the steps of the two can interleave, leaving a workspace
    that neither order of running them alone produces. *)
Theorem switches_are_not_serialized :
  (∀ (ws : Path.t) (config : settings) (now1 now2 name1 name2 : string) (w : world),
     interleave
       (replicate (length (trace (switchProfile (Some ws) config now1 name1) w)) true ++
        replicate (length (trace (switchProfile (Some ws) config now2 name2)
                             (exec (switchProfile (Some ws) config now1 name1) w).2)) false)
       (switchProfile (Some ws) config now1 name1)
       (switchProfile (Some ws) config now2 name2) w
     = (finished (exec (switchProfile (Some ws) config now1 name1) w).1,
        finished (exec (switchProfile (Some ws) config now2 name2)
                    (exec (switchProfile (Some ws) config now1 name1) w).2).1,
        (exec (switchProfile (Some ws) config now2 name2)
           (exec (switchProfile (Some ws) config now1 name1) w).2).2)) ∧
  (∃ (ws : Path.t) (config : settings) (now1 now2 name1 name2 : string) (w : world)
     (schedule : list bool) (p : Path.t),
     let s1 := switchProfile (Some ws) config now1 name1 in
     let s2 := switchProfile (Some ws) config now2 name2 in
     (interleave schedule s1 s2 w).1 = (Ret (), Ret ()) ∧
     files (interleave schedule s1 s2 w).2 !! p ≠ files (exec s2 (exec s1 w).2).2 !! p ∧
     files (interleave schedule s1 s2 w).2 ≠ files (exec s1 (exec s2 w).2).2).
Proof.
  split.
  - intros ws config now1 now2 name1 name2 w.
    rewrite interleave_first_to_end.
    rewrite <- (app_nil_r (replicate _ false)), interleave_second_to_end. done.
  - exists ["proj"], noBackup, "2024-12-16T10:00:00.000Z", "2024-12-16T10:00:00.100Z",
      "planner", "windsurfer", emptyProject, overlapping, ["proj"; ".cursorrules"].
    cbv zeta. split; [by vm_compute|]. split; [by vm_compute|].
    intros Heq.
    assert (files (interleave overlapping switchToPlanner switchToWindsurfer emptyProject).2
              !! ["proj"; ".windsurfrules"]
            = files (exec switchToPlanner (exec switchToWindsurfer emptyProject).2).2
              !! ["proj"; ".windsurfrules"]) as Hlook
        by (unfold switchToPlanner, switchToWindsurfer; by rewrite Heq).
    by vm_compute in Hlook.
Qed.

(** ** C8: loading and saving back *)

(** A store with one profile, whose declared file [limits.json] holds the
    number [maxTokens]. *)
Definition limited (maxTokens : json) : json :=
  JObject
    [ ("planner",
       JObject [ ("name", JString "planner");
                 ("description", JString "Plans first");
                 ("configs",
                  JObject [ ("limits.json", JObject [ ("maxTokens", maxTokens) ]) ]);
                 ("ignorePatterns", JString "");
                 ("rules", JString "");
                 ("memoryBank", JString "");
                 ("aiTool", JString "cursor") ]) ].

Definition storeOf (content : json) : Raw.store :=
  {| Raw.doc := Raw.Holds content; Raw.writable := true |}.

(** C8, as stated, fails: [1e400] is read as [Infinity] and written back as
    [null], so the mapping that is loaded after the save is not the one that
    was loaded before it. *)
Lemma load_save_changes_number :
  (Raw.getProfiles (storeOf (limited (JNumber "1e400")))).1
  = Returned (limited (JNumber "1e400")) ∧
  (Raw.loadThenSave (storeOf (limited (JNumber "1e400")))).1 = Returned () ∧
  (Raw.getProfiles (Raw.loadThenSave (storeOf (limited (JNumber "1e400")))).2).1
  = Returned (limited JNull) ∧
  (Raw.getProfiles (Raw.loadThenSave (storeOf (limited (JNumber "1e400")))).2).1
  ≠ (Raw.getProfiles (storeOf (limited (JNumber "1e400")))).1.
Proof.
  assert ((Raw.getProfiles (Raw.loadThenSave (storeOf (limited (JNumber "1e400")))).2).1
          = Returned (limited JNull)) as Hafter by (vm_compute; reflexivity).
  split; [reflexivity|]. split; [reflexivity|]. split; [exact Hafter|].
  rewrite Hafter. discriminate.
Qed.

(** What the save leaves behind, and what the loader then returns. *)
Lemma raw_loadThenSave (s : Raw.store) :
  (Raw.getProfiles (Raw.loadThenSave s).2).1
  = if Raw.writable s
    then match (Raw.getProfiles s).1 with
         | Returned profiles =>
             Returned (if JSON.truthy (JSON.restored profiles)
                       then JSON.restored profiles else JObject [])
         | Thrown e => Thrown e
         end
    else (Raw.getProfiles s).1.
Proof.
  unfold Raw.loadThenSave. rewrite (raw_getProfiles s). cbn [fst].
  unfold Raw.saveProfiles, Raw.writeJSON.
  destruct (Raw.writable s); [|by rewrite raw_getProfiles].
  by rewrite raw_getProfiles.
Qed.

(** C8, amended: when no number of the store document is read as [Infinity]
    or as the negative zero, loading the mapping and saving it back leaves the
    mapping that the loader returns unchanged, whatever the document was and
    whether or not the save went through. *)
Theorem load_save_roundtrip (s : Raw.store) :
  (∀ content, Raw.doc s = Raw.Holds content → JSON.exact content = true) →
  (Raw.getProfiles (Raw.loadThenSave s).2).1 = (Raw.getProfiles s).1.
Proof.
  intros Hexact. rewrite raw_loadThenSave. destruct (Raw.writable s); [|done].
  rewrite raw_getProfiles. cbn [fst].
  destruct (Raw.doc s) as [|raw|content]; try done.
  specialize (Hexact content eq_refl).
  destruct (JSON.truthy content) eqn:Htruthy; [|done].
  by rewrite (restored_exact content Hexact), Htruthy.
Qed.

Lemma load_save_roundtrip_witness :
  JSON.exact (limited (JNumber "8e3")) = true ∧
  (Raw.getProfiles (Raw.loadThenSave (storeOf (limited (JNumber "8e3")))).2).1
  = (Raw.getProfiles (storeOf (limited (JNumber "8e3")))).1.
Proof.
  split; [vm_compute; reflexivity|].
  apply (load_save_roundtrip (storeOf (limited (JNumber "8e3")))).
  intros content [= <-]. vm_compute. reflexivity.
Defined.

(** ** C9: what a switch leaves alone *)

(** C9, as stated, fails: [.github/workflows/ci.yml] is no catalogued
    footprint path, no declared file of the incoming profile, no reserved name
    and not in [.ai-config-backups], and a switch that returns removes it. *)
Lemma switch_removes_below_footprint :
  (ciWorkflow ∉ (Path.join ["proj"] <$> allPatterns)) ∧
  (ciWorkflow ∉ (Path.join ["proj"] <$> (configs windsurfer).*1)) ∧
  (ciWorkflow ∉ reservedPaths ["proj"]) ∧
  ¬ backupDirOf ["proj"] `prefix_of` ciWorkflow ∧
  workflowsAfterSwitch.1 = Returned () ∧
  files projectWithWorkflows !! ciWorkflow = Some (File (Text "on: push")) ∧
  files workflowsAfterSwitch.2 !! ciWorkflow = None.
Proof.
  repeat split; try (by vm_compute);
    apply (bool_decide_unpack _); by vm_compute.
Qed.

(** C9, amended: what exists at a path that is neither a catalogued footprint
    path nor below one, that no declared file of the incoming profile resolves
    to, that is none of the reserved paths and that is not in
    [.ai-config-backups], is still there, unchanged, after [switchProfile],
    however the switch ends. *)
Theorem switch_frame (ws : Path.t) (config : settings) (now profileName : string)
    (profile : AIProfile) (w : world) (p : Path.t) (n : node) :
  loaded (profilesDoc w) !! profileName = Some profile →
  hasSlash now = false →
  (∀ f, f ∈ allPatterns → ¬ Path.join ws f `prefix_of` p) →
  (∀ k, k ∈ (configs profile).*1 → Path.join ws k ≠ p) →
  p ∉ reservedPaths ws →
  ¬ backupDirOf ws `prefix_of` p →
  files w !! p = Some n →
  files (exec (switchProfile (Some ws) config now profileName) w).2 !! p = Some n.
Proof.
  intros Hp Hnow Hfoot Hkeys Hres Hbackup Hn.
  rewrite (switchProfile_files _ _ _ _ profile) by done.
  apply switchSteps_keeps; try done.
  - intros [(k & Hk & ->)|Ht]%writesOf_targets; [by apply (Hkeys k)|done].
  - rewrite backupPathOf_below by done. intros Hpre. apply Hbackup.
    etrans; [|exact Hpre]. unfold backupDirOf.
    change (ws ++ [".ai-config-backups"; "backup-" +:+ dashed now])
      with (ws ++ [".ai-config-backups"] ++ ["backup-" +:+ dashed now]).
    rewrite app_assoc. apply prefix_app_r.
    unfold Path.join. by rewrite resolve_plain by (repeat constructor; done).
Qed.

Lemma switch_frame_witness :
  files (exec (switchProfile (Some ["proj"]) withBackup "2024-12-16T10:00:00.000Z" "windsurfer")
              afterPlanner).2 !! ["proj"; "notes"; "ai.md"]
  = Some (File (Text "planner notes")).
Proof.
  apply (switch_frame ["proj"] withBackup "2024-12-16T10:00:00.000Z" "windsurfer" windsurfer).
  - by vm_compute.
  - by vm_compute.
  - apply Forall_forall. apply (bool_decide_unpack _). by vm_compute.
  - apply Forall_forall. apply (bool_decide_unpack _). by vm_compute.
  - apply (bool_decide_unpack _). by vm_compute.
  - apply (bool_decide_unpack _). by vm_compute.
  - by vm_compute.
Defined.

(** ** C10: creating a profile under a stored name *)

(** C10: [createProfile] under a stored name replaces the record by a fresh
    one, with no declared files and empty text fields; the other records stay. *)
Theorem createProfile_replaces (ws : Path.t) (n d : string) (tool : AIToolType)
    (m : gmap string AIProfile) (old : AIProfile) (w : world) :
  profilesDoc w = DocProfiles m →
  m !! n = Some old →
  profilesWritable w = true →
  ∃ w', exec (createProfile (Some ws) n d tool) w = (Returned (), w') ∧
        files w' = files w ∧
        loaded (profilesDoc w') !! n =
          Some {| name := n;
                  description := if decide (d = "")
                                 then toolName tool +:+ " configuration" else d;
                  configs := []; ignorePatterns := ""; rules := ""; memoryBank := "";
                  aiTool := tool |} ∧
        ∀ n', n' ≠ n → loaded (profilesDoc w') !! n' = m !! n'.
Proof.
  intros Hdoc Hold Hw. unfold createProfile. rewrite exec_saveProfile, Hw, Hdoc.
  eexists. split; [done|]. cbn [files profilesDoc loaded].
  rewrite setProperty_insert by (right; by rewrite Hold).
  split; [done|]. split; [by rewrite lookup_insert_eq|].
  intros n' Hne. by rewrite lookup_insert_ne.
Qed.

Lemma createProfile_replaces_witness :
  ∃ w', exec (createProfile (Some ["proj"]) "react-cursor" "" windsurf)
             (storeWith {[ "react-cursor" := reactCursor ]} ∅) = (Returned (), w') ∧
        loaded (profilesDoc w') !! "react-cursor" =
          Some {| name := "react-cursor"; description := "windsurf configuration";
                  configs := []; ignorePatterns := ""; rules := ""; memoryBank := "";
                  aiTool := windsurf |}.
Proof.
  destruct (createProfile_replaces ["proj"] "react-cursor" "" windsurf
              {[ "react-cursor" := reactCursor ]} reactCursor
              (storeWith {[ "react-cursor" := reactCursor ]} ∅))
    as (w' & Hexec & _ & Hnew & _); [reflexivity|reflexivity|reflexivity|].
  exists w'. split; [exact Hexec|exact Hnew].
Defined.

(** * Further properties

    Properties of the manager, the tree and the commands beyond the claims
    above. *)
(** ** The store *)

(** On an empty store the name [__proto__] stores nothing: [{}] is written. *)
Example saveProfile_proto :
  exec (saveProfile "__proto__" reactCursor) (storeWith ∅ ∅)
  = (Returned (), storeWith ∅ ∅).
Proof. reflexivity. Qed.

(** X1: Saving a profile, over a store document that holds profiles or cannot
    be read (which counts as empty), is one read and one write of the store:
    written is the loaded mapping with the record assigned under its name.
    The record is then stored under its name and every other record is kept;
    only for the name [__proto__], on a store that does not hold it, the
    assignment adds no key and the mapping is written back as it was. When no
    number of the written profiles is read as [Infinity] or as the negative
    zero, [fs.writeJSON] leaves the document that denotes the written mapping,
    and the loader returns that mapping afterwards. *)
Theorem saveProfile_then_getProfiles (n : string) (p : AIProfile) (w : world)
    (m : gmap string AIProfile) :
  profilesWritable w = true →
  (exec getProfiles w).1 = Returned m →
  map_Forall (λ _, exactProfile) (setProperty m n p) →
  ∃ w', exec (saveProfile n p) w = (Returned (), w') ∧
        files w' = files w ∧
        trace (saveProfile n p) w
        = [AnyCall ReadProfilesJSON; AnyCall (WriteProfilesJSON (setProperty m n p))] ∧
        (Raw.writeJSON (encodeProfiles (map_to_list (setProperty m n p)))
           {| Raw.doc := rawDocument (profilesDoc w); Raw.writable := true |}).2
        = {| Raw.doc := rawDocument (profilesDoc w'); Raw.writable := true |} ∧
        exec getProfiles w' = (Returned (setProperty m n p), w') ∧
        (n ≠ "__proto__" ∨ is_Some (m !! n) → setProperty m n p = <[n := p]> m) ∧
        (n = "__proto__" → m !! n = None → setProperty m n p = m).
Proof.
  intros Hw Hm Hexact. rewrite exec_getProfiles in Hm. cbn in Hm. injection Hm as <-.
  rewrite exec_saveProfile, Hw. eexists. split; [done|]. split; [done|].
  split; [apply trace_saveProfile|].
  split; [by rewrite (writeJSON_agree _ _ Hexact)|].
  split; [by rewrite exec_getProfiles|].
  split; [apply setProperty_insert|]. intros ->. apply setProperty_proto.
Qed.

Lemma saveProfile_then_getProfiles_witness :
  ∃ w', exec (saveProfile "react-cursor" reactCursor) brokenStore = (Returned (), w') ∧
        exec getProfiles w' = (Returned {[ "react-cursor" := reactCursor ]}, w').
Proof.
  destruct (saveProfile_then_getProfiles "react-cursor" reactCursor brokenStore ∅)
    as (w' & Hsave & _ & _ & _ & Hload & Hinsert & _).
  - reflexivity.
  - by rewrite exec_getProfiles.
  - apply map_Forall_insert_2; [vm_compute; reflexivity|apply map_Forall_empty].
  - exists w'. split; [exact Hsave|]. rewrite Hload, Hinsert; [done|]. by left.
Defined.

(** ** Switching to a name that is not stored *)


(** A name that is not stored and that [Object.prototype] answers to passes
    the test: the switch backs up and clears, and fails where it reads the
    declared files. *)
Lemma exec_switchProfile_inherited (ws : Path.t) (config : settings)
    (now profileName : string) (w : world) :
  loaded (profilesDoc w) !! profileName = None →
  profileName ∈ inheritedNames →
  exec (switchProfile (Some ws) config now profileName) w =
  recover (exec (switchStepsInherited ws config now) w)
          (λ e w', (Thrown (switchFailure profileName e), w')).
Proof.
  intros Hnone Hname.
  assert (getProperty (loaded (profilesDoc w)) profileName = Inherited) as Hinherited
    by by apply getProperty_Inherited.
  unfold switchProfile. rewrite exec_bind, exec_getProfiles. cbn [continue].
  rewrite Hinherited. by rewrite exec_tryCatch.
Qed.

Example switchProfile_constructor :
  (exec (switchProfile (Some ["proj"]) noBackup sameInstant "constructor") cursorProject).1
  = Thrown (switchFailure "constructor" "Cannot convert undefined or null to object") ∧
  files (exec (switchProfile (Some ["proj"]) noBackup sameInstant "constructor")
              cursorProject).2 !! ["proj"; ".cursorrules"] = None.
Proof. split; vm_compute; reflexivity. Qed.



(** ** What a switch leaves of the world besides the files *)

Definition readCalls (c : anyCall) : Prop :=
  match c with
  | AnyCall ReadProfilesJSON => True
  | _ => False
  end.

Definition storeCalls (c : anyCall) : Prop :=
  match c with
  | AnyCall (WriteProfilesJSON _) => True
  | AnyCall (ConsoleError _) => True
  | _ => False
  end.

Lemma exec_keeps_store {A : Type} (m : prog A) (w : world) :
  callsIn (λ c, ¬ storeCalls c) m →
  profilesDoc (exec m w).2 = profilesDoc w ∧
  profilesWritable (exec m w).2 = profilesWritable w ∧
  logged (exec m w).2 = logged w.
Proof.
  apply (exec_respects (λ c, ¬ storeCalls c)
           (λ w w', profilesDoc w' = profilesDoc w ∧
                    profilesWritable w' = profilesWritable w ∧
                    logged w' = logged w)); try done.
  - intros w1 w2 w3 (?&?&?) (?&?&?). repeat split; congruence.
  - intros R c w1 Hc.
    destruct c; cbn in *; unfold onFiles; cbn; try tauto; try done.
    by destruct (profilesDoc w1) eqn:E; cbn; rewrite ?E.
Qed.

Lemma exec_keeps_shown {A : Type} (m : prog A) (w : world) :
  callsIn (λ c, ¬ noticeCalls c) m → shown (exec m w).2 = shown w.
Proof.
  apply (exec_respects (λ c, ¬ noticeCalls c) (λ w w', shown w' = shown w)); try done.
  - intros w1 w2 w3. congruence.
  - intros R c w1 Hc.
    destruct c; cbn in *; unfold onFiles; cbn; try tauto; try done.
    + by destruct (profilesDoc w1) eqn:E; cbn; rewrite ?E.
    + by destruct (profilesWritable w1) eqn:E; cbn; rewrite ?E.
Qed.


(** What a switch calls after it has read the store, whatever the name. *)
Lemma switchProfile_body_calls (ws : Path.t) (config : settings) (now profileName : string)
    (P : anyCall → Prop) (profiles : gmap string AIProfile) :
  (∀ profile c, profiles !! profileName = Some profile → switchCalls ws now profile c → P c) →
  (∀ c, backupCalls ws now c ∨ clearCalls ws c → P c) →
  callsIn P
    (let failed e :=
       Throw ("Failed to switch to profile " +:+ quote +:+ profileName
              +:+ quote +:+ ": " +:+ e) in
     match getProperty profiles profileName with
     | Undefined => Throw ("Profile " +:+ quote +:+ profileName +:+ quote +:+ " not found")
     | Own profile => tryCatch (switchSteps ws config now profileName profile) failed
     | Inherited => tryCatch (switchStepsInherited ws config now) failed
     end : prog unit).
Proof.
  intros Hown Hinherited. cbv zeta.
  destruct (getProperty profiles profileName) as [profile| |] eqn:Hget.
  - apply callsIn_tryCatch; [|constructor].
    eapply callsIn_mono; [|apply switchSteps_calls].
    intros c. apply Hown. by apply getProperty_Own.
  - apply callsIn_tryCatch; [|constructor].
    eapply callsIn_mono; [|apply switchStepsInherited_calls]. exact Hinherited.
  - constructor.
Qed.

(** X3: A switch does not write the store. After the one read of the store at
    its start it calls neither the reader nor the writer of the store, nor
    [console.error], whatever the name and however it ends: nothing is
    logged. And when the declared file names of the profile have no [..]
    segment, no call of the switch creates, changes or removes anything at a
    path [profilesPath] that is neither in the workspace folder nor above it,
    which is where the store document lies. *)
Theorem switchProfile_leaves_store (ws : Path.t) (config : settings)
    (now profileName : string) (w : world) :
  (∃ rest,
     trace (switchProfile (Some ws) config now profileName) w
     = AnyCall ReadProfilesJSON :: rest ∧
     Forall (λ c, ¬ storeCalls c ∧ ¬ readCalls c) rest ∧
     ∀ profilesPath,
       hasSlash now = false →
       (∀ profile k, loaded (profilesDoc w) !! profileName = Some profile →
                     k ∈ (configs profile).*1 → ".." ∉ Path.split k) →
       ¬ ws `prefix_of` profilesPath →
       ¬ profilesPath `prefix_of` ws →
       Forall (λ c, ¬ modifies c profilesPath ∧ ¬ creates c profilesPath) rest) ∧
  logged (exec (switchProfile (Some ws) config now profileName) w).2 = logged w.
Proof.
  assert (∀ profile c, switchCalls ws now profile c → ¬ storeCalls c ∧ ¬ readCalls c) as Hcalls.
  { intros profile [R c] Hc. unfold switchCalls in Hc. destruct c; cbn in *; tauto. }
  split.
  - unfold switchProfile. rewrite trace_bind, trace_getProfiles, exec_getProfiles.
    eexists. split; [reflexivity|]. split.
    { apply callsIn_trace, switchProfile_body_calls.
      - intros profile c _. apply Hcalls.
      - intros c Hc. apply (Hcalls (freshProfile "" "" other)). unfold switchCalls. tauto. }
    intros profilesPath Hnow Hkeys Hout Hup.
    assert (∀ profile c,
              (∀ k, k ∈ (configs profile).*1 → ".." ∉ Path.split k) →
              switchCalls ws now profile c →
              ¬ modifies c profilesPath ∧ ¬ creates c profilesPath) as Haway.
    { intros profile c Hprofile Hc.
      assert (¬ (modifies c profilesPath ∨ creates c profilesPath)) as Hno; [|tauto].
      intros Hmc.
      destruct (switchCalls_below ws now profile c profilesPath) as (t & Ht & Htp); auto.
      destruct (prefix_incomparable ws t profilesPath); tauto. }
    apply callsIn_trace, switchProfile_body_calls.
    + intros profile c Hp. apply Haway. intros k. by apply Hkeys.
    + intros c Hc. apply (Haway (freshProfile "" "" other)).
      * intros k Hk. cbn in Hk. by apply not_elem_of_nil in Hk.
      * unfold switchCalls. tauto.
  - apply exec_keeps_store. unfold switchProfile. apply callsIn_bind.
    + unfold getProfiles. apply callsIn_tryCatch; [|constructor].
      apply callsIn_bind; [apply callsIn_await; cbn; tauto|]. intros r. constructor.
    + intros profiles. apply switchProfile_body_calls.
      * intros profile c _ Hc. by destruct (Hcalls profile c Hc).
      * intros c Hc. apply (Hcalls (freshProfile "" "" other)). unfold switchCalls. tauto.
Qed.

Lemma switchProfile_leaves_store_witness :
  (∀ c, c ∈ trace (switchProfile (Some ["proj"]) withBackup sameInstant "planner") cursorProject →
        ¬ modifies c ["globalStorage"; "ai-profiles.json"]) ∧
  logged (exec (switchProfile (Some ["proj"]) withBackup sameInstant "planner") cursorProject).2
  = [].
Proof.
  destruct (switchProfile_leaves_store ["proj"] withBackup sameInstant "planner" cursorProject)
    as [(rest & Htrace & _ & Haway) Hlogged].
  split; [|exact Hlogged].
  rewrite Htrace. intros c [->|Hc]%elem_of_cons; [cbn; tauto|].
  specialize (Haway ["globalStorage"; "ai-profiles.json"]).
  eapply (proj1 (Forall_forall _ _)) in Haway as [Hkept _]; [exact Hkept| | | | |exact Hc].
  - vm_compute. reflexivity.
  - intros profile k [= <-]. revert k. apply Forall_forall.
    apply (bool_decide_unpack _). vm_compute. exact I.
  - apply (bool_decide_unpack _). vm_compute. exact I.
  - apply (bool_decide_unpack _). vm_compute. exact I.
Defined.

Lemma quiet_step (m : prog unit) (w : world) :
  callsIn (λ c, ¬ noticeCalls c) m →
  ∃ r w', exec m w = (r, w') ∧ shown w' = shown w.
Proof.
  intros Hm. exists (exec m w).1, (exec m w).2. split; [by destruct (exec m w)|].
  by apply exec_keeps_shown.
Qed.

(** X4: The notification of a switch is shown exactly when the switch returns
    and notifications are enabled; a switch that throws shows nothing. *)
Theorem switch_notification (ws : Path.t) (config : settings) (now profileName : string)
    (profile : AIProfile) (w : world) :
  loaded (profilesDoc w) !! profileName = Some profile →
  shown (exec (switchProfile (Some ws) config now profileName) w).2 =
  match (exec (switchProfile (Some ws) config now profileName) w).1 with
  | Returned _ =>
      if showNotifications config
      then ("Switched to AI profile: " +:+ profileName) :: shown w else shown w
  | Thrown _ => shown w
  end.
Proof.
  intros Hp. rewrite (exec_switchProfile _ _ _ _ profile) by done.
  unfold switchSteps, backupStep.
  destruct (quiet_step (if backupBeforeSwitch config
                        then backupCurrentConfig (Some ws) now else Ret ()) w)
    as (ra & wa & Ha & Hsa).
  { destruct (backupBeforeSwitch config); [|constructor].
    eapply callsIn_mono; [|apply backupCurrentConfig_calls].
    intros [R c] Hc. destruct c; cbn in *; tauto. }
  destruct (quiet_step (removeExisting ws) wa) as (rb & wb & Hb & Hsb).
  { eapply callsIn_mono; [|apply removeExisting_calls].
    intros [R c] Hc. destruct c; cbn in *; tauto. }
  destruct (quiet_step (writeConfigs ws (configs profile)) wb) as (rc & wc & Hcc & Hsc).
  { eapply callsIn_mono; [|apply writeConfigs_calls].
    intros [R c] Hc. destruct c; cbn in *; tauto. }
  destruct (quiet_step (writeSpecialized ws profile) wc) as (rd & wd & Hd & Hsd).
  { eapply callsIn_mono; [|apply writeSpecialized_calls].
    intros [R c] Hc. destruct c; cbn in *; tauto. }
  rewrite exec_bind, Ha. destruct ra as [[]|ea]; cbn [continue recover fst snd]; [|congruence].
  rewrite exec_bind, Hb. destruct rb as [[]|eb]; cbn [continue recover fst snd]; [|congruence].
  rewrite exec_bind, Hcc. destruct rc as [[]|ec]; cbn [continue recover fst snd]; [|congruence].
  rewrite exec_bind, Hd. destruct rd as [[]|ed]; cbn [continue recover fst snd]; [|congruence].
  destruct (showNotifications config); cbn; congruence.
Qed.

Lemma switch_notification_witness :
  shown afterPlanner = ["Switched to AI profile: planner"] ∧
  shown afterFailedBackup.2 = [].
Proof.
  split.
  - apply (switch_notification ["proj"] noBackup "2024-12-16T10:00:00.000Z" "planner" planner
             emptyProject). reflexivity.
  - apply (switch_notification ["proj"] withBackup "2024-12-16T10:00:00.000Z" "windsurfer"
             windsurfer collidingBackup). reflexivity.
Defined.

(** ** Detection and the backup *)

Lemma pattern_outside_backupDir (ws : Path.t) (f : string) :
  f ∈ allPatterns →
  ¬ backupDirOf ws `prefix_of` Path.join ws f ∧ ¬ Path.join ws f `prefix_of` backupDirOf ws.
Proof.
  intros Hf. destruct (join_pattern ws f Hf) as [Hjoin Hne].
  destruct (pattern_not_backups f Hf) as (x & rest & Hsplit & Hx).
  rewrite Hjoin, backupDirOf_eq, Hsplit. split.
  - intros [k Hk]. rewrite <- app_assoc in Hk. apply app_inv_head in Hk.
    injection Hk as Hhead _. congruence.
  - intros [k Hk]. rewrite <- app_assoc in Hk. apply app_inv_head in Hk.
    injection Hk as Hhead _. congruence.
Qed.

Lemma matching_ext (fs fs' : FS.t) (cwd : Path.t) (entries : list (AIToolType * list string)) :
  (∀ entry pattern, entry ∈ entries → pattern ∈ entry.2 →
                    present fs cwd pattern = present fs' cwd pattern) →
  matching fs cwd entries = matching fs' cwd entries.
Proof.
  intros Hsame. unfold matching. f_equal.
  induction entries as [|entry entries IH]; [done|].
  assert (existsb (present fs cwd) entry.2 = existsb (present fs' cwd) entry.2) as Hentry.
  { assert (∀ pattern, pattern ∈ entry.2 →
                       present fs cwd pattern = present fs' cwd pattern) as Hhere
        by (intros pattern Hin; apply (Hsame entry); [left|done]).
    revert Hhere. generalize entry.2. intros patterns.
    induction patterns as [|pattern patterns IHp]; intros Hhere; [done|].
    cbn [existsb]. rewrite (Hhere pattern) by left.
    rewrite IHp; [done|]. intros q Hq. apply Hhere. by right. }
  rewrite !filter_cons. rewrite Hentry.
  rewrite IH; [done|]. intros e q He Hq. apply (Hsame e q); [by right|done].
Qed.

(** X5: Taking a backup, finished or failed, changes nothing of what the
    detector sees. *)
Theorem backup_keeps_detection (ws : Path.t) (now : string) (w : world) :
  hasSlash now = false →
  (exec (detectAIConfigurations (Some ws))
        (exec (backupCurrentConfig (Some ws) now) w).2).1
  = (exec (detectAIConfigurations (Some ws)) w).1.
Proof.
  intros Hnow. unfold detectAIConfigurations. rewrite !exec_detectTools. cbn [fst app].
  f_equal. apply matching_ext. intros [tool patterns] f Hentry Hf. cbn [snd] in Hf.
  assert (f ∈ allPatterns) as Hall by by eapply pattern_in_catalogue.
  unfold present, FS.pathExists.
  rewrite !stat_lookup by by apply join_nonempty.
  destruct (pattern_outside_backupDir ws f Hall) as [Hout Hup].
  destruct (backup_frame ws now w (Path.join ws f) Hnow Hout) as [_ Hsame].
  by rewrite Hsame.
Qed.

Lemma backup_keeps_detection_witness :
  (exec (detectAIConfigurations (Some ["proj"]))
        (exec (backupCurrentConfig (Some ["proj"]) "2024-12-16T10:00:00.000Z")
              collidingBackup).2).1
  = Returned [cursor].
Proof.
  rewrite (backup_keeps_detection ["proj"] "2024-12-16T10:00:00.000Z" collidingBackup);
    [|reflexivity].
  by vm_compute.
Defined.

Lemma backup_rounds_absent (ws backupPath : Path.t) (fs : list string) (w : world) :
  (∀ f, f ∈ fs → f ∈ allPatterns ∧ files w !! Path.join ws f = None) →
  exec (forEach fs (backupOne ws backupPath)) w = (Returned (), w).
Proof.
  induction fs as [|f fs IH]; intros Habsent; [done|].
  rewrite exec_forEach_cons. unfold backupOne at 1.
  destruct (Habsent f) as [Hf Hnone]; [left|].
  rewrite exec_backupPair_absent; [|by apply join_nonempty|done].
  cbn [continue]. apply IH. intros g Hg. apply Habsent. by right.
Qed.

(** X6: A backup in a workspace that holds no catalogued path makes the
    directory [.ai-config-backups], if it can, and nothing else: no directory
    of the time stamp is left behind. *)
Theorem backup_of_nothing (ws : Path.t) (now : string) (w : world) :
  (∀ f, f ∈ allPatterns → files w !! Path.join ws f = None) →
  ∃ r w',
    exec (backupCurrentConfig (Some ws) now) w = (r, w') ∧
    (∀ p, ¬ p `prefix_of` backupDirOf ws → files w' !! p = files w !! p) ∧
    ((∀ q d, q `prefix_of` backupDirOf ws → files w !! q ≠ Some (File d)) →
     r = Returned () ∧ files w' !! backupDirOf ws = Some Dir).
Proof.
  intros Habsent.
  rewrite exec_backupCurrentConfig, exec_await. cbn [perform]. unfold onFiles.
  pose proof (mkdirs_other [] (backupDirOf ws) (files w)) as Hother.
  pose proof (mkdirs_ok [] (backupDirOf ws) (files w)) as Hok.
  pose proof (mkdirs_made [] (backupDirOf ws) (files w)) as Hmade.
  unfold FS.ensureDir.
  destruct (FS.mkdirs [] (backupDirOf ws) (files w)) as [[[]|e] fs1]; cbn [fst snd] in *.
  - cbn [continue]. rewrite backup_rounds_absent.
    + cbn [recover]. eexists _, _. split; [done|]. cbn [files withFiles].
      split; [done|]. intros _. split; [done|].
      apply Hmade; [done|]. rewrite backupDirOf_eq. by destruct ws.
    + intros f Hf. split; [done|]. cbn [files withFiles]. rewrite Hother; [by apply Habsent|].
      by apply pattern_outside_backupDir.
  - cbn [continue recover]. eexists _, _. split; [done|]. cbn [files withFiles].
    split; [done|]. intros Hfree. by specialize (Hok Hfree).
Qed.

Lemma backup_of_nothing_witness :
  ∃ r w',
    exec (backupCurrentConfig (Some ["proj"]) "2024-12-16T10:00:00.000Z") emptyProject = (r, w') ∧
    files w' !! backupPathOf ["proj"] "2024-12-16T10:00:00.000Z" = None ∧
    r = Returned () ∧ files w' !! backupDirOf ["proj"] = Some Dir.
Proof.
  destruct (backup_of_nothing ["proj"] "2024-12-16T10:00:00.000Z" emptyProject)
    as (r & w' & Hexec & Hsame & Hok).
  - apply Forall_forall. apply (bool_decide_unpack _). by vm_compute.
  - exists r, w'. split; [done|]. split.
    + rewrite Hsame; [by vm_compute|]. apply (bool_decide_unpack _). by vm_compute.
    + apply Hok. apply no_file_check. apply (bool_decide_unpack _). by vm_compute.
Defined.

(** ** A backup is complete *)

Lemma NoDup_omap_inj {A B : Type} (f : A → option B) (l : list A) :
  (∀ x y z, x ∈ l → y ∈ l → f x = Some z → f y = Some z → x = y) →
  NoDup l → NoDup (omap f l).
Proof.
  induction l as [|a l IH]; intros Hinj Hnd; [constructor|].
  apply NoDup_cons in Hnd as [Hnotin Hnd]. cbn [omap list_omap].
  assert (NoDup (omap f l)) as Hrest.
  { apply IH; [|done]. intros x y z Hx Hy. apply Hinj; by right. }
  destruct (f a) as [b|] eqn:Hfa; [|done].
  apply NoDup_cons. split; [|done].
  intros (x & Hx & Hfx)%list_elem_of_omap.
  assert (x = a) as -> by (apply (Hinj x a b); [by right|left|done|done]).
  done.
Qed.

Lemma below_elem (fs : FS.t) (src rel : Path.t) (n : node) :
  (rel, n) ∈ FS.below fs src ↔ rel ≠ [] ∧ fs !! (src ++ rel) = Some n.
Proof.
  unfold FS.below. rewrite merge_sort_Permutation, list_elem_of_omap. split.
  - intros ([k v] & Hin%elem_of_map_to_list & Hf). cbn [fst snd] in Hf.
    destruct (decide (src `prefix_of` k ∧ k ≠ src)) as [[[r ->] Hne]|]; [|done].
    injection Hf as <- <-. rewrite drop_app_length. split; [|done].
    intros ->. by rewrite app_nil_r in Hne.
  - intros [Hne Hl]. exists (src ++ rel, n). split; [by apply elem_of_map_to_list|].
    cbn [fst snd]. rewrite decide_True; [by rewrite drop_app_length|].
    split; [by apply prefix_app_r|]. intros Heq. apply Hne.
    apply (app_inv_head src). by rewrite app_nil_r.
Qed.

Lemma below_NoDup (fs : FS.t) (src : Path.t) : NoDup (FS.below fs src).*1.
Proof.
  apply NoDup_fmap_fst.
  - intros rel n1 n2 [_ H1]%below_elem [_ H2]%below_elem. congruence.
  - unfold FS.below. rewrite merge_sort_Permutation.
    apply NoDup_omap_inj; [|apply NoDup_map_to_list].
    intros [k1 v1] [k2 v2] [rel n] _ _. cbn [fst snd].
    destruct (decide (src `prefix_of` k1 ∧ k1 ≠ src)) as [[[r1 ->] _]|]; [|done].
    destruct (decide (src `prefix_of` k2 ∧ k2 ≠ src)) as [[[r2 ->] _]|]; [|done].
    rewrite !drop_app_length. congruence.
Qed.

Lemma copyEntries_untouched (dest : Path.t) (entries : list (Path.t * node)) (fs : FS.t)
    (q : Path.t) :
  (∀ rel, rel ∈ entries.*1 → dest ++ rel ≠ q) →
  (FS.copyEntries dest entries fs).2 !! q = fs !! q.
Proof.
  revert fs. induction entries as [|[rel n] entries IH]; intros fs Hq; [done|].
  cbn [FS.copyEntries].
  destruct (FS.kindConflict n (fs !! (dest ++ rel))); [done|].
  rewrite IH by (intros r Hr; apply Hq; by right).
  apply lookup_insert_ne. apply Hq. by left.
Qed.

Lemma copyEntries_result (dest : Path.t) (entries : list (Path.t * node)) (fs : FS.t)
    (rel : Path.t) (n : node) :
  NoDup entries.*1 →
  (FS.copyEntries dest entries fs).1 = Returned () →
  (rel, n) ∈ entries →
  (FS.copyEntries dest entries fs).2 !! (dest ++ rel) = Some n.
Proof.
  revert fs. induction entries as [|[rel0 n0] entries IH]; intros fs Hnd Hok Hin.
  { by apply elem_of_nil in Hin. }
  cbn [fmap list_fmap fst] in Hnd. apply NoDup_cons in Hnd as [Hfresh Hnd].
  cbn [FS.copyEntries] in *.
  destruct (FS.kindConflict n0 (fs !! (dest ++ rel0))); [done|].
  apply elem_of_cons in Hin as [Heq|Hin].
  - injection Heq as -> ->. rewrite copyEntries_untouched; [by rewrite lookup_insert_eq|].
    intros r Hr Heq. apply app_inv_head in Heq. by subst r.
  - by apply IH.
Qed.

Lemma copy_other (fs : FS.t) (src dest q : Path.t) :
  ¬ dest `prefix_of` q → ¬ q `prefix_of` dest →
  (FS.copy fs src dest).2 !! q = fs !! q.
Proof.
  intros Hdown Hup. destruct (fs !! q) as [n|] eqn:Hq.
  - by apply copy_keeps.
  - by apply copy_no_create.
Qed.

(** [fs.copy] that returned has copied the source with all below it. *)
Lemma copy_result (fs : FS.t) (src dest rel : Path.t) (n : node) :
  src ≠ [] →
  (∀ d, fs !! src = Some (File d) → rel = []) →
  (FS.copy fs src dest).1 = Returned () →
  fs !! (src ++ rel) = Some n →
  (FS.copy fs src dest).2 !! (dest ++ rel) = Some n.
Proof.
  intros Hsrc Hfile. unfold FS.copy. rewrite (stat_lookup fs src) by done.
  destruct (fs !! src) as [s|] eqn:Hs; [|done].
  destruct (decide (src = dest)); [done|].
  destruct (FS.kindConflict s (FS.stat fs dest)); [done|].
  destruct (FS.isDir s && bool_decide (src `prefix_of` dest)); [done|].
  destruct (if FS.pathExists fs (Path.dirname dest)
            then (Returned (), fs) else FS.ensureDir fs (Path.dirname dest))
    as [[[]|e] fs1]; [|done].
  destruct (FS.stat fs1 (Path.dirname dest)) as [[|d']|]; [|by destruct s|by destruct s].
  destruct s as [|d].
  - intros Hok Hn. destruct rel as [|x rel].
    + rewrite app_nil_r in *. rewrite Hs in Hn. injection Hn as <-.
      rewrite copyEntries_untouched; [by rewrite lookup_insert_eq|].
      intros r Hr Heq. apply list_elem_of_fmap in Hr as ([r' n'] & -> & Hin).
      apply below_elem in Hin as [Hne _]. cbn [fst] in Heq.
      apply Hne. apply (app_inv_head dest). by rewrite app_nil_r.
    + apply copyEntries_result; [apply below_NoDup|done|].
      by apply below_elem.
  - intros _ Hn. rewrite (Hfile d eq_refl) in *. rewrite app_nil_r in *.
    rewrite Hs in Hn. injection Hn as <-. cbn [snd]. by rewrite lookup_insert_eq.
Qed.

Lemma below_file_empty (fs : FS.t) (src rel : Path.t) (d : fileData) :
  wellFormed fs → src ≠ [] →
  fs !! src = Some (File d) → is_Some (fs !! (src ++ rel)) → rel = [].
Proof.
  intros Hwf Hsrc Hfile Hsome. destruct rel as [|x rel]; [done|].
  assert (is_Some (fs !! (src ++ [x]))) as Hchild.
  { apply (wellFormed_ancestors fs (src ++ [x]) rel); [done|by destruct src|].
    by rewrite <- app_assoc. }
  apply Hwf in Hchild. rewrite stat_lookup in Hchild by done. congruence.
Qed.

Section BackupComplete.

Context (ws : Path.t) (now : string) (w0 : world).
Hypothesis Hnow : hasSlash now = false.
Hypothesis Hwf : wellFormed (files w0).

(** The catalogued entries of the workspace are as they were. *)
Definition sourcesKept (w : world) : Prop :=
  ∀ f rel, f ∈ allPatterns →
           files w !! (Path.join ws f ++ rel) = files w0 !! (Path.join ws f ++ rel).

(** What was at or below the catalogued path [f] has its copy. *)
Definition copiedAt (f : string) (w : world) : Prop :=
  ∀ rel n, files w0 !! (Path.join ws f ++ rel) = Some n →
           files w !! (Path.join (backupPathOf ws now) f ++ rel) = Some n.

Lemma source_not_at_dest (f g : string) (rel : Path.t) :
  f ∈ allPatterns → g ∈ allPatterns →
  ¬ Path.join (backupPathOf ws now) g `prefix_of` Path.join ws f ++ rel ∧
  ¬ Path.join ws f ++ rel `prefix_of` Path.join (backupPathOf ws now) g.
Proof.
  intros Hf Hg.
  pose proof (pattern_not_in_backup ws now f g (Path.join ws f ++ rel) Hnow Hf Hg) as Hno.
  split; intros H; apply Hno; try (by apply prefix_app_r); tauto.
Qed.

Lemma complete_round (g : string) (seen : list string) (w w' : world) :
  g ∈ allPatterns → (∀ f, f ∈ seen → f ∈ allPatterns) →
  sourcesKept w → (∀ f, f ∈ seen → copiedAt f w) →
  exec (backupOne ws (backupPathOf ws now) g) w = (Returned (), w') →
  sourcesKept w' ∧ (∀ f, f ∈ g :: seen → copiedAt f w').
Proof.
  intros Hg Hseen Hkept Hcopied.
  assert (Path.join ws g ≠ []) as Hsrc by by apply join_nonempty.
  unfold backupOne, backupPair.
  rewrite exec_bind, exec_await. cbn [perform continue]. unfold FS.pathExists.
  rewrite stat_lookup by done.
  destruct (files w !! Path.join ws g) as [s|] eqn:Hs.
  - rewrite exec_bind, !exec_await. cbn [perform]. unfold onFiles.
    set (dest := Path.join (backupPathOf ws now) g).
    pose proof (mkdirs_keeps [] (Path.dirname dest) (files w)) as Hmk.
    pose proof (mkdirs_other [] (Path.dirname dest) (files w)) as Hmo.
    unfold FS.ensureDir.
    destruct (FS.mkdirs [] (Path.dirname dest) (files w)) as [[[]|e] fs1]; [|done].
    cbn [fst snd continue files withFiles] in *.
    rewrite exec_await. cbn [perform]. unfold onFiles. cbn [files withFiles].
    destruct (FS.copy fs1 (Path.join ws g) dest) as [r fs2] eqn:Hcopy.
    cbn [fst snd]. intros Hret. injection Hret as -> <-. cbn [files withFiles].
    assert (∀ f rel, f ∈ allPatterns →
                     fs1 !! (Path.join ws f ++ rel) = files w0 !! (Path.join ws f ++ rel))
      as Hkept1.
    { intros f rel Hf. rewrite Hmo; [by apply Hkept|]. simpl. intros Hpre.
      destruct (source_not_at_dest f g rel Hf Hg) as [_ Hno]. apply Hno.
      etrans; [exact Hpre|apply dirname_prefix]. }
    split.
    + intros f rel Hf. cbn [files withFiles].
      replace fs2 with (FS.copy fs1 (Path.join ws g) dest).2 by by rewrite Hcopy.
      rewrite copy_other; [by apply Hkept1|..]; by apply source_not_at_dest.
    + intros f Hin rel n Hn.
      assert (f ∈ allPatterns) as Hf.
      { apply elem_of_cons in Hin as [->|Hin]; [done|by apply Hseen]. }
      cbn [files withFiles].
      replace fs2 with (FS.copy fs1 (Path.join ws g) dest).2 by by rewrite Hcopy.
      destruct (decide (dest `prefix_of` Path.join (backupPathOf ws now) f ++ rel))
        as [[rel' Hrel]|Hnot].
      * assert (Path.join ws f ++ rel = Path.join ws g ++ rel') as Hsame.
        { unfold dest in Hrel.
          destruct (join_pattern (backupPathOf ws now) f Hf) as [Hbf _].
          destruct (join_pattern (backupPathOf ws now) g Hg) as [Hbg _].
          destruct (join_pattern ws f Hf) as [Hwf' _].
          destruct (join_pattern ws g Hg) as [Hwg _].
          rewrite Hbf, Hbg, <- !app_assoc in Hrel. apply app_inv_head in Hrel.
          by rewrite Hwf', Hwg, <- !app_assoc, Hrel. }
        rewrite Hrel. rewrite Hsame in Hn.
        apply copy_result; [done| |by rewrite Hcopy|by rewrite Hkept1].
        intros d Hd. apply (below_file_empty (files w0) (Path.join ws g) rel' d); [done|done| |by eexists].
        specialize (Hkept1 g [] Hg). rewrite !app_nil_r in Hkept1. by rewrite <- Hkept1.
      * apply elem_of_cons in Hin as [->|Hin].
        { destruct Hnot. by apply prefix_app_r. }
        apply copy_keeps; [done|]. apply Hmk. by apply Hcopied.
  - cbn [continue]. intros Hret. injection Hret as <-. split; [done|].
    intros f [->|Hin]%elem_of_cons; [|by apply Hcopied].
    intros rel n Hn. exfalso.
    assert (is_Some (files w0 !! Path.join ws g)) as [s Hs0].
    { apply (wellFormed_ancestors (files w0) (Path.join ws g) rel); [done|done|by eexists]. }
    specialize (Hkept g [] Hg). rewrite !app_nil_r in Hkept. congruence.
Qed.

Lemma complete_rounds (todo seen : list string) (w w' : world) :
  (∀ f, f ∈ todo → f ∈ allPatterns) → (∀ f, f ∈ seen → f ∈ allPatterns) →
  sourcesKept w → (∀ f, f ∈ seen → copiedAt f w) →
  exec (forEach todo (backupOne ws (backupPathOf ws now))) w = (Returned (), w') →
  sourcesKept w' ∧ (∀ f, f ∈ seen ∨ f ∈ todo → copiedAt f w').
Proof.
  revert seen w. induction todo as [|g todo IH]; intros seen w Htodo Hseen Hkept Hcopied Hexec.
  - cbn in Hexec. injection Hexec as <-. split; [done|].
    intros f [Hf|Hf]; [by apply Hcopied|by apply elem_of_nil in Hf].
  - apply exec_forEach_returned in Hexec as (w1 & Hround & Hrest).
    destruct (complete_round g seen w w1) as [Hkept1 Hcopied1]; try done.
    { apply Htodo. left. }
    destruct (IH (g :: seen) w1) as [Hkept' Hcopied']; try done.
    { intros f Hf. apply Htodo. by right. }
    { intros f [->|Hf]%elem_of_cons; [apply Htodo; left|by apply Hseen]. }
    split; [done|]. intros f [Hf|[->|Hf]%elem_of_cons]; apply Hcopied'.
    + left. by right.
    + left. left.
    + by right.
Qed.

Lemma backup_complete (w' : world) :
  exec (backupCurrentConfig (Some ws) now) w0 = (Returned (), w') →
  sourcesKept w' ∧ ∀ f, f ∈ allPatterns → copiedAt f w'.
Proof.
  rewrite exec_backupCurrentConfig, exec_await. cbn [perform]. unfold onFiles.
  pose proof (mkdirs_other [] (backupDirOf ws) (files w0)) as Hother.
  unfold FS.ensureDir.
  destruct (FS.mkdirs [] (backupDirOf ws) (files w0)) as [[[]|e] fs1]; [|done].
  cbn [fst snd continue] in *.
  destruct (exec (forEach allPatterns (backupOne ws (backupPathOf ws now))) (withFiles w0 fs1))
    as [[[]|e] w1] eqn:Hloop; [|done].
  cbn [recover]. intros Hret. injection Hret as <-.
  destruct (complete_rounds allPatterns [] (withFiles w0 fs1) w1) as [Hkept Hcopied];
    try done.
  - intros f Hf. by apply elem_of_nil in Hf.
  - intros f rel Hf. cbn [files withFiles]. apply Hother. simpl. intros Hpre.
    destruct (pattern_outside_backupDir ws f Hf) as [_ Hno]. apply Hno.
    etrans; [|exact Hpre]. by apply prefix_app_r.
  - intros f Hf. by apply elem_of_nil in Hf.
  - split; [done|]. intros f Hf. apply Hcopied. by right.
Qed.

End BackupComplete.

Definition backupOfWorkflows : outcome unit * world :=
  exec (backupCurrentConfig (Some ["proj"]) sameInstant) projectWithWorkflows.

(** X7: A backup that returns holds, under the directory of its time stamp, a copy
    of everything that was at or below a catalogued path of the workspace,
    files and directories alike, and the originals are as they were. *)
Theorem backup_is_complete (ws : Path.t) (now : string) (w : world)
    (f : string) (rel : Path.t) (n : node) :
  hasSlash now = false →
  wellFormed (files w) →
  (exec (backupCurrentConfig (Some ws) now) w).1 = Returned () →
  f ∈ allPatterns →
  files w !! (Path.join ws f ++ rel) = Some n →
  files (exec (backupCurrentConfig (Some ws) now) w).2
    !! (Path.join (backupPathOf ws now) f ++ rel) = Some n ∧
  files (exec (backupCurrentConfig (Some ws) now) w).2 !! (Path.join ws f ++ rel) = Some n.
Proof.
  intros Hnow Hwf Hexec Hf Hn.
  destruct (exec (backupCurrentConfig (Some ws) now) w) as [r w'] eqn:Hrun.
  cbn [fst snd] in *. subst r.
  destruct (backup_complete ws now w Hnow Hwf w' Hrun) as [Hkept Hcopied].
  split; [by apply Hcopied|]. by rewrite Hkept.
Qed.

Lemma backup_is_complete_witness :
  files backupOfWorkflows.2
    !! (Path.join (backupPathOf ["proj"] sameInstant) ".github" ++ ["workflows"; "ci.yml"])
  = Some (File (Text "on: push")) ∧
  files backupOfWorkflows.2 !! (Path.join ["proj"] ".github" ++ ["workflows"; "ci.yml"])
  = Some (File (Text "on: push")).
Proof.
  apply (backup_is_complete ["proj"] sameInstant projectWithWorkflows
           ".github" ["workflows"; "ci.yml"] (File (Text "on: push"))).
  - vm_compute. reflexivity.
  - apply wellFormed_check. apply (bool_decide_unpack _). vm_compute. exact I.
  - vm_compute. reflexivity.
  - apply (bool_decide_unpack _). vm_compute. exact I.
  - vm_compute. reflexivity.
Defined.

(** ** The backup of a switch *)

Definition switchWithBackup : outcome unit * world :=
  exec (switchProfile (Some ["proj"]) withBackup sameInstant "windsurfer") projectWithWorkflows.

(** X8: After a switch with backup that returned, the backup holds what the
    workspace held at or below the catalogued paths before the switch,
    although the switch has removed the originals; provided the profile
    writes nothing into [.ai-config-backups]. *)
Theorem switch_keeps_its_backup (ws : Path.t) (config : settings) (now profileName : string)
    (profile : AIProfile) (w : world) (f : string) (rel : Path.t) (n : node) :
  loaded (profilesDoc w) !! profileName = Some profile →
  backupBeforeSwitch config = true →
  hasSlash now = false →
  wellFormed (files w) →
  (∀ t, t ∈ (writesOf ws profile).*1 → ¬ backupDirOf ws `prefix_of` t) →
  (exec (switchProfile (Some ws) config now profileName) w).1 = Returned () →
  f ∈ allPatterns →
  files w !! (Path.join ws f ++ rel) = Some n →
  files (exec (switchProfile (Some ws) config now profileName) w).2
    !! (Path.join (backupPathOf ws now) f ++ rel) = Some n.
Proof.
  intros Hp Hcfg Hnow Hwf Htargets Hexec Hf Hn.
  destruct (exec (switchProfile (Some ws) config now profileName) w) as [r w'] eqn:Hrun.
  cbn [fst snd] in *. subst r. rename Hrun into Hexec.
  apply (switchProfile_returned _ _ _ _ profile) in Hexec; [|done].
  apply switchSteps_returned in Hexec as (wb & wc & wd & we & Hb & Hc & Hd & He & ->).
  rewrite Hcfg in Hb.
  destruct (backup_complete ws now w Hnow Hwf wb Hb) as [_ Hcopied].
  specialize (Hcopied f Hf rel n Hn).
  set (q := Path.join (backupPathOf ws now) f ++ rel) in *.
  assert (backupDirOf ws `prefix_of` q) as Hin.
  { unfold q. apply prefix_app_r.
    destruct (join_pattern (backupPathOf ws now) f Hf) as [-> _].
    apply prefix_app_r. by apply backupPathOf_in_backupDir. }
  assert (∀ writes c, (∀ t, t ∈ writes.*1 → t ∈ (writesOf ws profile).*1) →
                      writeCalls writes c → ¬ modifies c q) as Hwrites.
  { intros writes [R c] Hsub Hcall. destruct c; cbn in *; try tauto.
    - intros ->. by apply (Htargets q); [apply Hsub|].
    - intros ->. by apply (Htargets q); [apply Hsub|]. }
  replace we with (exec (writeSpecialized ws profile) wd).2 by by rewrite He.
  apply exec_keeps.
  { eapply callsIn_mono; [|apply writeSpecialized_calls]. intros c. apply Hwrites.
    intros t Ht. unfold writesOf. rewrite fmap_app. apply elem_of_app. by right. }
  replace wd with (exec (writeConfigs ws (configs profile)) wc).2 by by rewrite Hd.
  apply exec_keeps.
  { eapply callsIn_mono; [|apply writeConfigs_calls]. intros c. apply Hwrites.
    intros t Ht. unfold writesOf. rewrite fmap_app. apply elem_of_app. by left. }
  replace wc with (exec (removeExisting ws) wb).2 by by rewrite Hc.
  apply exec_keeps; [|done].
  eapply callsIn_mono; [|apply removeExisting_calls].
  intros [R c] Hcall. destruct c; cbn in *; try tauto.
  destruct Hcall as (g & Hg & ->). intros Hpre.
  apply (pattern_not_in_backup ws now g f q Hnow Hg Hf Hpre).
  left. by apply prefix_app_r.
Qed.

Lemma switch_keeps_its_backup_witness :
  files switchWithBackup.2 !! ciWorkflow = None ∧
  files switchWithBackup.2
    !! (Path.join (backupPathOf ["proj"] sameInstant) ".github" ++ ["workflows"; "ci.yml"])
  = Some (File (Text "on: push")).
Proof.
  split; [vm_compute; reflexivity|].
  apply (switch_keeps_its_backup ["proj"] withBackup sameInstant "windsurfer" windsurfer
           projectWithWorkflows
           ".github" ["workflows"; "ci.yml"] (File (Text "on: push"))).
  - vm_compute. reflexivity.
  - reflexivity.
  - vm_compute. reflexivity.
  - apply wellFormed_check. apply (bool_decide_unpack _). vm_compute. exact I.
  - apply Forall_forall. apply (bool_decide_unpack _). vm_compute. exact I.
  - vm_compute. reflexivity.
  - apply (bool_decide_unpack _). vm_compute. exact I.
  - vm_compute. reflexivity.
Defined.

(** ** What a switch makes *)

(** Calls that take nothing away. *)
Definition additive (c : anyCall) : Prop :=
  match c with
  | AnyCall (Remove _) => False
  | AnyCall (Copy _ _) => False
  | _ => True
  end.

Lemma writeFile_keeps_dir (fs : FS.t) (p : Path.t) (slash : bool) (d : fileData) (q : Path.t) :
  fs !! q = Some Dir → (FS.writeFile fs p slash d).2 !! q = Some Dir.
Proof.
  intros Hq. destruct (decide (p = q)) as [->|Hne]; [|by rewrite writeFile_other].
  unfold FS.writeFile. destruct slash; [done|].
  destruct q as [|x q]; [done|]. cbn [FS.stat]. by rewrite Hq.
Qed.

Lemma writeFile_keeps_existing (fs : FS.t) (p : Path.t) (slash : bool) (d : fileData)
    (q : Path.t) :
  is_Some (fs !! q) → is_Some ((FS.writeFile fs p slash d).2 !! q).
Proof.
  intros Hq. destruct (decide (p = q)) as [->|Hne]; [|by rewrite writeFile_other].
  unfold FS.writeFile. destruct slash; [done|].
  destruct (FS.stat fs q) as [[|d']|]; [done| |].
  - destruct (FS.stat fs (Path.dirname q)) as [[|d'']|]; [|done|done].
    cbn [snd]. rewrite lookup_insert_eq. by eexists.
  - destruct (FS.stat fs (Path.dirname q)) as [[|d'']|]; [|done|done].
    cbn [snd]. rewrite lookup_insert_eq. by eexists.
Qed.

Lemma exec_additive {A : Type} (m : prog A) (w : world) (p : Path.t) :
  callsIn additive m →
  (is_Some (files w !! p) → is_Some (files (exec m w).2 !! p)) ∧
  (files w !! p = Some Dir → files (exec m w).2 !! p = Some Dir).
Proof.
  apply (exec_respects additive
           (λ w w', (is_Some (files w !! p) → is_Some (files w' !! p)) ∧
                    (files w !! p = Some Dir → files w' !! p = Some Dir))).
  - done.
  - intros w1 w2 w3 [H1 H1'] [H2 H2']. split; auto.
  - intros R c w1 Hc. destruct c; cbn in *; unfold onFiles; cbn [files withFiles fst snd];
      try tauto; try done.
    + by destruct (profilesDoc w1).
    + by destruct (profilesWritable w1).
    + split.
      * intros [n Hn]. exists n. by apply mkdirs_keeps.
      * apply mkdirs_keeps.
    + split; [apply writeFile_keeps_existing|apply writeFile_keeps_dir].
    + split; [apply writeFile_keeps_existing|apply writeFile_keeps_dir].
Qed.

Lemma mkdirs_prefixes (made todo : Path.t) (fs : FS.t) (q : Path.t) :
  (FS.mkdirs made todo fs).1 = Returned () →
  q `prefix_of` made ++ todo → ¬ q `prefix_of` made →
  (FS.mkdirs made todo fs).2 !! q = Some Dir.
Proof.
  revert made fs. induction todo as [|seg rest IH]; intros made fs Hok Hq Hnot.
  { by rewrite app_nil_r in Hq. }
  cbn [FS.mkdirs] in *.
  assert (∀ fs', (FS.mkdirs (made ++ [seg]) rest (<[made ++ [seg] := Dir]> fs')).1 = Returned () →
                 (FS.mkdirs (made ++ [seg]) rest (<[made ++ [seg] := Dir]> fs')).2 !! q = Some Dir)
    as Hgo.
  { intros fs' Hok'. destruct (decide (q `prefix_of` made ++ [seg])) as [Hpre|Hnpre].
    - assert (q = made ++ [seg]) as ->.
      { destruct Hpre as [k Hk]. destruct (prefix_weak_total q made (made ++ [seg])) as [H|[j Hj]];
          [by exists k|by apply prefix_app_r|done|].
        subst q. rewrite <- app_assoc in Hk. apply app_inv_head in Hk.
        destruct j as [|x j]; [destruct Hnot; by rewrite app_nil_r|].
        destruct j, k; simplify_eq/=. done. }
      apply mkdirs_keeps. by rewrite lookup_insert_eq.
    - apply IH; [done|by rewrite <- app_assoc|done]. }
  destruct (fs !! (made ++ [seg])) as [[|d]|]; [by apply Hgo| done |by apply Hgo].
Qed.

Lemma ensureDir_prefixes (fs : FS.t) (p q : Path.t) :
  (FS.ensureDir fs p).1 = Returned () → q ≠ [] → q `prefix_of` p →
  (FS.ensureDir fs p).2 !! q = Some Dir.
Proof.
  intros Hok Hne Hq. apply mkdirs_prefixes; [done|done|].
  intros [k Hk]. by destruct q.
Qed.

Lemma writeCalls_additive (writes : list (Path.t * fileData)) (c : anyCall) :
  writeCalls writes c → additive c.
Proof. destruct c as [R c]. destruct c; cbn; tauto. Qed.

Lemma writeConfigs_made (ws : Path.t) (entries : list (string * json)) (w w' : world) :
  exec (writeConfigs ws entries) w = (Returned (), w') →
  ∀ t q, t ∈ (configWrites ws entries).*1 → q ≠ [] → q `prefix_of` Path.dirname t →
         files w' !! q = Some Dir.
Proof.
  revert w. induction entries as [|[fileName content] rest IH]; intros w Hexec t q Ht Hq Hpre.
  { by apply elem_of_nil in Ht. }
  assert (exec (writeConfigs ws ((fileName, content) :: rest)) w
          = exec (forEach ((fileName, content) :: rest)
                    (λ '(fileName, content),
                       let filePath := Path.join ws fileName in
                       await (EnsureDir (Path.dirname filePath)) ;;
                       match content with
                       | JString text =>
                           await (WriteFile filePath (Path.endsWithSlash fileName) text)
                       | _ => await (WriteJSON filePath (Path.endsWithSlash fileName) content)
                       end)) w) as Hunfold by done.
  rewrite Hunfold in Hexec. clear Hunfold.
  apply exec_forEach_returned in Hexec as (w1 & Hone & Hrest).
  assert (exec (writeConfigs ws rest) w1 = (Returned (), w')) as Hrest' by exact Hrest.
  clear Hrest.
  cbn [configWrites fmap list_fmap fst] in Ht. apply elem_of_cons in Ht as [->|Ht].
  - replace w' with (exec (writeConfigs ws rest) w1).2 by by rewrite Hrest'.
    apply exec_additive.
    { eapply callsIn_mono; [|apply writeConfigs_calls]. intros c. apply writeCalls_additive. }
    apply exec_bind_returned in Hone as ([] & w0 & Hdir & Hwrite).
    rewrite exec_await in Hdir. cbn [perform] in Hdir. unfold onFiles in Hdir.
    pose proof (ensureDir_prefixes (files w) (Path.dirname (Path.join ws fileName)) q) as Hmade.
    destruct (FS.ensureDir (files w) (Path.dirname (Path.join ws fileName))) as [r fs1].
    cbn [fst snd] in *. injection Hdir as -> <-.
    replace w1 with (exec (match content with
                           | JString text =>
                               await (WriteFile (Path.join ws fileName)
                                        (Path.endsWithSlash fileName) text)
                           | _ => await (WriteJSON (Path.join ws fileName)
                                           (Path.endsWithSlash fileName) content)
                           end) (withFiles w fs1)).2 by by rewrite Hwrite.
    apply exec_additive; [|cbn [files withFiles]; by apply Hmade].
    destruct content; by apply callsIn_await.
  - by apply (IH w1 Hrest' t).
Qed.

Lemma lastWrite_is_Some (writes : list (Path.t * fileData)) (t : Path.t) :
  t ∈ writes.*1 → is_Some (lastWrite writes t).
Proof.
  induction writes as [|[p d] rest IH]; intros Ht; [by apply elem_of_nil in Ht|].
  cbn [lastWrite]. cbn [fmap list_fmap fst] in Ht.
  destruct (lastWrite rest t) as [d'|] eqn:Hrest; [by eexists|].
  apply elem_of_cons in Ht as [->|Ht].
  - rewrite decide_True by done. by eexists.
  - apply IH in Ht. by destruct Ht.
Qed.

(** After a switch that returned, every file the profile writes is there,
    and so is every directory on the way to a declared file. *)
Lemma switchSteps_made (ws : Path.t) (config : settings) (now profileName : string)
    (profile : AIProfile) (w w' : world) :
  exec (switchSteps ws config now profileName profile) w = (Returned (), w') →
  (∀ t q, t ∈ (configWrites ws (configs profile)).*1 → q ≠ [] →
          q `prefix_of` Path.dirname t → files w' !! q = Some Dir) ∧
  (∀ t, t ∈ (writesOf ws profile).*1 → ∃ d, files w' !! t = Some (File d)).
Proof.
  intros Hexec. split.
  - apply switchSteps_returned in Hexec as (wb & wc & wd & we & Hb & Hc & Hd & He & ->).
    intros t q Ht Hq Hpre.
    replace we with (exec (writeSpecialized ws profile) wd).2 by by rewrite He.
    apply exec_additive.
    { eapply callsIn_mono; [|apply writeSpecialized_calls]. intros c. apply writeCalls_additive. }
    by apply (writeConfigs_made ws (configs profile) wc wd Hd t).
  - intros t Ht. destruct (lastWrite_is_Some _ _ Ht) as [d Hd]. exists d.
    by apply (switchSteps_result _ _ _ _ _ _ _ Hexec).
Qed.

Lemma reserved_join (ws t : Path.t) : t ∈ reservedPaths ws → ∃ x, t = ws ++ [x].
Proof.
  unfold reservedPaths. rewrite !elem_of_cons, elem_of_nil.
  intros [->|[->|[->|[]]]]; eexists; unfold Path.join;
    by rewrite resolve_plain by (repeat constructor; done).
Qed.

Lemma specialized_join (ws : Path.t) (profile : AIProfile) (t : Path.t) :
  t ∈ (specializedWrites ws profile).*1 → ∃ x, t = ws ++ [x].
Proof.
  intros Ht. apply reserved_join. unfold reservedPaths.
  apply specializedWrites_targets in Ht as [[_ ->]|[[_ ->]|[_ ->]]];
    rewrite !elem_of_cons; tauto.
Qed.

(** After a switch that returned, a path at or above a file that the profile
    writes exists, if it lies in the workspace below [base]. *)
Lemma switchSteps_on_the_way (ws : Path.t) (config : settings) (now profileName : string)
    (profile : AIProfile) (w w' : world) (t q : Path.t) :
  exec (switchSteps ws config now profileName profile) w = (Returned (), w') →
  t ∈ (writesOf ws profile).*1 → q `prefix_of` t → q ≠ [] → ¬ q `prefix_of` ws →
  is_Some (files w' !! q) ∧ (q ≠ t → files w' !! q = Some Dir).
Proof.
  intros Hexec Ht Hpre Hq Hws.
  destruct (switchSteps_made _ _ _ _ _ _ _ Hexec) as [Hdirs Hfiles].
  destruct (decide (q = t)) as [->|Hne].
  { destruct (Hfiles t Ht) as [d Hd]. split; [by eexists|done]. }
  assert (q `prefix_of` Path.dirname t) as Hdir by by apply strict_prefix_dirname.
  unfold writesOf in Ht. rewrite fmap_app in Ht. apply elem_of_app in Ht as [Ht|Ht].
  - rewrite (Hdirs t q); [split; [by eexists|done]|done..].
  - apply specialized_join in Ht as [x ->]. destruct Hws.
    unfold Path.dirname in Hdir. by rewrite removelast_last in Hdir.
Qed.

Lemma footprint_in_catalogue (tool : AIToolType) (f : string) :
  f ∈ footprintOf tool → f ∈ allPatterns.
Proof.
  intros Hf. apply (pattern_in_catalogue tool (footprintOf tool)); [|done].
  by apply CONFIG_MAPPINGS_footprintOf.
Qed.

Lemma detected_iff (fs : FS.t) (ws : Path.t) (tool : AIToolType) :
  tool ∈ matching fs ws CONFIG_MAPPINGS ↔
  ∃ pattern, pattern ∈ footprintOf tool ∧ present fs ws pattern = true.
Proof.
  unfold matching. rewrite list_elem_of_fmap. split.
  - intros ([tool' patterns] & -> & [Hex Hin]%list_elem_of_filter).
    apply CONFIG_MAPPINGS_footprintOf in Hin as ->. cbn [fst snd] in *.
    apply existsb_exists in Hex as (pattern & Hin & Hp).
    exists pattern. by rewrite <- list_elem_of_In in Hin.
  - intros (pattern & Hin & Hp). exists (tool, footprintOf tool). split; [done|].
    apply list_elem_of_filter. split; [|by apply CONFIG_MAPPINGS_footprintOf].
    cbn [snd]. apply existsb_exists. exists pattern. by rewrite <- list_elem_of_In.
Qed.

Lemma present_iff (fs : FS.t) (ws : Path.t) (f : string) :
  f ∈ allPatterns → present fs ws f = true ↔ is_Some (fs !! Path.join ws f).
Proof.
  intros Hf. unfold present, FS.pathExists. rewrite stat_lookup by by apply join_nonempty.
  destruct (fs !! Path.join ws f); split; done.
Qed.

Lemma pattern_not_above_workspace (ws : Path.t) (f : string) :
  f ∈ allPatterns → ¬ Path.join ws f `prefix_of` ws.
Proof.
  intros Hf. destruct (join_pattern ws f Hf) as [-> Hne]. intros [k Hk].
  rewrite <- app_assoc in Hk. rewrite <- (app_nil_r ws) in Hk at 1.
  apply app_inv_head in Hk. symmetry in Hk. apply app_eq_nil in Hk as [? _]. done.
Qed.

(** ** Detection after a switch *)

(** X9: After a switch that returned, the detector reports a tool exactly when
    the profile wrote a file at or below a path of the tool's footprint; the
    files that were there before and the profile's own tool play no part. *)
Theorem detection_after_switch (ws : Path.t) (config : settings) (now profileName : string)
    (profile : AIProfile) (w : world) :
  loaded (profilesDoc w) !! profileName = Some profile →
  (exec (switchProfile (Some ws) config now profileName) w).1 = Returned () →
  ∃ tools,
    (exec (detectAIConfigurations (Some ws))
          (exec (switchProfile (Some ws) config now profileName) w).2).1 = Returned tools ∧
    ∀ tool, tool ∈ tools ↔
            ∃ f t, f ∈ footprintOf tool ∧ t ∈ (writesOf ws profile).*1 ∧
                   Path.join ws f `prefix_of` t.
Proof.
  intros Hp Hret.
  destruct (exec (switchProfile (Some ws) config now profileName) w) as [r w'] eqn:Hexec.
  cbn [fst snd] in *. subst r.
  apply (switchProfile_returned _ _ _ _ profile) in Hexec; [|done].
  unfold detectAIConfigurations. rewrite exec_detectTools. cbn [fst app].
  eexists. split; [done|]. intros tool. rewrite detected_iff. split.
  - intros (f & Hf & Hpresent). exists f.
    assert (f ∈ allPatterns) as Hall by by eapply footprint_in_catalogue.
    apply present_iff in Hpresent as [n Hn]; [|done].
    destruct (decide (Exists (λ t, Path.join ws f `prefix_of` t) (writesOf ws profile).*1))
      as [Hex|Hnex].
    + apply Exists_exists in Hex as (t & Ht & Hpre). by exists t.
    + destruct (switchSteps_result _ _ _ _ _ _ _ Hexec) as [_ Hclear].
      rewrite Hclear in Hn; [done|done|].
      intros t Ht Hpre. apply Hnex. apply Exists_exists. by exists t.
  - intros (f & t & Hf & Ht & Hpre). exists f. split; [done|].
    assert (f ∈ allPatterns) as Hall by by eapply footprint_in_catalogue.
    apply present_iff; [done|].
    apply (switchSteps_on_the_way ws config now profileName profile w w' t); try done.
    + by apply join_nonempty.
    + by apply pattern_not_above_workspace.
Qed.

Definition archivist : AIProfile :=
  {| name := "archivist"; description := "";
     configs := [("notes/ai.md", JString "keep notes")];
     ignorePatterns := ""; rules := ""; memoryBank := "remember the notes";
     aiTool := cursor |}.

Definition afterArchivist : outcome unit * world :=
  exec (switchProfile (Some ["proj"]) noBackup sameInstant "archivist")
       (storeWith {[ "archivist" := archivist ]} (files cursorProject)).

Lemma detection_after_switch_witness :
  ∃ tools,
    (exec (detectAIConfigurations (Some ["proj"])) afterArchivist.2).1 = Returned tools ∧
    other ∈ tools ∧ aiTool archivist ∉ tools.
Proof.
  destruct (detection_after_switch ["proj"] noBackup sameInstant "archivist" archivist
              (storeWith {[ "archivist" := archivist ]} (files cursorProject)))
    as (tools & Hdetect & Hiff).
  - vm_compute. reflexivity.
  - vm_compute. reflexivity.
  - exists tools. split; [exact Hdetect|]. split.
    + apply Hiff. exists "memory_bank", (Path.join ["proj"] "memory_bank").
      split; [|split]; apply (bool_decide_unpack _); vm_compute; exact I.
    + intros (f & t & Hf & Ht & Hpre)%Hiff.
      assert (Forall (λ f, Forall (λ t, ¬ Path.join ["proj"] f `prefix_of` t)
                             (writesOf ["proj"] archivist).*1)
                     (footprintOf (aiTool archivist))) as Hall
          by (apply (bool_decide_unpack _); vm_compute; exact I).
      rewrite Forall_forall in Hall. specialize (Hall f Hf).
      rewrite Forall_forall in Hall. by apply (Hall t Ht).
Defined.

(** ** Switching again *)








(** ** Overlapping switches *)




Section RespectUnder.

Context (I : world → Prop) (P : anyCall → Prop) (Rel : world → world → Prop).
Hypothesis Rel_refl : ∀ w, Rel w w.
Hypothesis Rel_trans : ∀ w1 w2 w3, Rel w1 w2 → Rel w2 w3 → Rel w1 w3.
Hypothesis Rel_step :
  ∀ (R : Type) (c : call R) (w : world),
    P (AnyCall c) → I w → Rel w (perform c w).2 ∧ I (perform c w).2.



End RespectUnder.






(** ** A switch that fails while writing *)

(** A profile whose second declared file cannot be written: its name ends
    in a separator. *)
Definition clumsy : AIProfile :=
  {| name := "clumsy"; description := "";
     configs := [("notes/ai.md", JString "notes"); ("drafts/", JString "no file name")];
     ignorePatterns := ""; rules := "never written"; memoryBank := ""; aiTool := other |}.

Definition afterClumsy : outcome unit * world :=
  exec (switchProfile (Some ["proj"]) noBackup sameInstant "clumsy")
       (storeWith {[ "clumsy" := clumsy ]} (files cursorProject)).

(** X12: There is no rollback. When the backup step and the clearing step of a
    switch have gone through, no removal having failed, the catalogued paths
    are cleared, and they stay cleared when a later write fails and the switch
    throws. Only a catalogued path at or above a file of the profile can
    exist afterwards. *)
Theorem failed_switch_has_cleared (ws : Path.t) (config : settings) (now profileName : string)
    (profile : AIProfile) (w : world) (f : string) :
  loaded (profilesDoc w) !! profileName = Some profile →
  (exec (backupStep ws config now) w).1 = Returned () →
  (exec (removeExisting ws) (exec (backupStep ws config now) w).2).1 = Returned () →
  f ∈ allPatterns →
  (∀ t, t ∈ (writesOf ws profile).*1 → ¬ Path.join ws f `prefix_of` t) →
  files (exec (switchProfile (Some ws) config now profileName) w).2 !! Path.join ws f = None.
Proof.
  intros Hp Hbackup Hcleared Hf Hfree.
  rewrite (switchProfile_files _ _ _ _ profile) by done.
  unfold switchSteps, backupStep. rewrite exec_bind. unfold backupStep in Hbackup, Hcleared.
  destruct (exec (if backupBeforeSwitch config
                  then backupCurrentConfig (Some ws) now else Ret ()) w)
    as [[[]|e] wb] eqn:Hb; [|done].
  cbn [continue]. rewrite exec_bind. cbn [snd] in Hcleared.
  destruct (removeExisting_cleared ws wb) as [_ Hclear].
  specialize (Hclear f Hf).
  destruct (exec (removeExisting ws) wb) as [[[]|e] wc]; [|done].
  cbn [continue fst snd] in *.
  apply exec_no_create; [|done].
  assert (∀ c, writeCalls (writesOf ws profile) c → ¬ creates c (Path.join ws f)) as Hno.
  { intros [R c] Hcall. destruct c; cbn in *; try tauto.
    - destruct Hcall as (t & Ht & ->). intros Hpre. apply (Hfree t Ht).
      etrans; [exact Hpre|apply dirname_prefix].
    - intros ->. by apply (Hfree _ Hcall).
    - intros ->. by apply (Hfree _ Hcall). }
  apply callsIn_bind.
  { eapply callsIn_mono; [|apply writeConfigs_calls].
    intros c Hcall. by apply Hno, writeCalls_app_l. }
  intros _. apply callsIn_bind.
  { eapply callsIn_mono; [|apply writeSpecialized_calls].
    intros c Hcall. by apply Hno, writeCalls_app_r. }
  intros _. destruct (showNotifications config); [|constructor].
  apply callsIn_await. cbn. tauto.
Qed.

Lemma failed_switch_has_cleared_witness :
  afterClumsy.1
  = Thrown (switchFailure "clumsy" "EISDIR: illegal operation on a directory") ∧
  files cursorProject !! Path.join ["proj"] ".cursorrules"
  = Some (File (Text "original rules")) ∧
  files afterClumsy.2 !! Path.join ["proj"] ".cursorrules" = None.
Proof.
  split; [vm_compute; reflexivity|]. split; [vm_compute; reflexivity|].
  apply (failed_switch_has_cleared ["proj"] noBackup sameInstant "clumsy" clumsy
           (storeWith {[ "clumsy" := clumsy ]} (files cursorProject)) ".cursorrules").
  - vm_compute. reflexivity.
  - reflexivity.
  - vm_compute. reflexivity.
  - apply (bool_decide_unpack _). vm_compute. exact I.
  - apply Forall_forall. apply (bool_decide_unpack _). vm_compute. exact I.
Defined.

(** ** The current profile *)

(** An enumeration lists the entries of the mapping, each once. *)
Definition enumerates (entries : enumeration) : Prop :=
  ∀ m, entries m ≡ₚ map_to_list m.

Lemma enumerates_elem (entries : enumeration) (m : gmap string AIProfile)
    (k : string) (p : AIProfile) :
  enumerates entries → (k, p) ∈ entries m ↔ m !! k = Some p.
Proof. intros Hperm. by rewrite (Hperm m), elem_of_map_to_list. Qed.

Lemma enumerates_values (entries : enumeration) (m : gmap string AIProfile) (p : AIProfile) :
  enumerates entries → p ∈ (entries m).*2 ↔ ∃ k, m !! k = Some p.
Proof.
  intros Hperm. rewrite list_elem_of_fmap. split.
  - intros ([k p'] & -> & Hin). exists k. by apply (enumerates_elem entries).
  - intros [k Hk]. exists (k, p). split; [done|]. by apply (enumerates_elem entries).
Qed.

Lemma enumerates_keys (entries : enumeration) (m : gmap string AIProfile) :
  enumerates entries → NoDup (entries m).*1.
Proof. intros Hperm. rewrite (Hperm m). apply NoDup_fst_map_to_list. Qed.

Lemma find_false {A : Type} (f : A → bool) (l : list A) :
  (∀ x, x ∈ l → f x = false) → find f l = None.
Proof.
  induction l as [|a l IH]; intros Hf; [done|]. cbn [find].
  rewrite (Hf a) by left. apply IH. intros x Hx. apply Hf. by right.
Qed.

Lemma find_true {A : Type} (f : A → bool) (l : list A) (x : A) :
  x ∈ l → f x = true → is_Some (find f l).
Proof.
  induction l as [|a l IH]; intros Hx Hfx; [by apply elem_of_nil in Hx|]. cbn [find].
  destruct (f a) eqn:Hfa; [by eexists|].
  apply elem_of_cons in Hx as [->|Hx]; [congruence|by apply IH].
Qed.

Lemma exec_detect (ws : Path.t) (w : world) :
  exec (detectAIConfigurations (Some ws)) w
  = (Returned (matching (files w) ws CONFIG_MAPPINGS), w).
Proof. unfold detectAIConfigurations. by rewrite exec_detectTools. Qed.

Lemma exec_getCurrentProfile (entries : enumeration) (ws : Path.t) (w : world) :
  exec (getCurrentProfile entries (Some ws)) w
  = (Returned (find (λ profile,
                       bool_decide (aiTool profile ∈ matching (files w) ws CONFIG_MAPPINGS))
                    (entries (loaded (profilesDoc w))).*2), w).
Proof.
  unfold getCurrentProfile. rewrite exec_bind, exec_detect. cbn [continue].
  destruct (decide (length (matching (files w) ws CONFIG_MAPPINGS) = 0)) as [Hnone|Hsome].
  - cbn [exec]. f_equal. f_equal. apply length_zero_iff_nil in Hnone. rewrite Hnone.
    symmetry. apply find_false. intros p _. apply bool_decide_eq_false. apply not_elem_of_nil.
  - by rewrite exec_bind, exec_getProfiles.
Qed.

(** X13: The current profile is a stored profile whose tool is detected in the
    workspace, and there is one whenever the store holds such a profile; the
    lookup changes nothing. Which of several such profiles is returned depends
    on the order of the store only. *)
Theorem getCurrentProfile_detected (entries : enumeration) (ws : Path.t) (w : world) :
  enumerates entries →
  ∃ current,
    exec (getCurrentProfile entries (Some ws)) w = (Returned current, w) ∧
    (∀ profile, current = Some profile →
       (∃ k, loaded (profilesDoc w) !! k = Some profile) ∧
       ∃ pattern, pattern ∈ footprintOf (aiTool profile) ∧
                  present (files w) ws pattern = true) ∧
    (current = None →
       ∀ k profile pattern,
         loaded (profilesDoc w) !! k = Some profile →
         pattern ∈ footprintOf (aiTool profile) →
         present (files w) ws pattern = false).
Proof.
  intros Hperm. rewrite exec_getCurrentProfile. eexists. split; [done|]. split.
  - intros profile Hfind. apply find_some in Hfind as [Hin Hdet].
    rewrite <- list_elem_of_In in Hin. apply (enumerates_values entries) in Hin; [|done].
    split; [done|]. apply bool_decide_eq_true in Hdet. by apply detected_iff in Hdet.
  - intros Hnone k profile pattern Hk Hpattern.
    destruct (present (files w) ws pattern) eqn:Hpresent; [|done]. exfalso.
    assert (is_Some (find (λ profile,
                             bool_decide (aiTool profile
                                          ∈ matching (files w) ws CONFIG_MAPPINGS))
                          (entries (loaded (profilesDoc w))).*2)) as [p Hp].
    { apply (find_true _ _ profile).
      - apply (enumerates_values entries); [done|]. by exists k.
      - apply bool_decide_eq_true. apply detected_iff. by exists pattern. }
    congruence.
Qed.

Lemma getCurrentProfile_detected_witness :
  ∃ current,
    exec (getCurrentProfile map_to_list (Some ["proj"])) cursorProject
    = (Returned current, cursorProject) ∧
    ∀ profile, current = Some profile →
      (∃ k, loaded (profilesDoc cursorProject) !! k = Some profile) ∧
      ∃ pattern, pattern ∈ footprintOf (aiTool profile) ∧
                 present (files cursorProject) ["proj"] pattern = true.
Proof.
  destruct (getCurrentProfile_detected map_to_list ["proj"] cursorProject)
    as (current & Hexec & Hsome & _).
  - intros m. reflexivity.
  - exists current. split; [exact Hexec|exact Hsome].
Defined.

(** ** The tree of profiles *)

Lemma getCurrentProfile_reads (entries : enumeration) (currentWorkspace : option Path.t)
    (w : world) :
  ∃ current, exec (getCurrentProfile entries currentWorkspace) w = (Returned current, w).
Proof.
  destruct currentWorkspace as [ws|]; [|by eexists].
  rewrite exec_getCurrentProfile. by eexists.
Qed.

(** X14: The tree lists every stored profile once, under its key; the command of
    an item switches to that key; at most one item is marked as active; an
    item has no children. Building the tree changes nothing. *)
Theorem getChildren_items (entries : enumeration) (currentWorkspace : option Path.t)
    (w : world) :
  enumerates entries →
  ∃ items,
    exec (getChildren entries currentWorkspace None) w = (Returned items, w) ∧
    itemName <$> items ≡ₚ (map_to_list (loaded (profilesDoc w))).*1 ∧
    (∀ item, item ∈ items → commandArguments item = [itemName item]) ∧
    (∀ i j a b, items !! i = Some a → items !! j = Some b →
                isActive a = true → isActive b = true → i = j) ∧
    (∀ item, exec (getChildren entries currentWorkspace (Some item)) w = (Returned [], w)).
Proof.
  intros Hperm. unfold getChildren. rewrite exec_bind, exec_getProfiles. cbn [continue].
  destruct (getCurrentProfile_reads entries currentWorkspace w) as [current Hcurrent].
  rewrite exec_bind, Hcurrent. cbn [continue exec].
  set (item := λ '(profileName, profile),
         newAIProfileItem profileName
           (if decide (description profile = "")
            then toolName (aiTool profile) +:+ " configuration"
            else description profile)
           (toolName (aiTool profile))
           (bool_decide (Some profileName = name <$> current))).
  eexists. split; [done|]. split; [|split; [|split; [|done]]].
  - rewrite <- list_fmap_compose.
    rewrite (list_fmap_ext (itemName ∘ item) fst (entries (loaded (profilesDoc w)))).
    + by rewrite (Hperm _).
    + by intros i [k p] _.
  - intros it ([k p] & -> & _)%list_elem_of_fmap. done.
  - intros i j a b Ha Hb Hactive_a Hactive_b.
    apply list_lookup_fmap_Some in Ha as ([ka pa] & -> & Ha).
    apply list_lookup_fmap_Some in Hb as ([kb pb] & -> & Hb).
    cbn in Hactive_a, Hactive_b.
    apply bool_decide_eq_true in Hactive_a, Hactive_b.
    assert (ka = kb) as -> by congruence.
    apply (NoDup_lookup (entries (loaded (profilesDoc w))).*1 i j kb).
    + by apply enumerates_keys.
    + by rewrite list_lookup_fmap, Ha.
    + by rewrite list_lookup_fmap, Hb.
Qed.

Lemma getChildren_items_witness :
  ∃ items,
    exec (getChildren map_to_list (Some ["proj"]) None) cursorProject
    = (Returned items, cursorProject) ∧
    itemName <$> items ≡ₚ (map_to_list (loaded (profilesDoc cursorProject))).*1.
Proof.
  destruct (getChildren_items map_to_list (Some ["proj"]) cursorProject)
    as (items & Hexec & Hnames & _).
  - intros m. reflexivity.
  - exists items. split; [exact Hexec|exact Hnames].
Defined.

(** ** Running the commands *)

Definition proceed {A B : Type} (r : outcome A * desk)
    (k : A → desk → outcome B * desk) : outcome B * desk :=
  match r with
  | (Returned a, d) => k a d
  | (Thrown e, d) => (Thrown e, d)
  end.

Definition rescue {A : Type} (r : outcome A * desk)
    (h : string → desk → outcome A * desk) : outcome A * desk :=
  match r with
  | (Returned a, d) => (Returned a, d)
  | (Thrown e, d) => h e d
  end.

Lemma run_bind {A B : Type} (m : dialog A) (f : A → dialog B) (d : desk) :
  run (m ≫= f) d = proceed (run m d) (λ a d', run (f a) d').
Proof.
  revert d. induction m as [a|e|R q k IH]; intros d; try done.
  change (run (Ask q k ≫= f) d) with (let '(r, d') := respond q d in run (k r ≫= f) d').
  cbn [run]. destruct (respond q d) as [r d']. apply IH.
Qed.

Lemma run_attempt {A : Type} (m : dialog A) (h : string → dialog A) (d : desk) :
  run (attempt m h) d = rescue (run m d) (λ e d', run (h e) d').
Proof.
  revert d. induction m as [a|e|R q k IH]; intros d; try done.
  cbn [run attempt]. destruct (respond q d) as [r d']. apply IH.
Qed.

Lemma run_ask {R : Type} (q : request R) (d : desk) : run (ask q) d = respond q d.
Proof. unfold ask. cbn [run]. by destruct (respond q d) as [[v|e] d']. Qed.

Inductive anyRequest : Type :=
| AnyRequest {R : Type} (q : request R).

(** A property of every request a handler can make, whatever the answers. *)
Inductive asksIn {A : Type} (P : anyRequest → Prop) : dialog A → Prop :=
| asksIn_Finish a : asksIn P (Finish a)
| asksIn_Raise e : asksIn P (Raise e)
| asksIn_Ask {R : Type} (q : request R) k :
    P (AnyRequest q) → (∀ r, asksIn P (k r)) → asksIn P (Ask q k).

Lemma asksIn_bind {A B : Type} (P : anyRequest → Prop) (m : dialog A) (f : A → dialog B) :
  asksIn P m → (∀ a, asksIn P (f a)) → asksIn P (m ≫= f).
Proof.
  intros Hm Hf. induction Hm as [a|e|R q k Hq Hk IH]; [apply Hf|constructor|].
  change (Ask q k ≫= f) with (Ask q (λ r, k r ≫= f)). by constructor.
Qed.

Lemma asksIn_attempt {A : Type} (P : anyRequest → Prop) (m : dialog A)
    (h : string → dialog A) :
  asksIn P m → (∀ e, asksIn P (h e)) → asksIn P (attempt m h).
Proof.
  intros Hm Hh. induction Hm as [a|e|R q k Hq Hk IH]; [constructor|apply Hh|].
  cbn [attempt]. by constructor.
Qed.

Lemma asksIn_ask {R : Type} (P : anyRequest → Prop) (q : request R) :
  P (AnyRequest q) → asksIn P (ask q).
Proof. intros Hq. constructor; [done|]. intros [v|e]; constructor. Qed.

Section RespectDesk.

Context (P : anyRequest → Prop) (Rel : desk → desk → Prop).
Hypothesis Rel_refl : ∀ d, Rel d d.
Hypothesis Rel_trans : ∀ d1 d2 d3, Rel d1 d2 → Rel d2 d3 → Rel d1 d3.
Hypothesis Rel_respond :
  ∀ (R : Type) (q : request R) (d : desk), P (AnyRequest q) → Rel d (respond q d).2.

Lemma run_respects {A : Type} (m : dialog A) (d : desk) : asksIn P m → Rel d (run m d).2.
Proof.
  intros Hm. revert d. induction Hm as [a|e|R q k Hq Hk IH]; intros d; try apply Rel_refl.
  cbn [run]. specialize (Rel_respond R q d Hq).
  destruct (respond q d) as [r d']. cbn [snd] in *.
  eapply Rel_trans; [done|apply IH].
Qed.

End RespectDesk.

(** ** Commands that leave the workspace alone *)

(** Calls that do not touch the file system. *)
Definition fileFree (c : anyCall) : Prop :=
  match c with
  | AnyCall ReadProfilesJSON => True
  | AnyCall (WriteProfilesJSON _) => True
  | AnyCall (Glob _ _) => True
  | AnyCall (PathExists _) => True
  | AnyCall (ShowInformationMessage _) => True
  | AnyCall (ConsoleError _) => True
  | _ => False
  end.

Lemma exec_fileFree {A : Type} (m : prog A) (w : world) :
  callsIn fileFree m → files (exec m w).2 = files w.
Proof.
  apply (exec_respects fileFree (λ w w', files w' = files w)); try done.
  - intros w1 w2 w3. congruence.
  - intros R c w1 Hc. destruct c; cbn in *; try tauto; try done.
    + by destruct (profilesDoc w1).
    + by destruct (profilesWritable w1).
Qed.

Lemma getProfiles_fileFree : callsIn fileFree getProfiles.
Proof.
  unfold getProfiles. apply callsIn_tryCatch; [|constructor].
  apply callsIn_bind; [by apply callsIn_await|]. constructor.
Qed.

Lemma saveProfiles_fileFree (m : gmap string AIProfile) : callsIn fileFree (saveProfiles m).
Proof.
  unfold saveProfiles. apply callsIn_tryCatch; [by apply callsIn_await|]. constructor.
Qed.

Lemma createProfile_fileFree (cw : option Path.t) (n d : string) (tool : AIToolType) :
  callsIn fileFree (createProfile cw n d tool).
Proof.
  destruct cw; [|constructor]. unfold createProfile, saveProfile.
  apply callsIn_tryCatch; [|constructor].
  apply callsIn_bind; [apply getProfiles_fileFree|]. intros m. by apply callsIn_await.
Qed.

Lemma detect_fileFree (cw : option Path.t) : callsIn fileFree (detectAIConfigurations cw).
Proof.
  destruct cw as [ws|]; [|constructor]. unfold detectAIConfigurations.
  generalize (@nil AIToolType). induction CONFIG_MAPPINGS as [|[tool patterns] rest IH];
    intros acc; [constructor|].
  cbn [detectTools]. apply callsIn_bind; [|intros found; apply IH].
  clear. induction patterns as [|pattern patterns IH]; [constructor|].
  cbn [detectPatterns]. apply callsIn_bind.
  - apply callsIn_tryCatch.
    + apply callsIn_bind; [by apply callsIn_await|]. constructor.
    + intros e. apply callsIn_bind; [by apply callsIn_await|]. constructor.
  - intros [|]; [constructor|apply IH].
Qed.

Lemma validateName_fileFree (value : string) : callsIn fileFree (validateName value).
Proof.
  unfold validateName. destruct (decide (value = "")); [constructor|].
  apply callsIn_bind; [apply getProfiles_fileFree|]. intros m.
  destruct (getProperty m value); constructor.
Qed.

Definition workspaceFree (q : anyRequest) : Prop :=
  match q with
  | AnyRequest (Run m) => callsIn fileFree m
  | AnyRequest (ShowInputBox _ _ (Some validate)) => ∀ value, callsIn fileFree (validate value)
  | _ => True
  end.

Lemma inputBox_fileFree (validate : option (string → prog (option string)))
    (answers : list (option string)) (w : world) :
  (∀ check value, validate = Some check → callsIn fileFree (check value)) →
  files (inputBox validate answers w).2.2 = files w.
Proof.
  intros Hfree. revert w. induction answers as [|[value|] rest IH]; intros w; try done.
  cbn [inputBox]. destruct validate as [check|]; [|done].
  pose proof (exec_fileFree (check value) w (Hfree check value eq_refl)) as Hsame.
  destruct (exec (check value) w) as [[[msg|]|e] w']; cbn [snd] in *; try done.
  by rewrite IH.
Qed.

Lemma respond_workspaceFree {R : Type} (q : request R) (d : desk) :
  workspaceFree (AnyRequest q) → files (state (respond q d).2) = files (state d).
Proof.
  intros Hq. destruct q; cbn [respond workspaceFree] in *.
  - pose proof (exec_fileFree m (state d) Hq) as Hsame.
    by destruct (exec m (state d)) as [r w].
  - pose proof (inputBox_fileFree validateInput (answers d) (state d)) as Hsame.
    destruct (inputBox validateInput (answers d) (state d)) as [r [rest w]].
    cbn [snd state withAnswers withState] in *. apply Hsame.
    intros check v ->. apply Hq.
  - by destruct (chosen items labelOf (answers d)) as [r rest].
  - by destruct (chosen items id (answers d)) as [r rest].
  - by destruct (chosen items id (answers d)) as [r rest].
  - done.
  - done.
  - done.
Qed.

Lemma run_workspaceFree {A : Type} (m : dialog A) (d : desk) :
  asksIn workspaceFree m → files (state (run m d).2) = files (state d).
Proof.
  apply (run_respects workspaceFree (λ d d', files (state d') = files (state d))).
  - done.
  - intros d1 d2 d3. congruence.
  - intros R q d1. apply respond_workspaceFree.
Qed.

Lemma showError_returns (e : string) (d : desk) : (run (showError e) d).1 = Returned ().
Proof. done. Qed.

Lemma attempt_returns (m : dialog unit) (d : desk) :
  (run (attempt m showError) d).1 = Returned ().
Proof.
  rewrite run_attempt. by destruct (run m d) as [[[]|e] d'].
Qed.

Lemma showInformationMessage_free (message : string) :
  asksIn workspaceFree (showInformationMessage message).
Proof. apply asksIn_ask. cbn. by apply callsIn_await. Qed.

Lemma showError_free (e : string) : asksIn workspaceFree (showError e).
Proof. by apply asksIn_ask. Qed.

Lemma chooseProfile_free (entries : enumeration) (profileName : option string)
    (placeHolder : string) :
  asksIn workspaceFree (chooseProfile entries profileName placeHolder).
Proof.
  unfold chooseProfile. destruct (given profileName); [constructor|].
  apply asksIn_bind; [apply asksIn_ask, getProfiles_fileFree|]. intros profiles.
  apply asksIn_bind; [by apply asksIn_ask|]. intros selected. constructor.
Qed.

Lemma createProfileCommand_free (cw : option Path.t) :
  asksIn workspaceFree (createProfileCommand cw).
Proof.
  unfold createProfileCommand. apply asksIn_attempt; [|apply showError_free].
  apply asksIn_bind; [apply asksIn_ask; cbn; apply validateName_fileFree|].
  intros profileName. destruct (given profileName) as [n|]; [|constructor].
  apply asksIn_bind; [by apply asksIn_ask|]. intros description.
  apply asksIn_bind; [by apply asksIn_ask|]. intros [tool|]; [|constructor].
  apply asksIn_bind; [apply asksIn_ask, createProfile_fileFree|]. intros _.
  apply asksIn_bind; [by apply asksIn_ask|]. intros _.
  apply showInformationMessage_free.
Qed.

Lemma editProfileCommand_free (entries : enumeration) (cw : option Path.t)
    (profileName : option string) :
  asksIn workspaceFree (editProfileCommand entries cw profileName).
Proof.
  unfold editProfileCommand. apply asksIn_attempt; [|apply showError_free].
  apply asksIn_bind; [apply chooseProfile_free|].
  intros [n|]; [|constructor].
  apply asksIn_bind; [apply asksIn_ask, getProfiles_fileFree|]. intros profiles.
  destruct (getProperty profiles n) as [profile| |]; [| |by apply asksIn_ask].
  all: apply asksIn_bind; [by apply asksIn_ask|]; intros [description|]; [|constructor].
  all: apply asksIn_bind; [by apply asksIn_ask|]; intros [tool|]; [|constructor].
  all: apply asksIn_bind; [apply asksIn_ask, createProfile_fileFree|]; intros _.
  all: apply asksIn_bind; [by apply asksIn_ask|]; intros _.
  all: apply showInformationMessage_free.
Qed.

Lemma syncFromCurrentCommand_free (cw : option Path.t) :
  asksIn workspaceFree (syncFromCurrentCommand cw).
Proof.
  unfold syncFromCurrentCommand. apply asksIn_attempt; [|apply showError_free].
  apply asksIn_bind; [apply asksIn_ask; cbn; apply validateName_fileFree|].
  intros profileName. destruct (given profileName) as [n|]; [|constructor].
  apply asksIn_bind; [by apply asksIn_ask|]. intros description.
  apply asksIn_bind; [apply asksIn_ask, detect_fileFree|]. intros [|tool tools].
  { by apply asksIn_ask. }
  apply asksIn_bind; [apply asksIn_ask, createProfile_fileFree|]. intros _.
  apply asksIn_bind; [by apply asksIn_ask|]. intros _.
  apply showInformationMessage_free.
Qed.

Lemma manageProfilesCommand_free (entries : enumeration) :
  asksIn workspaceFree (manageProfilesCommand entries).
Proof.
  unfold manageProfilesCommand. apply asksIn_attempt; [|apply showError_free].
  apply asksIn_bind; [apply asksIn_ask, getProfiles_fileFree|]. intros profiles.
  apply asksIn_bind; [by apply asksIn_ask|]. intros [selected|]; [|constructor].
  apply asksIn_bind; [by apply asksIn_ask|]. intros [action|]; [|constructor].
  destruct (decide (action = "Delete")).
  - apply asksIn_bind; [by apply asksIn_ask|]. intros confirm.
    destruct (decide (confirm = Some "Yes")); [|constructor].
    apply asksIn_bind; [apply asksIn_ask, saveProfiles_fileFree|]. intros _.
    apply asksIn_bind; [by apply asksIn_ask|]. intros _.
    apply showInformationMessage_free.
  - destruct (decide (action = "Edit")); [by apply asksIn_ask|constructor].
Qed.

Lemma suggestProfileCreation_free (entries : enumeration) (cw : option Path.t) :
  asksIn workspaceFree (suggestProfileCreation entries cw).
Proof.
  unfold suggestProfileCreation.
  apply asksIn_bind; [apply asksIn_ask, detect_fileFree|]. intros tools.
  destruct (decide (length tools = 0)); [constructor|].
  apply asksIn_bind; [apply asksIn_ask, getProfiles_fileFree|]. intros profiles.
  destruct (existsb _ _); [constructor|].
  apply asksIn_bind; [by apply asksIn_ask|]. intros create.
  destruct (decide (create = Some "Yes")); [by apply asksIn_ask|constructor].
Qed.

(** X15: The commands that create, edit, capture and manage profiles never
    throw, whatever the user answers: every error ends in an error message.
    And they leave the files of the workspace as they are. *)
Theorem commands_leave_workspace (entries : enumeration) (cw : option Path.t)
    (profileName : option string) (d : desk) :
  ((run (createProfileCommand cw) d).1 = Returned () ∧
   files (state (run (createProfileCommand cw) d).2) = files (state d)) ∧
  ((run (editProfileCommand entries cw profileName) d).1 = Returned () ∧
   files (state (run (editProfileCommand entries cw profileName) d).2) = files (state d)) ∧
  ((run (syncFromCurrentCommand cw) d).1 = Returned () ∧
   files (state (run (syncFromCurrentCommand cw) d).2) = files (state d)) ∧
  ((run (manageProfilesCommand entries) d).1 = Returned () ∧
   files (state (run (manageProfilesCommand entries) d).2) = files (state d)).
Proof.
  repeat split; try apply attempt_returns; apply run_workspaceFree.
  - apply createProfileCommand_free.
  - apply editProfileCommand_free.
  - apply syncFromCurrentCommand_free.
  - apply manageProfilesCommand_free.
Qed.

(** ** The command that creates a profile *)

Ltac desk_simpl :=
  cbn [proceed rescue respond withState withAnswers
       state answers errors warnings executed refreshed fst snd].

Lemma given_Some (value : string) : value ≠ "" → given (Some value) = Some value.
Proof. by destruct value. Qed.






Definition deskOf (w : world) (answers : list (option string)) : desk :=
  {| state := w; answers := answers; errors := []; warnings := []; executed := [];
     refreshed := 0 |}.


(** ** The command that edits a profile *)




(** ** The command that captures the current configuration *)


(** ** The command that deletes a profile *)



Lemma chosen_yes (confirm : option string) (rest : list (option string)) :
  ∃ r, chosen ["Yes"; "No"] id (confirm :: rest) = (r, rest) ∧
       (r = Some "Yes" ↔ confirm = Some "Yes").
Proof.
  destruct confirm as [a|]; cbn [chosen find id]; [|by eexists].
  destruct (decide (a = "Yes")) as [->|Hyes]; [by eexists|].
  rewrite (bool_decide_eq_false_2 ("Yes" = a)) by done.
  destruct (bool_decide ("No" = a)) eqn:Hno.
  - eexists. split; [done|]. split; [done|]. by intros [= ->].
  - eexists. split; [done|]. split; [done|]. by intros [= ->].
Qed.



(** ** The suggestion at start-up *)

Lemma existsb_values (entries : enumeration) (m : gmap string AIProfile)
    (tools : list AIToolType) :
  enumerates entries →
  existsb (λ profile, bool_decide (aiTool profile ∈ tools)) (entries m).*2 = true ↔
  ∃ k p, m !! k = Some p ∧ aiTool p ∈ tools.
Proof.
  intros Hperm. rewrite existsb_exists. split.
  - intros (p & Hin & Hp). rewrite <- list_elem_of_In in Hin.
    apply (enumerates_values entries) in Hin as [k Hk]; [|done].
    exists k, p. split; [done|]. by apply bool_decide_eq_true in Hp.
  - intros (k & p & Hk & Hp). exists p. split.
    + rewrite <- list_elem_of_In. apply (enumerates_values entries); [done|]. by exists k.
    + by apply bool_decide_eq_true.
Qed.

Lemma chosen_yes_head (answers : list (option string)) :
  ∃ r, chosen ["Yes"; "No"] id answers = (r, tail answers) ∧
       (r = Some "Yes" ↔ head answers = Some (Some "Yes")).
Proof.
  destruct answers as [|confirm rest].
  - exists None. split; [done|]. split; intros [=].
  - destruct (chosen_yes confirm rest) as (r & Hr & Hyes). exists r. split; [done|].
    rewrite Hyes. cbn. split; [by intros ->|by intros [= ->]].
Qed.

(** X20: The suggestion to create a profile is made exactly when a tool is
    detected in the workspace and no stored profile is of a detected tool. It
    changes neither the files nor the store, and the command that captures the
    current configuration is started only on the answer "Yes". *)
Theorem suggestion_when_unmatched (entries : enumeration) (ws : Path.t) (d : desk)
    (tools : list AIToolType) :
  enumerates entries →
  (exec (detectAIConfigurations (Some ws)) (state d)).1 = Returned tools →
  ∃ d',
    run (suggestProfileCreation entries (Some ws)) d = (Returned (), d') ∧
    files (state d') = files (state d) ∧
    profilesDoc (state d') = profilesDoc (state d) ∧
    ((tools ≠ [] ∧ ∀ k p, loaded (profilesDoc (state d)) !! k = Some p → aiTool p ∉ tools) →
     shown (state d')
     = ("Detected " +:+ joined ", " (toolName <$> tools)
        +:+ " configuration. Would you like to create a profile?") :: shown (state d) ∧
     answers d' = tail (answers d) ∧
     executed d'
     = if decide (head (answers d) = Some (Some "Yes"))
       then ("aiConfigSwitcher.syncFromCurrent", []) :: executed d else executed d) ∧
    ((tools = [] ∨ ∃ k p, loaded (profilesDoc (state d)) !! k = Some p ∧ aiTool p ∈ tools) →
     shown (state d') = shown (state d) ∧ answers d' = answers d ∧
     executed d' = executed d).
Proof.
  intros Hperm Htools. destruct d as [w ans errs warns cmds r]. cbn [state] in *.
  rewrite exec_detect in Htools. cbn [fst] in Htools. injection Htools as Htools.
  unfold suggestProfileCreation. rewrite run_bind, run_ask. desk_simpl.
  rewrite exec_detect, Htools. desk_simpl.
  destruct (decide (length tools = 0)) as [Hnone|Hsome].
  { apply length_zero_iff_nil in Hnone. cbn [run]. eexists. split; [reflexivity|]. cbn.
    split; [done|]. split; [done|]. split; [by intros [? _]|done]. }
  assert (tools ≠ []) as Hne by (by intros ->).
  rewrite run_bind, run_ask. desk_simpl. rewrite exec_getProfiles. desk_simpl.
  destruct (existsb (λ profile, bool_decide (aiTool profile ∈ tools))
                    (entries (loaded (profilesDoc w))).*2) eqn:Hmatch.
  { apply (existsb_values entries) in Hmatch as (k & p & Hk & Hp); [|done].
    cbn [run]. eexists. split; [reflexivity|]. cbn.
    split; [done|]. split; [done|]. split; [|done].
    intros [_ Hnot]. by destruct (Hnot k p Hk). }
  assert (¬ ∃ k p, loaded (profilesDoc w) !! k = Some p ∧ aiTool p ∈ tools) as Hnomatch.
  { intros Hex. apply (existsb_values entries) in Hex; [|done]. congruence. }
  rewrite run_bind, run_ask. desk_simpl.
  destruct (chosen_yes_head ans) as (answer & -> & Hyes). desk_simpl.
  destruct (decide (head ans = Some (Some "Yes"))) as [Hhead|Hhead].
  - assert (answer = Some "Yes") as -> by by apply Hyes.
    rewrite decide_True by done. rewrite run_ask. desk_simpl.
    eexists. split; [reflexivity|]. cbn.
    split; [done|]. split; [done|]. split; [done|].
    intros [?|?]; done.
  - rewrite decide_False by (intros Hc; by apply Hhead, Hyes).
    cbn [run]. eexists. split; [reflexivity|]. cbn.
    split; [done|]. split; [done|]. split; [done|].
    intros [?|?]; done.
Qed.

Lemma suggestion_when_unmatched_witness :
  ∃ d',
    run (suggestProfileCreation map_to_list (Some ["proj"]))
        (deskOf onlyCursorrules [Some "Yes"]) = (Returned (), d') ∧
    shown (state d')
    = ["Detected cursor configuration. Would you like to create a profile?"] ∧
    executed d' = [("aiConfigSwitcher.syncFromCurrent", [])].
Proof.
  destruct (suggestion_when_unmatched map_to_list ["proj"]
              (deskOf onlyCursorrules [Some "Yes"]) [cursor])
    as (d' & Hrun & _ & _ & Hprompt & _).
  - intros m. reflexivity.
  - vm_compute. reflexivity.
  - exists d'. split; [exact Hrun|].
    destruct Hprompt as (Hshown & _ & Hexecuted).
    + split; [done|]. intros k p Hk.
      unfold deskOf, onlyCursorrules, storeWith in Hk.
      cbn [state profilesDoc loaded] in Hk. by rewrite lookup_empty in Hk.
    + split; [exact Hshown|exact Hexecuted].
Defined.

(** ** The command that switches *)

(** X21: The switch command never throws. A switch that fails is reported to the
    user with the message of its error, and the tree is not refreshed; after a
    switch that returns the tree is refreshed and no error is shown. *)
Theorem switchCommand_reports (entries : enumeration) (cw : option Path.t)
    (config : settings) (now n : string) (d : desk) :
  n ≠ "" →
  ∃ d',
    run (switchProfileCommand entries cw config now (Some n)) d = (Returned (), d') ∧
    state d' = (exec (switchProfile cw config now n) (state d)).2 ∧
    answers d' = answers d ∧
    match (exec (switchProfile cw config now n) (state d)).1 with
    | Returned _ => errors d' = errors d ∧ refreshed d' = S (refreshed d)
    | Thrown e => errors d' = e :: errors d ∧ refreshed d' = refreshed d
    end.
Proof.
  intros Hn. destruct d as [w ans errs warns cmds r].
  unfold switchProfileCommand, chooseProfile. rewrite (given_Some n Hn).
  rewrite run_attempt, run_bind. cbn [run]. desk_simpl.
  rewrite run_bind, run_ask. desk_simpl.
  destruct (exec (switchProfile cw config now n) w) as [[[]|e] w']; desk_simpl.
  - rewrite run_ask. desk_simpl. eexists. split; [reflexivity|]. cbn. done.
  - eexists. split; [reflexivity|]. cbn. done.
Qed.

Lemma switchCommand_reports_witness :
  ∃ d',
    run (switchProfileCommand map_to_list (Some ["proj"]) withBackup sameInstant
           (Some "windsurfer")) (deskOf collidingBackup []) = (Returned (), d') ∧
    errors d'
    = [switchFailure "windsurfer"
         "Failed to create backup: Cannot overwrite: directory and non-directory"] ∧
    refreshed d' = 0.
Proof.
  destruct (switchCommand_reports map_to_list (Some ["proj"]) withBackup sameInstant
              "windsurfer" (deskOf collidingBackup []))
    as (d' & Hrun & _ & _ & Hreport); [done|].
  exists d'. split; [exact Hrun|].
  assert ((exec (switchProfile (Some ["proj"]) withBackup sameInstant "windsurfer")
                (state (deskOf collidingBackup []))).1
          = Thrown (switchFailure "windsurfer"
                      "Failed to create backup: Cannot overwrite: directory and non-directory"))
    as Hthrown by (vm_compute; reflexivity).
  rewrite Hthrown in Hreport. exact Hreport.
Defined.

(** ** The configuration manager: copying a folder *)

Lemma copyFolderRecursive_step (names : listing) (depth : nat) (source target : Path.t)
    (w : bench) :
  copyFolderRecursive names (S depth) source target w =
  match FS.stat (disk w) source with
  | None => Some (Returned (), w)
  | Some Dir =>
      match FS.ensureDir (disk w) target with
      | (Returned _, fs1) =>
          forEachSync (names fs1 source)
            (λ file, copyFolderRecursive names depth (source ++ [file]) (target ++ [file]))
            (withDisk w fs1)
      | (Thrown e, fs1) => Some (Thrown e, withDisk w fs1)
      end
  | Some (File d) =>
      Some ((FS.writeFile (disk w) target false d).1,
            withDisk w (FS.writeFile (disk w) target false d).2)
  end.
Proof.
  cbn [copyFolderRecursive]. unfold mbind, sync_bind, sync_then, existsSync, FS.pathExists.
  destruct (FS.stat (disk w) source) as [[|d]|] eqn:E; [| |done].
  - unfold lstatSync. rewrite E. cbn [FS.isDir].
    unfold mkdirSyncRecursive, onDisk.
    destruct (FS.ensureDir (disk w) target) as [[[]|e] fs1] eqn:Emk; cbn [fst snd]; [|done].
    unfold readdirSync. cbn [disk withDisk].
    assert (FS.stat fs1 source = Some Dir) as ->; [|done].
    destruct source as [|x source]; [done|]. cbn [FS.stat] in *.
    replace fs1 with (FS.ensureDir (disk w) target).2 by (by rewrite Emk).
    by apply mkdirs_keeps.
  - unfold lstatSync. rewrite E. cbn [FS.isDir]. unfold copyFileSync, onDisk. by rewrite E.
Qed.

Lemma forEachSync_cons {X : Type} (x : X) (xs : list X) (body : X → sync unit) (w : bench) :
  forEachSync (x :: xs) body w =
  match body x w with
  | None => None
  | Some (Returned _, w1) => forEachSync xs body w1
  | Some (Thrown e, w1) => Some (Thrown e, w1)
  end.
Proof. done. Qed.

(** Neither path is at or below the other. *)
Definition incomparable (a b : Path.t) : Prop := ¬ a `prefix_of` b ∧ ¬ b `prefix_of` a.

Global Instance incomparable_dec (a b : Path.t) : Decision (incomparable a b).
Proof. unfold incomparable. apply _. Defined.

(** What the file system holds strictly below a path. *)
Definition inside (fs : FS.t) (source : Path.t) : FS.t :=
  filter (λ kv, source `prefix_of` kv.1 ∧ kv.1 ≠ source) fs.

(** Below [source], whatever has something in it is a directory. *)
Definition treeBelow (fs : FS.t) (source : Path.t) : Prop :=
  ∀ rel x, is_Some (fs !! (source ++ rel ++ [x])) → fs !! (source ++ rel) = Some Dir.

(** From [fs] to [fs'] nothing is removed, a directory stays one, and away
    from [target] nothing changes but that what leads to [target] may have
    been made a directory. *)
Definition confined (target : Path.t) (fs fs' : FS.t) : Prop :=
  (∀ q, is_Some (fs !! q) → is_Some (fs' !! q)) ∧
  (∀ q, ¬ target `prefix_of` q →
        (∀ n, fs !! q = Some n → fs' !! q = Some n) ∧
        (¬ q `prefix_of` target → fs' !! q = fs !! q)) ∧
  fs' !! [] = fs !! [] ∧
  (∀ q, fs !! q = Some Dir → fs' !! q = Some Dir).

Definition sameBelow (source : Path.t) (fs fs' : FS.t) : Prop :=
  ∀ q, source `prefix_of` q → fs' !! q = fs !! q.

Lemma confined_refl (target : Path.t) (fs : FS.t) : confined target fs fs.
Proof. split; [done|]. split; [|done]. intros q _. by split. Qed.

Lemma between_prefixes (q t t' : Path.t) :
  t `prefix_of` t' → q `prefix_of` t' → ¬ t `prefix_of` q → q `prefix_of` t.
Proof. intros Ht Hq Hn. by destruct (prefix_weak_total q t t' Hq Ht). Qed.

Lemma confined_weaken (t t' : Path.t) (fs fs' : FS.t) :
  t `prefix_of` t' → confined t' fs fs' → confined t fs fs'.
Proof.
  intros Ht (Hkeep & Hout & Hroot & Hdirs).
  split; [done|]. split; [|done]. intros q Hq.
  assert (¬ t' `prefix_of` q) as Hq' by (intros H; apply Hq; by etrans).
  split; [by apply Hout|]. intros Hnot. apply Hout; [done|].
  intros Hpre. apply Hnot. by apply (between_prefixes q t t').
Qed.

Lemma confined_trans (t : Path.t) (fs1 fs2 fs3 : FS.t) :
  confined t fs1 fs2 → confined t fs2 fs3 → confined t fs1 fs3.
Proof.
  intros (Hkeep1 & Hout1 & Hroot1 & Hdirs1) (Hkeep2 & Hout2 & Hroot2 & Hdirs2).
  split; [by auto|]. split; [|split; [congruence|by auto]]. intros q Hq.
  destruct (Hout1 q Hq) as [Ha1 Hb1]. destruct (Hout2 q Hq) as [Ha2 Hb2].
  split; [by auto|]. intros Hnot. by rewrite Hb2, Hb1.
Qed.

Lemma mkdirs_root (made todo : Path.t) (fs : FS.t) :
  (FS.mkdirs made todo fs).2 !! [] = fs !! [].
Proof.
  revert made fs. induction todo as [|seg rest IH]; intros made fs; [done|].
  cbn [FS.mkdirs]. assert (made ++ [seg] ≠ []) as Hne by (by destruct made).
  destruct (fs !! (made ++ [seg])) as [[|d]|]; [|done|]; by rewrite IH, lookup_insert_ne.
Qed.

Lemma ensureDir_confined (fs : FS.t) (target : Path.t) :
  confined target fs (FS.ensureDir fs target).2.
Proof.
  split; [|split; [|split]].
  - intros q [n Hn]. exists n. by apply mkdirs_keeps.
  - intros q Hq. split; [intros n Hn; by apply mkdirs_keeps|].
    intros Hnot. by apply mkdirs_other.
  - apply mkdirs_root.
  - intros q Hq. by apply mkdirs_keeps.
Qed.

Lemma writeFile_confined (fs : FS.t) (target : Path.t) (d : fileData) :
  confined target fs (FS.writeFile fs target false d).2.
Proof.
  split; [|split; [|split]].
  - intros q Hq. by apply writeFile_keeps_existing.
  - intros q Hq. assert (target ≠ q) as Hne by (by intros <-).
    split; [intros n Hn|intros _]; by rewrite writeFile_other.
  - destruct target as [|x target]; [done|]. by apply writeFile_other.
  - intros q Hq. by apply writeFile_keeps_dir.
Qed.

Lemma confined_sameBelow (source target : Path.t) (fs fs' : FS.t) :
  incomparable source target → confined target fs fs' → sameBelow source fs fs'.
Proof.
  intros [Hst Hts] (_ & Hout & _ & _) q Hq. apply Hout.
  - intros Htq. by destruct (prefix_weak_total source target q Hq Htq).
  - intros Hqt. apply Hst. by etrans.
Qed.

Lemma sameBelow_trans (source : Path.t) (fs1 fs2 fs3 : FS.t) :
  sameBelow source fs1 fs2 → sameBelow source fs2 fs3 → sameBelow source fs1 fs3.
Proof. intros H1 H2 q Hq. by rewrite H2, H1. Qed.

Lemma sameBelow_inside (source : Path.t) (k : Path.t) (fs fs' : FS.t) :
  sameBelow source fs fs' → inside fs' (source ++ k) = inside fs (source ++ k).
Proof.
  intros Hsame. apply map_eq. intros q. unfold inside.
  destruct (decide (source ++ k `prefix_of` q ∧ q ≠ source ++ k)) as [[Hpre Hne]|Hnot].
  - assert (fs' !! q = fs !! q) as Hq.
    { apply Hsame. etrans; [|exact Hpre]. by apply prefix_app_r. }
    destruct (fs !! q) as [n|] eqn:E.
    + transitivity (Some n); [|symmetry]; by apply map_lookup_filter_Some.
    + transitivity (@None node); [|symmetry]; apply map_lookup_filter_None; by left.
  - transitivity (@None node); [|symmetry]; apply map_lookup_filter_None; right;
      intros n _ H; by apply Hnot.
Qed.

Lemma sameBelow_treeBelow (source : Path.t) (fs fs' : FS.t) :
  sameBelow source fs fs' → treeBelow fs source → treeBelow fs' source.
Proof.
  intros Hsame Htree rel x. rewrite !Hsame by (by apply prefix_app_r).
  apply Htree.
Qed.

Lemma treeBelow_child (fs : FS.t) (source k : Path.t) :
  treeBelow fs source → treeBelow fs (source ++ k).
Proof.
  intros Htree rel x Hsome. rewrite <- app_assoc in *.
  apply (Htree (k ++ rel) x). by rewrite <- app_assoc.
Qed.

Lemma wellFormed_treeBelow (fs : FS.t) (source : Path.t) :
  wellFormed fs → source ≠ [] → treeBelow fs source.
Proof.
  intros Hwf Hne rel x Hsome. rewrite app_assoc in Hsome. apply Hwf in Hsome.
  rewrite stat_lookup in Hsome; [done|]. by destruct source.
Qed.

(** In a tree, what has something below it is there. *)
Lemma treeBelow_root (fs : FS.t) (source rel : Path.t) :
  treeBelow fs source → is_Some (fs !! (source ++ rel)) → is_Some (fs !! source).
Proof.
  intros Htree. induction rel as [|x rel IH] using rev_ind; [by rewrite app_nil_r|].
  intros Hsome%Htree. apply IH. by eexists.
Qed.

Lemma treeBelow_file (fs : FS.t) (source rel : Path.t) (d : fileData) :
  treeBelow fs source → fs !! source = Some (File d) → is_Some (fs !! (source ++ rel)) →
  rel = [].
Proof.
  intros Htree Hfile Hsome. destruct rel as [|x rel]; [done|].
  assert (is_Some (fs !! (source ++ [x]))) as Hx.
  { apply (treeBelow_root fs (source ++ [x]) rel); [by apply treeBelow_child|].
    by rewrite <- app_assoc. }
  apply (Htree [] x) in Hx. rewrite app_nil_r in Hx. congruence.
Qed.

Lemma inside_child (fs : FS.t) (source : Path.t) (c : string) :
  is_Some (fs !! (source ++ [c])) →
  size (inside fs (source ++ [c])) < size (inside fs source).
Proof.
  intros [n Hn]. apply map_subset_size, map_subset_alt. split.
  - apply map_subseteq_spec. intros q m [Hq [Hpre Hne]]%map_lookup_filter_Some.
    apply map_lookup_filter_Some. split; [done|]. cbn in *. split.
    + etrans; [|exact Hpre]. by apply prefix_app_r.
    + intros ->. by apply (prefix_snoc_not source c).
  - exists (source ++ [c]). split.
    + apply map_lookup_filter_None. right. intros m _ [_ Hne]. by apply Hne.
    + exists n. apply map_lookup_filter_Some. split; [done|]. cbn. split.
      * by apply prefix_app_r.
      * intros H. apply (f_equal length) in H. rewrite length_app in H. cbn in H. lia.
Qed.

Lemma incomparable_child (source target : Path.t) (c : string) :
  incomparable source target → incomparable (source ++ [c]) (target ++ [c]).
Proof.
  intros [Hst Hts]. split.
  - intros H. destruct (prefix_weak_total source target (target ++ [c])) as [?|Hpre]; try done.
    + etrans; [|exact H]. by apply prefix_app_r.
    + by apply prefix_app_r.
  - intros H. destruct (prefix_weak_total source target (source ++ [c])) as [?|Hpre]; try done.
    + by apply prefix_app_r.
    + etrans; [|exact H]. by apply prefix_app_r.
Qed.

Lemma siblings_apart (p : Path.t) (a b : string) (rel : Path.t) :
  a ≠ b → ¬ p ++ [a] `prefix_of` (p ++ [b]) ++ rel.
Proof.
  intros Hne H. rewrite <- app_assoc in H. apply prefix_app_inv in H.
  destruct H as [k Hk]. by simplify_eq/=.
Qed.

Lemma siblings_incomparable (p : Path.t) (a b : string) :
  a ≠ b → incomparable (p ++ [a]) (p ++ [b]).
Proof.
  intros Hne. split.
  - rewrite <- (app_nil_r (p ++ [b])). by apply siblings_apart.
  - rewrite <- (app_nil_r (p ++ [a])). by apply siblings_apart.
Qed.

Lemma sibling_not_prefix (target : Path.t) (c c' : string) (rel : Path.t) :
  c ≠ c' → ¬ target ++ [c] `prefix_of` target ++ [c'] ++ rel.
Proof. intros Hne H%prefix_app_inv. destruct H as [k Hk]. simplify_eq/=. Qed.

Lemma mkdirs_clear (made todo : Path.t) (fs : FS.t) :
  (∀ q d, q ≠ [] → q `prefix_of` made ++ todo → fs !! q ≠ Some (File d)) →
  (FS.mkdirs made todo fs).1 = Returned ().
Proof.
  revert made fs. induction todo as [|seg rest IH]; intros made fs Hfree; [done|].
  cbn [FS.mkdirs]. rewrite app_cons_assoc in Hfree.
  assert (made ++ [seg] ≠ []) as Hne0 by (by destruct made).
  assert (∀ d, fs !! (made ++ [seg]) ≠ Some (File d)) as Hseg.
  { intros d. apply Hfree; [done|]. by apply prefix_app_r. }
  assert ((FS.mkdirs (made ++ [seg]) rest (<[made ++ [seg] := Dir]> fs)).1 = Returned ())
    as Hrec.
  { apply IH. intros q d Hq0 Hq. destruct (decide (made ++ [seg] = q)) as [<-|Hne].
    - by rewrite lookup_insert_eq.
    - rewrite lookup_insert_ne by done. by apply Hfree. }
  destruct (fs !! (made ++ [seg])) as [[|d]|]; [done|by destruct (Hseg d)|done].
Qed.

Lemma prefix_snoc_inv (q target : Path.t) (c : string) :
  q `prefix_of` target ++ [c] → q ≠ target ++ [c] → q `prefix_of` target.
Proof.
  intros Hq Hne.
  destruct (prefix_weak_total q target (target ++ [c])) as [?|[k Hk]];
    [done|by apply prefix_app_r|done|].
  subst q. destruct Hq as [k' Hk']. rewrite <- app_assoc in Hk'. apply app_inv_head in Hk'.
  destruct k as [|x k]; [by rewrite app_nil_r|].
  destruct k, k'; by simplify_eq/=.
Qed.

Lemma stat_parent (fs : FS.t) (target : Path.t) :
  (∀ q, q ≠ [] → q `prefix_of` target → q ≠ target → fs !! q = Some Dir) →
  target ≠ [] → FS.stat fs (Path.dirname target) = Some Dir.
Proof.
  intros Hway Hne. destruct target as [|x l _] using rev_ind; [done|].
  unfold Path.dirname. rewrite removelast_last.
  destruct l as [|y l]; [done|]. cbn [FS.stat]. apply Hway; [done|by apply prefix_app_r|].
  intros H. apply (f_equal length) in H. rewrite length_app in H. cbn in H. lia.
Qed.

(** The names of a directory are those of what it holds. *)
Definition lists (names : listing) : Prop :=
  ∀ fs p c, c ∈ names fs p ↔ is_Some (fs !! (p ++ [c])).

Section CopyFolder.

Variable names : listing.
Hypothesis Hlists : lists names.

Definition copied (source target : Path.t) (fs fs' : FS.t) : Prop :=
  ∀ rel n, fs !! (source ++ rel) = Some n → fs' !! (target ++ rel) = Some n.

Lemma copyFolderRecursive_spec (depth : nat) (source target : Path.t) (w : bench) :
  incomparable source target → treeBelow (disk w) source →
  size (inside (disk w) source) < depth →
  ∃ r w', copyFolderRecursive names depth source target w = Some (r, w') ∧
          notices w' = notices w ∧
          confined target (disk w) (disk w') ∧
          (r = Returned () → copied source target (disk w) (disk w')).
Proof.
  revert source target w.
  induction depth as [|depth IH]; intros source target w Hinc Htree Hsize; [lia|].
  assert (source ≠ []) as Hsrc.
  { intros ->. destruct Hinc as [H _]. apply H. apply prefix_nil. }
  assert (target ≠ []) as Htgt.
  { intros ->. destruct Hinc as [_ H]. apply H. apply prefix_nil. }
  rewrite copyFolderRecursive_step. rewrite stat_lookup by done.
  destruct (disk w !! source) as [[|d]|] eqn:Esrc.
  - (* a directory *)
    destruct (FS.ensureDir (disk w) target) as [[[]|e] fs1] eqn:Emk.
    2:{ exists (Thrown e), (withDisk w fs1). split; [done|]. split; [done|]. split; [|done].
        cbn [disk withDisk]. replace fs1 with (FS.ensureDir (disk w) target).2 by (by rewrite Emk).
        apply ensureDir_confined. }
    assert (confined target (disk w) fs1) as Hconf1.
    { replace fs1 with (FS.ensureDir (disk w) target).2 by (by rewrite Emk).
      apply ensureDir_confined. }
    assert (fs1 !! target = Some Dir) as Htarget.
    { rewrite <- stat_lookup by done.
      replace fs1 with (FS.ensureDir (disk w) target).2 by (by rewrite Emk).
      apply ensureDir_made. by rewrite Emk. }
    assert (∀ cs w1,
      (∀ c, c ∈ cs → is_Some (disk w !! (source ++ [c]))) →
      sameBelow source (disk w) (disk w1) →
      ∃ r w', forEachSync cs
                (λ file, copyFolderRecursive names depth (source ++ [file]) (target ++ [file]))
                w1 = Some (r, w') ∧
              notices w' = notices w1 ∧
              confined target (disk w1) (disk w') ∧
              (∀ q n, (∀ c, c ∈ cs → ¬ target ++ [c] `prefix_of` q) →
                      disk w1 !! q = Some n → disk w' !! q = Some n) ∧
              (r = Returned () →
               ∀ c, c ∈ cs → copied (source ++ [c]) (target ++ [c]) (disk w) (disk w')))
      as Hloop.
    { induction cs as [|c cs IHcs]; intros w1 Hcs Hsame.
      - exists (Returned ()), w1. split; [done|]. split; [done|].
        split; [apply confined_refl|]. split; [done|]. intros _ c Hc. by apply elem_of_nil in Hc.
      - rewrite forEachSync_cons.
        destruct (IH (source ++ [c]) (target ++ [c]) w1) as (r1 & w2 & Hrun & Hnot & Hconf & Hcopy).
        { by apply incomparable_child. }
        { apply treeBelow_child. by apply (sameBelow_treeBelow source (disk w)). }
        { rewrite (sameBelow_inside source [c] (disk w)) by done.
          pose proof (inside_child (disk w) source c) as Hlt.
          specialize (Hlt (Hcs c ltac:(by left))). lia. }
        rewrite Hrun.
        assert (confined target (disk w1) (disk w2)) as Hconf'.
        { apply (confined_weaken target (target ++ [c])); [by apply prefix_app_r|done]. }
        destruct r1 as [[]|e].
        2:{ exists (Thrown e), w2. split; [done|]. split; [done|]. split; [done|].
            split; [|done]. intros q n Hq Hn. apply Hconf; [|done]. apply Hq. by left. }
        destruct (IHcs w2) as (r & w' & Hrest & Hnot' & Hconfr & Hkept & Hcopies).
        { intros c' Hc'. apply Hcs. by right. }
        { apply (sameBelow_trans source _ (disk w1)); [done|].
          by apply (confined_sameBelow source target). }
        exists r, w'. split; [done|]. split; [congruence|].
        split; [by apply (confined_trans target _ (disk w2))|]. split.
        + intros q n Hq Hn. apply Hkept; [intros c' Hc'; apply Hq; by right|].
          apply Hconf; [|done]. apply Hq. by left.
        + intros -> c' Hc'. destruct (decide (c' ∈ cs)) as [Hin|Hnin]; [by apply Hcopies|].
          apply elem_of_cons in Hc' as [->|?]; [|done].
          intros rel n Hn. apply Hkept.
          * intros c' Hc'. rewrite <- app_assoc. apply sibling_not_prefix. by intros ->.
          * apply Hcopy; [done|].
            rewrite Hsame; [done|]. rewrite <- app_assoc. by apply prefix_app_r. }
    destruct (Hloop (names fs1 source) (withDisk w fs1)) as (r & w' & Hrun & Hnot & Hconf & Hkept & Hcopies).
    { intros c Hc%Hlists. rewrite <- (confined_sameBelow source target (disk w) fs1); try done.
      by apply prefix_app_r. }
    { by apply (confined_sameBelow source target). }
    exists r, w'. split; [done|]. split; [done|].
    split; [by apply (confined_trans target _ fs1)|].
    intros -> rel n Hn. destruct rel as [|c rel].
    + rewrite app_nil_r in *. assert (n = Dir) as -> by congruence.
      apply Hkept; [|done]. intros c _. apply prefix_snoc_not.
    + replace (target ++ c :: rel) with ((target ++ [c]) ++ rel) by (by rewrite <- app_assoc).
      apply (Hcopies eq_refl c); [|by rewrite <- app_assoc].
      apply Hlists. cbn [disk withDisk].
      rewrite (confined_sameBelow source target (disk w) fs1) by
        (done || by apply prefix_app_r).
      apply (treeBelow_root _ (source ++ [c]) rel); [by apply treeBelow_child|].
      rewrite <- app_assoc. by eexists.
  - (* a regular file *)
    eexists _, _. split; [done|]. split; [done|]. cbn [disk withDisk].
    split; [apply writeFile_confined|].
    intros Hok rel n Hn.
    assert (rel = []) as ->.
    { apply (treeBelow_file (disk w) source rel d); [done|done|by eexists]. }
    rewrite app_nil_r in *. assert (n = File d) as -> by congruence.
    by apply writeFile_written.
  - (* nothing there *)
    exists (Returned ()), w. split; [done|]. split; [done|]. split; [apply confined_refl|].
    intros _ rel n Hn.
    assert (is_Some (disk w !! source)) as [m Hm]; [|congruence].
    apply (treeBelow_root _ source rel); [done|by eexists].
Qed.

Lemma copyFolderRecursive_confined (depth : nat) (source target : Path.t) (w w' : bench)
    (r : outcome unit) :
  copyFolderRecursive names depth source target w = Some (r, w') →
  notices w' = notices w ∧ confined target (disk w) (disk w').
Proof.
  revert source target w w' r.
  induction depth as [|depth IH]; intros source target w w' r; [done|].
  rewrite copyFolderRecursive_step.
  destruct (FS.stat (disk w) source) as [[|d]|] eqn:Esrc.
  - pose proof (ensureDir_confined (disk w) target) as Hconf1.
    destruct (FS.ensureDir (disk w) target) as [[[]|e] fs1] eqn:Emk; cbn [snd] in Hconf1.
    2:{ intros [= <- <-]. by split. }
    assert (∀ cs w1,
      forEachSync cs
        (λ file, copyFolderRecursive names depth (source ++ [file]) (target ++ [file]))
        w1 = Some (r, w') →
      notices w' = notices w1 ∧ confined target (disk w1) (disk w')) as Hloop.
    { induction cs as [|c cs IHcs]; intros w1.
      - intros [= <- <-]. split; [done|apply confined_refl].
      - rewrite forEachSync_cons.
        destruct (copyFolderRecursive names depth (source ++ [c]) (target ++ [c]) w1)
          as [[r1 w2]|] eqn:Hrun; [|done].
        apply IH in Hrun as [Hnot Hconf].
        apply (confined_weaken target) in Hconf; [|by apply prefix_app_r].
        destruct r1 as [[]|e].
        + intros [Hnot' Hconf']%IHcs. split; [congruence|].
          by apply (confined_trans target _ (disk w2)).
        + intros [= <- <-]. by split. }
    intros [Hnot Hconf]%Hloop. split; [done|]. by apply (confined_trans target _ fs1).
  - intros [= <- <-]. split; [done|]. apply writeFile_confined.
  - intros [= <- <-]. split; [done|]. apply confined_refl.
Qed.

(** A directory is listed without repetition. *)
Definition distinct : Prop := ∀ fs p, NoDup (names fs p).

Hypothesis Hdistinct : distinct.

(** Nothing is at or below [target] except, at most, [target] itself as a
    directory that [source], a directory or nothing, may be copied into; and
    what leads to [target] are directories. *)
Definition vacant (source target : Path.t) (fs : FS.t) : Prop :=
  (∀ rel, rel ≠ [] → fs !! (target ++ rel) = None) ∧
  (∀ q, q ≠ [] → q `prefix_of` target → q ≠ target → fs !! q = Some Dir) ∧
  (fs !! target = None ∨ (fs !! target = Some Dir ∧ ∀ d, fs !! source ≠ Some (File d))).

Lemma copyFolderRecursive_fresh (depth : nat) (source target : Path.t) (w : bench) :
  incomparable source target → treeBelow (disk w) source →
  size (inside (disk w) source) < depth →
  vacant source target (disk w) →
  ∃ w', copyFolderRecursive names depth source target w = Some (Returned (), w').
Proof.
  revert source target w.
  induction depth as [|depth IH]; intros source target w Hinc Htree Hsize Hvac; [lia|].
  destruct Hvac as (Hbelow & Hway & Hat).
  assert (source ≠ []) as Hsrc.
  { intros ->. destruct Hinc as [H _]. apply H. apply prefix_nil. }
  assert (target ≠ []) as Htgt.
  { intros ->. destruct Hinc as [_ H]. apply H. apply prefix_nil. }
  rewrite copyFolderRecursive_step. rewrite stat_lookup by done.
  destruct (disk w !! source) as [[|d]|] eqn:Esrc.
  - (* a directory *)
    assert ((FS.ensureDir (disk w) target).1 = Returned ()) as Hok.
    { apply mkdirs_clear. intros q d Hq0 Hq. cbn in Hq.
      destruct (decide (q = target)) as [->|Hne]; [by destruct Hat as [->|[-> _]]|].
      by rewrite Hway. }
    pose proof (ensureDir_confined (disk w) target) as Hconf1.
    assert (∀ q, q ≠ [] → q `prefix_of` target → (FS.ensureDir (disk w) target).2 !! q = Some Dir)
      as Hpre1 by (intros q Hq0 Hq; by apply ensureDir_prefixes).
    assert (∀ rel, rel ≠ [] → (FS.ensureDir (disk w) target).2 !! (target ++ rel) = None)
      as Hbelow1.
    { intros rel Hrel. rewrite <- (Hbelow rel Hrel). apply mkdirs_other. cbn.
      intros [k Hk]. rewrite <- app_assoc in Hk.
      rewrite <- (app_nil_r target) in Hk at 1. apply app_inv_head in Hk.
      symmetry in Hk. apply app_eq_nil in Hk as [? _]. done. }
    destruct (FS.ensureDir (disk w) target) as [r1 fs1] eqn:Emk. cbn [fst snd] in *. subst r1.
    assert (∀ cs w1,
      NoDup cs →
      (∀ c, c ∈ cs → is_Some (disk w !! (source ++ [c]))) →
      sameBelow source (disk w) (disk w1) →
      (∀ c rel, c ∈ cs → disk w1 !! (target ++ [c] ++ rel) = None) →
      (∀ q, q ≠ [] → q `prefix_of` target → disk w1 !! q = Some Dir) →
      ∃ w', forEachSync cs
              (λ file, copyFolderRecursive names depth (source ++ [file]) (target ++ [file]))
              w1 = Some (Returned (), w')) as Hloop.
    { induction cs as [|c cs IHcs]; intros w1 Hnodup Hcs Hsame Hfree Hdirs; [by eexists|].
      apply NoDup_cons in Hnodup as [Hc Hnodup].
      rewrite forEachSync_cons.
      destruct (IH (source ++ [c]) (target ++ [c]) w1) as (w2 & Hrun).
      { by apply incomparable_child. }
      { apply treeBelow_child. by apply (sameBelow_treeBelow source (disk w)). }
      { rewrite (sameBelow_inside source [c] (disk w)) by done.
        pose proof (inside_child (disk w) source c) as Hlt.
        specialize (Hlt (Hcs c ltac:(by left))). lia. }
      { split; [|split].
        - intros rel _. rewrite <- app_assoc. apply Hfree. by left.
        - intros q Hq0 Hq Hne. apply Hdirs; [done|]. by apply (prefix_snoc_inv q target c).
        - left. specialize (Hfree c [] ltac:(by left)). by rewrite app_nil_r in Hfree. }
      rewrite Hrun. apply copyFolderRecursive_confined in Hrun as [_ Hconf].
      apply IHcs; [done| | | |].
      - intros c' Hc'. apply Hcs. by right.
      - apply (sameBelow_trans source _ (disk w1)); [done|].
        apply (confined_sameBelow source target); [done|].
        apply (confined_weaken target (target ++ [c])); [by apply prefix_app_r|done].
      - intros c' rel Hc'. rewrite <- (Hfree c' rel) by (by right).
        apply Hconf.
        + apply sibling_not_prefix. by intros ->.
        + intros H%prefix_app_inv. destruct H as [k Hk]. simplify_eq/=.
      - intros q Hq0 Hq. destruct Hconf as (_ & _ & _ & Hstay). by apply Hstay, Hdirs. }
    apply (Hloop (names fs1 source) (withDisk w fs1)).
    + apply Hdistinct.
    + intros c Hc%Hlists. rewrite <- (confined_sameBelow source target (disk w) fs1); try done.
      by apply prefix_app_r.
    + by apply (confined_sameBelow source target).
    + intros c rel _. by apply Hbelow1.
    + done.
  - (* a regular file *)
    destruct Hat as [Hat|[_ Hno]]; [|by destruct (Hno d)].
    eexists. f_equal. f_equal. unfold FS.writeFile.
    rewrite (stat_lookup _ target), Hat by done.
    by rewrite (stat_parent (disk w) target).
  - by eexists.
Qed.

End CopyFolder.

(** Below [target], only what has a counterpart below [source] is touched. *)
Lemma copyFolderRecursive_precise (names : listing) (depth : nat) (source target : Path.t)
    (w w' : bench) (r : outcome unit) :
  incomparable source target →
  copyFolderRecursive names depth source target w = Some (r, w') →
  ∀ rel, disk w !! (source ++ rel) = None → disk w' !! (target ++ rel) = disk w !! (target ++ rel).
Proof.
  revert source target w w' r.
  induction depth as [|depth IH]; intros source target w w' r Hinc; [done|].
  assert (source ≠ []) as Hsrc.
  { intros ->. destruct Hinc as [H _]. apply H. apply prefix_nil. }
  assert (target ≠ []) as Htgt.
  { intros ->. destruct Hinc as [_ H]. apply H. apply prefix_nil. }
  rewrite copyFolderRecursive_step. rewrite stat_lookup by done.
  destruct (disk w !! source) as [[|d]|] eqn:Esrc.
  - pose proof (ensureDir_confined (disk w) target) as Hconf1.
    assert (∀ rel, rel ≠ [] →
              (FS.ensureDir (disk w) target).2 !! (target ++ rel) = disk w !! (target ++ rel))
      as Hmk.
    { intros rel Hrel. apply mkdirs_other. cbn. intros Hpre%prefix_length.
      rewrite length_app in Hpre. destruct rel; [done|]. cbn in Hpre. lia. }
    destruct (FS.ensureDir (disk w) target) as [[[]|e] fs1] eqn:Emk; cbn [snd] in *.
    2:{ intros [= <- <-] rel Hrel. cbn [disk withDisk]. apply Hmk.
        intros ->. rewrite app_nil_r in Hrel. congruence. }
    assert (∀ cs w1,
      sameBelow source (disk w) (disk w1) →
      forEachSync cs
        (λ file, copyFolderRecursive names depth (source ++ [file]) (target ++ [file]))
        w1 = Some (r, w') →
      ∀ rel, disk w !! (source ++ rel) = None →
             disk w' !! (target ++ rel) = disk w1 !! (target ++ rel)) as Hloop.
    { induction cs as [|c cs IHcs]; intros w1 Hsame.
      - by intros [= <- <-].
      - rewrite forEachSync_cons.
        destruct (copyFolderRecursive names depth (source ++ [c]) (target ++ [c]) w1)
          as [[r1 w2]|] eqn:Hrun; [|done].
        pose proof (copyFolderRecursive_confined names depth _ _ _ _ _ Hrun) as [_ Hconf].
        assert (∀ rel, disk w !! (source ++ rel) = None →
                       disk w2 !! (target ++ rel) = disk w1 !! (target ++ rel)) as Hstep.
        { intros rel Hrel. destruct rel as [|x rel].
          { rewrite app_nil_r in Hrel. congruence. }
          destruct (decide (x = c)) as [->|Hx].
          - replace (target ++ c :: rel) with ((target ++ [c]) ++ rel)
              by (by rewrite <- app_assoc).
            apply (IH _ _ _ _ _ (incomparable_child _ _ c Hinc) Hrun).
            rewrite <- app_assoc. rewrite Hsame; [done|]. by apply prefix_app_r.
          - destruct Hconf as (_ & Hout & _ & _). apply Hout.
            + replace (target ++ x :: rel) with ((target ++ [x]) ++ rel)
                by (by rewrite <- app_assoc).
              apply siblings_apart. by intros ->.
            + intros H%prefix_app_inv. destruct H as [k Hk]. by simplify_eq/=. }
        destruct r1 as [[]|e].
        + intros Hrest rel Hrel. rewrite <- Hstep by done.
          apply (IHcs w2); [|done|done].
          apply (sameBelow_trans source _ (disk w1)); [done|].
          apply (confined_sameBelow source target); [done|].
          apply (confined_weaken target (target ++ [c])); [by apply prefix_app_r|done].
        + intros [= <- <-]. done. }
    assert (sameBelow source (disk w) (disk (withDisk w fs1))) as Hsame1
      by (by apply (confined_sameBelow source target)).
    intros Hrun rel Hrel. rewrite (Hloop _ _ Hsame1 Hrun rel Hrel). cbn [disk withDisk].
    apply Hmk. intros ->. rewrite app_nil_r in Hrel. congruence.
  - remember (FS.writeFile (disk w) target false d) as res eqn:Hres.
    intros [= <- <-] rel Hrel. cbn [disk withDisk]. rewrite Hres. apply writeFile_other.
    intros H. rewrite <- (app_nil_r target) in H at 1. apply app_inv_head in H. subst rel.
    rewrite app_nil_r in Hrel. congruence.
  - by intros [= <- <-].
Qed.

(** ** The configuration manager: listings, paths and the list *)

(** A listing to run the manager with: the names below a directory in the
    order of the keys of the map. *)
Definition childrenOf : listing :=
  λ fs p, (λ k, default "" (last k)) <$>
          filter (λ k, k ≠ [] ∧ removelast k = p) (map_to_list fs).*1.

Lemma childrenOf_key (p k : Path.t) :
  k ≠ [] ∧ removelast k = p → k = p ++ [default "" (last k)].
Proof.
  intros [Hne <-]. destruct k as [|x k _] using rev_ind; [done|].
  by rewrite removelast_last, last_snoc.
Qed.

Lemma childrenOf_lists : lists childrenOf.
Proof.
  intros fs p c. unfold childrenOf. rewrite list_elem_of_fmap. split.
  - intros (k & -> & [Hk Hin]%list_elem_of_filter).
    apply childrenOf_key in Hk. rewrite <- Hk.
    apply list_elem_of_fmap in Hin as ([k' n] & -> & Hin%elem_of_map_to_list). by exists n.
  - intros [n Hn]. exists (p ++ [c]). split; [by rewrite last_snoc|].
    apply list_elem_of_filter. split.
    + split; [by destruct p|by rewrite removelast_last].
    + apply list_elem_of_fmap. exists (p ++ [c], n). split; [done|].
      by apply elem_of_map_to_list.
Qed.

Lemma childrenOf_distinct : distinct childrenOf.
Proof.
  intros fs p. unfold childrenOf. apply NoDup_fmap_2_strong.
  - intros k k' [Hk _]%list_elem_of_filter [Hk' _]%list_elem_of_filter Heq.
    apply childrenOf_key in Hk, Hk'. rewrite Hk, Hk'. by rewrite Heq.
  - apply NoDup_filter, NoDup_fst_map_to_list.
Qed.

Lemma inside_size (fs : FS.t) (source : Path.t) : size (inside fs source) ≤ size fs.
Proof. apply map_size_filter. Qed.

(** In a well-formed tree what leads to something is a directory. *)
Lemma wellFormed_way (fs : FS.t) (p q : Path.t) :
  wellFormed fs → is_Some (fs !! p) → q ≠ [] → q `prefix_of` p → q ≠ p →
  fs !! q = Some Dir.
Proof.
  intros Hwf Hp Hq0 [k ->] Hne. destruct k as [|x k]; [by rewrite app_nil_r in Hne|].
  assert (is_Some (fs !! (q ++ [x]))) as Hx.
  { apply (wellFormed_ancestors fs (q ++ [x]) k); [done|by destruct q|].
    by rewrite <- app_assoc. }
  apply Hwf in Hx. by rewrite stat_lookup in Hx.
Qed.

Lemma wellFormed_absent (fs : FS.t) (p rel : Path.t) :
  wellFormed fs → p ≠ [] → fs !! p = None → fs !! (p ++ rel) = None.
Proof.
  intros Hwf Hp Hnone. destruct (fs !! (p ++ rel)) as [n|] eqn:E; [|done].
  destruct (wellFormed_ancestors fs p rel Hwf Hp) as [m Hm]; [by eexists|congruence].
Qed.

Lemma join_segment (base : Path.t) (seg : string) :
  plain seg → hasSlash seg = false → Path.join base seg = base ++ [seg].
Proof.
  intros Hplain Hslash. unfold Path.join. rewrite split_no_slash by done.
  apply resolve_plain. by constructor.
Qed.

Lemma configsPathOf_eq (ws : Path.t) : configsPathOf ws = ws ++ [".agent-configs"].
Proof. unfold configsPathOf. by apply join_segment. Qed.

Lemma configFileOf_eq (ws : Path.t) :
  configFileOf ws = ws ++ [".agent-configs"; "configs.json"].
Proof.
  unfold configFileOf. rewrite configsPathOf_eq, join_segment by done.
  by rewrite <- app_assoc.
Qed.

Lemma basePath_eq (ws : Path.t) :
  Path.join (configsPathOf ws) ".base" = ws ++ [".agent-configs"; ".base"].
Proof. rewrite configsPathOf_eq, join_segment by done. by rewrite <- app_assoc. Qed.

Lemma newConfigPath_eq (ws : Path.t) (name : string) :
  plain name → hasSlash name = false →
  Path.join (configsPathOf ws) name = ws ++ [".agent-configs"; name].
Proof. intros ??. rewrite configsPathOf_eq, join_segment by done. by rewrite <- app_assoc. Qed.

(** What [getConfigurations] makes of the file system. *)
Definition configsIn (parse : parser) (ws : Path.t) (fs : FS.t) : json :=
  match FS.stat fs (configFileOf ws) with
  | Some (File d) =>
      match JSON_parse parse d with
      | Returned value => value
      | Thrown _ => JArray []
      end
  | _ => JArray []
  end.

Lemma getConfigurations_eq (parse : parser) (ws : Path.t) (w : bench) :
  getConfigurations parse ws w = Some (Returned (configsIn parse ws (disk w)), w).
Proof.
  unfold getConfigurations, sync_catch, configsIn, mbind, sync_bind, sync_then, readFileSync.
  destruct (FS.stat (disk w) (configFileOf ws)) as [[|d]|]; try done.
  unfold lift. by destruct (JSON_parse parse d).
Qed.


(** ** The configuration manager: creating a configuration *)

Lemma sync_then_returned {A B : Type} (m : sync A) (f : A → sync B) (w w1 : bench) (a : A) :
  m w = Some (Returned a, w1) → sync_then m f w = f a w1.
Proof. unfold sync_then. by intros ->. Qed.

Lemma dirname_snoc (p : Path.t) (seg : string) : Path.dirname (p ++ [seg]) = p.
Proof. unfold Path.dirname. by rewrite removelast_last. Qed.

Lemma snoc_nonempty (p : Path.t) (seg : string) : p ++ [seg] ≠ [].
Proof. by destruct p. Qed.

Lemma mkdirSync_new (p : Path.t) (w : bench) :
  FS.stat (disk w) p = None → FS.stat (disk w) (Path.dirname p) = Some Dir →
  mkdirSync p w = Some (Returned (), withDisk w (<[p := Dir]> (disk w))).
Proof. intros Hp Hparent. unfold mkdirSync, onDisk, mkdir. by rewrite Hp, Hparent. Qed.

Lemma writeFileSync_ok (p : Path.t) (d : fileData) (w : bench) :
  FS.stat (disk w) p ≠ Some Dir → FS.stat (disk w) (Path.dirname p) = Some Dir →
  writeFileSync p d w = Some (Returned (), withDisk w (<[p := File d]> (disk w))).
Proof.
  intros Hp Hparent. unfold writeFileSync, onDisk, FS.writeFile. rewrite Hparent.
  by destruct (FS.stat (disk w) p) as [[|?]|].
Qed.

Section Configs.

Variable parse : parser.
Variable names : listing.
Hypothesis Hlists : lists names.

Lemma copyFolderRecursive_copies (depth : nat) (source target : Path.t) (w : bench) :
  wellFormed (disk w) → incomparable source target →
  size (inside (disk w) source) < depth →
  ∃ r w', copyFolderRecursive names depth source target w = Some (r, w') ∧
          notices w' = notices w ∧
          confined target (disk w) (disk w') ∧
          (r = Returned () → copied source target (disk w) (disk w')).
Proof.
  intros Hwf Hinc Hdepth. apply copyFolderRecursive_spec; [done|done| |done].
  apply wellFormed_treeBelow; [done|]. intros ->. destruct Hinc as [H _]. apply H, prefix_nil.
Qed.

Hypothesis Hdistinct : distinct names.

(** Copying a template into a directory that has just been made. *)
Lemma copyFolderRecursive_template (depth : nat) (p : Path.t) (base name : string)
    (w : bench) :
  wellFormed (disk w) → base ≠ name →
  disk w !! p = Some Dir →
  disk w !! (p ++ [name]) = None →
  (∀ d, disk w !! (p ++ [base]) ≠ Some (File d)) →
  size (inside (disk w) (p ++ [base])) < depth →
  ∃ w', copyFolderRecursive names depth (p ++ [base]) (p ++ [name])
          (withDisk w (<[p ++ [name] := Dir]> (disk w))) = Some (Returned (), w') ∧
        notices w' = notices w ∧
        confined (p ++ [name]) (<[p ++ [name] := Dir]> (disk w)) (disk w') ∧
        ∀ rel, rel ≠ [] →
               disk w' !! ((p ++ [name]) ++ rel) = disk w !! ((p ++ [base]) ++ rel).
Proof.
  intros Hwf Hne Hp Hnew Hbase Hdepth.
  set (fs1 := <[p ++ [name] := Dir]> (disk w)).
  assert (sameBelow (p ++ [base]) (disk w) fs1) as Hsame.
  { intros q Hq. unfold fs1. apply lookup_insert_ne. intros <-.
    apply (siblings_apart p base name []); [done|by rewrite app_nil_r]. }
  assert (treeBelow fs1 (p ++ [base])) as Htree.
  { apply (sameBelow_treeBelow _ (disk w)); [done|].
    apply wellFormed_treeBelow; [done|apply snoc_nonempty]. }
  assert (size (inside fs1 (p ++ [base])) < depth) as Hsize.
  { pose proof (sameBelow_inside (p ++ [base]) [] (disk w) fs1 Hsame) as Heq.
    rewrite app_nil_r in Heq. by rewrite Heq. }
  assert (∀ rel, rel ≠ [] → fs1 !! ((p ++ [name]) ++ rel) = None) as Hvacant.
  { intros rel Hrel. unfold fs1. rewrite lookup_insert_ne.
    - apply wellFormed_absent; [done|apply snoc_nonempty|done].
    - intros H. apply (f_equal length) in H. rewrite !length_app in H.
      destruct rel; [done|]. cbn in H. lia. }
  destruct (copyFolderRecursive_fresh names Hlists Hdistinct depth (p ++ [base]) (p ++ [name])
              (withDisk w fs1)) as [w' Hrun]; [by apply siblings_incomparable|done|done| |].
  { cbn [disk withDisk]. split; [|split].
    - done.
    - intros q Hq0 Hq Hneq. unfold fs1. rewrite lookup_insert_ne by done.
      apply prefix_snoc_inv in Hq; [|done].
      destruct (decide (q = p)) as [->|Hqp]; [done|].
      by apply (wellFormed_way (disk w) p q).
    - right. unfold fs1. split; [by rewrite lookup_insert_eq|].
      intros d. rewrite Hsame by done. apply Hbase. }
  exists w'. split; [done|].
  destruct (copyFolderRecursive_spec names Hlists depth (p ++ [base]) (p ++ [name])
              (withDisk w fs1)) as (r & w'' & Hrun' & Hnot & Hconf & Hcopied);
    [by apply siblings_incomparable|done|done|].
  rewrite Hrun in Hrun'. injection Hrun' as <- <-.
  split; [done|]. split; [done|].
  intros rel Hrel. destruct (disk w !! ((p ++ [base]) ++ rel)) as [n|] eqn:Hn.
  - apply Hcopied; [done|]. cbn [disk withDisk].
    rewrite Hsame; [done|]. by apply prefix_app_r.
  - rewrite (copyFolderRecursive_precise names depth _ _ _ _ _
               (siblings_incomparable p base name Hne) Hrun); cbn [disk withDisk].
    + by apply Hvacant.
    + rewrite Hsame; [done|]. by apply prefix_app_r.
Qed.

Lemma createConfig_new (depth : nat) (ws : Path.t) (name : string) (items : list json)
    (w : bench) :
  wellFormed (disk w) →
  plain name → hasSlash name = false → name ≠ ".base" → name ≠ "configs.json" →
  disk w !! configsPathOf ws = Some Dir →
  disk w !! Path.join (configsPathOf ws) name = None →
  (∀ d, disk w !! Path.join (configsPathOf ws) ".base" ≠ Some (File d)) →
  disk w !! configFileOf ws ≠ Some Dir →
  getConfigurations parse ws w = Some (Returned (JArray items), w) →
  someNamed name items = Returned false →
  size (inside (disk w) (Path.join (configsPathOf ws) ".base")) < depth →
  ∃ w', createConfig parse names depth ws name w = Some (Returned (), w') ∧
        notices w' =
          InformationMessage
            ("Configuration " +:+ quote +:+ name +:+ quote +:+ " created successfully!")
          :: notices w ∧
        getConfigurations parse ws w' =
          Some (Returned (JArray (items ++ [configEntry name])), w') ∧
        disk w' !! Path.join (configsPathOf ws) name = Some Dir ∧
        (∀ rel, rel ≠ [] →
                disk w' !! (Path.join (configsPathOf ws) name ++ rel)
                = disk w !! (Path.join (configsPathOf ws) ".base" ++ rel)) ∧
        (∀ q, ¬ Path.join (configsPathOf ws) name `prefix_of` q → q ≠ configFileOf ws →
              disk w' !! q = disk w !! q).
Proof.
  intros Hwf Hplain Hslash Hnb Hnc Hdir Hnew Hbase Hfile Hlist Hfresh Hdepth.
  unfold createConfig, mbind, sync_bind.
  rewrite (sync_then_returned _ _ _ _ _ Hlist).
  erewrite sync_then_returned; [|unfold lift; by rewrite Hfresh].
  assert (configFileOf ws = configsPathOf ws ++ ["configs.json"]) as Hcf.
  { unfold configFileOf. by apply join_segment. }
  rewrite Hcf in *. unfold saveConfigList. rewrite Hcf.
  rewrite (join_segment _ ".base") in * by done.
  rewrite (join_segment _ name) in * by done.
  assert (configsPathOf ws ≠ []) as Hp0 by (rewrite configsPathOf_eq; apply snoc_nonempty).
  remember (configsPathOf ws) as p eqn:Hp. clear Hp.
  destruct (copyFolderRecursive_template depth p ".base" name w)
    as (w2 & Hcopy & Hnot & Hconf & Hcopied); try done.
  erewrite sync_then_returned; [|apply mkdirSync_new].
  2:{ rewrite stat_lookup by apply snoc_nonempty. done. }
  2:{ rewrite dirname_snoc, stat_lookup by done. done. }
  rewrite (sync_then_returned _ _ _ _ _ Hcopy).
  assert (disk w2 !! (p ++ ["configs.json"]) = disk w !! (p ++ ["configs.json"])) as Hcfg.
  { destruct Hconf as (_ & Hout & _ & _).
    assert (¬ p ++ [name] `prefix_of` p ++ ["configs.json"]) as H1.
    { rewrite <- (app_nil_r (p ++ ["configs.json"])). by apply siblings_apart. }
    assert (¬ p ++ ["configs.json"] `prefix_of` p ++ [name]) as H2.
    { rewrite <- (app_nil_r (p ++ [name])). apply siblings_apart. by intros <-. }
    rewrite (proj2 (Hout _ H1) H2).
    apply lookup_insert_ne. intros H%(inj (app p)). by simplify_eq. }
  assert (disk w2 !! p = Some Dir) as Hdir2.
  { destruct Hconf as (_ & _ & _ & Hdirs). apply Hdirs.
    rewrite lookup_insert_ne; [done|]. intros H. apply (f_equal length) in H.
    rewrite length_app in H. cbn in H. lia. }
  erewrite sync_then_returned; [|apply writeFileSync_ok].
  2:{ rewrite stat_lookup by apply snoc_nonempty. by rewrite Hcfg. }
  2:{ rewrite dirname_snoc, stat_lookup by done. done. }
  eexists. split; [reflexivity|]. cbn [disk notices withDisk]. split; [by rewrite Hnot|].
  split; [|split; [|split]].
  - rewrite getConfigurations_eq. cbn [disk withDisk]. unfold configsIn.
    rewrite Hcf, stat_lookup by apply snoc_nonempty.
    by rewrite lookup_insert_eq.
  - rewrite lookup_insert_ne by (intros H%(inj (app p)); by simplify_eq).
    destruct Hconf as (_ & _ & _ & Hdirs). apply Hdirs. by rewrite lookup_insert_eq.
  - intros rel Hrel. rewrite lookup_insert_ne; [by apply Hcopied|].
    intros H. apply (siblings_apart p name "configs.json" []); [done|].
    rewrite app_nil_r, H. by apply prefix_app_r.
  - intros q Hq Hqc. rewrite lookup_insert_ne by done.
    assert (p ++ [name] ≠ q) as Hqn by (by intros <-).
    destruct Hconf as (_ & Hout & Hroot & Hdirs).
    destruct (decide (q `prefix_of` p ++ [name])) as [Hpre|Hnpre].
    + destruct (decide (q = [])) as [->|Hq0].
      * by rewrite Hroot, lookup_insert_ne.
      * apply prefix_snoc_inv in Hpre; [|done].
        assert (disk w !! q = Some Dir) as Hqd.
        { destruct (decide (q = p)) as [->|Hqp]; [done|].
          by apply (wellFormed_way (disk w) p q). }
        rewrite Hqd. apply Hdirs. by rewrite lookup_insert_ne.
    + rewrite (proj2 (Hout q Hq) Hnpre). by rewrite lookup_insert_ne.
Qed.

End Configs.


Lemma configFileOf_nonempty (ws : Path.t) : configFileOf ws ≠ [].
Proof. rewrite configFileOf_eq. by destruct ws. Qed.




(** ** The configuration manager: setting up *)

Lemma wellFormed_insert_dir (fs : FS.t) (p : Path.t) :
  wellFormed fs → FS.stat fs (Path.dirname p) = Some Dir → wellFormed (<[p := Dir]> fs).
Proof.
  intros Hwf Hparent q x Hsome.
  assert (FS.stat fs q = Some Dir) as Hq.
  { destruct (decide (p = q ++ [x])) as [->|Hne].
    - by rewrite dirname_snoc in Hparent.
    - rewrite lookup_insert_ne in Hsome by done. by apply (Hwf q x). }
  destruct q as [|y q]; [done|]. cbn [FS.stat] in *.
  destruct (decide (p = y :: q)) as [->|Hne]; [by rewrite lookup_insert_eq|].
  by rewrite lookup_insert_ne.
Qed.

Lemma wellFormed_insert_file (fs : FS.t) (p : Path.t) (d : fileData) :
  wellFormed fs → FS.stat fs (Path.dirname p) = Some Dir → FS.stat fs p ≠ Some Dir →
  wellFormed (<[p := File d]> fs).
Proof.
  intros Hwf Hparent Hp q x Hsome.
  assert (FS.stat fs q = Some Dir) as Hq.
  { destruct (decide (p = q ++ [x])) as [->|Hne].
    - by rewrite dirname_snoc in Hparent.
    - rewrite lookup_insert_ne in Hsome by done. by apply (Hwf q x). }
  destruct q as [|y q]; [done|]. cbn [FS.stat] in *.
  destruct (decide (p = y :: q)) as [->|Hne]; [done|].
  by rewrite lookup_insert_ne.
Qed.

Lemma mkdirs_wellFormed (made todo : Path.t) (fs : FS.t) :
  wellFormed fs → FS.stat fs made = Some Dir → wellFormed (FS.mkdirs made todo fs).2.
Proof.
  revert made fs. induction todo as [|seg rest IH]; intros made fs Hwf Hmade; [done|].
  cbn [FS.mkdirs].
  assert (wellFormed (<[made ++ [seg] := Dir]> fs)) as Hwf'.
  { apply wellFormed_insert_dir; [done|]. by rewrite dirname_snoc. }
  assert (FS.stat (<[made ++ [seg] := Dir]> fs) (made ++ [seg]) = Some Dir) as Hmade'.
  { rewrite stat_lookup by apply snoc_nonempty. by rewrite lookup_insert_eq. }
  destruct (fs !! (made ++ [seg])) as [[|d]|]; [by apply IH|done|by apply IH].
Qed.

Lemma ensureDir_wellFormed (fs : FS.t) (p : Path.t) :
  wellFormed fs → wellFormed (FS.ensureDir fs p).2.
Proof. intros Hwf. by apply mkdirs_wellFormed. Qed.

Lemma writeFile_wellFormed (fs : FS.t) (p : Path.t) (d : fileData) :
  wellFormed fs → wellFormed (FS.writeFile fs p false d).2.
Proof.
  intros Hwf. unfold FS.writeFile.
  destruct (FS.stat fs p) as [[|d']|] eqn:Hp; [done| |];
    destruct (FS.stat fs (Path.dirname p)) as [[|?]|] eqn:Hparent; try done;
    cbn [snd]; apply wellFormed_insert_file; try done; by rewrite Hp.
Qed.

(** What [fs.mkdirSync(p, { recursive: true })] leaves when it returns. *)
Lemma ensureDir_frame (fs : FS.t) (p q : Path.t) :
  (FS.ensureDir fs p).1 = Returned () →
  (FS.ensureDir fs p).2 !! q = if decide (q ≠ [] ∧ q `prefix_of` p) then Some Dir else fs !! q.
Proof.
  intros Hok. case_decide as Hq.
  - destruct Hq as [Hq0 Hq]. by apply ensureDir_prefixes.
  - destruct (decide (q = [])) as [->|Hq0]; [apply mkdirs_root|].
    apply mkdirs_other. cbn. intros Hpre. by apply Hq.
Qed.

Ltac path_ne :=
  let H := fresh in
  intros H;
  first [ apply (inj (app _)) in H; by simplify_eq
        | apply (f_equal length) in H; rewrite ?length_app in H; cbn in H; lia ].

(** The text of a template's [default.txt]. *)
Definition templateText (dir : string) : fileData :=
  Text ("# Default " +:+ dir +:+ " configuration").

(** A file system with the template [dir] under [configsPath]. *)
Definition withTemplate (configsPath : Path.t) (dir : string) (fs : FS.t) : FS.t :=
  <[configsPath ++ [".base"; dir; "default.txt"] := File (templateText dir)]>
    (<[configsPath ++ [".base"; dir] := Dir]> (<[configsPath ++ [".base"] := Dir]> fs)).

(** A file system with a newly set up [configsPath]. *)
Definition installed (configsPath : Path.t) (fs : FS.t) : FS.t :=
  <[configsPath ++ ["configs.json"] := File (Formatted (JArray []))]>
    (withTemplate configsPath "templates"
       (withTemplate configsPath "memory-bank"
          (withTemplate configsPath "rules" (<[configsPath := Dir]> fs)))).

Lemma template_step (P : Path.t) (dir : string) (w : bench) :
  wellFormed (disk w) → P ≠ [] → disk w !! P = Some Dir →
  (∀ d, disk w !! (P ++ [".base"]) ≠ Some (File d)) →
  disk w !! (P ++ [".base"; dir]) = None →
  ∃ w', sync_then (mkdirSyncRecursive (P ++ [".base"; dir]))
          (λ _, writeFileSync (P ++ [".base"; dir; "default.txt"]) (templateText dir)) w
        = Some (Returned (), w') ∧
        notices w' = notices w ∧ wellFormed (disk w') ∧
        disk w' = withTemplate P dir (disk w).
Proof.
  intros Hwf HP0 HP Hbase Hnew.
  assert (∀ q, q `prefix_of` P ++ [".base"; dir] →
               q = P ++ [".base"; dir] ∨ q = P ++ [".base"] ∨ q `prefix_of` P) as Hcases.
  { intros q Hq. destruct (decide (q = P ++ [".base"; dir])) as [?|H1]; [by left|]. right.
    replace (P ++ [".base"; dir]) with ((P ++ [".base"]) ++ [dir]) in * by (by rewrite <- app_assoc).
    apply prefix_snoc_inv in Hq; [|done].
    destruct (decide (q = P ++ [".base"])) as [?|H2]; [by left|]. right.
    by apply prefix_snoc_inv in Hq. }
  assert (∀ q, q ≠ [] → q `prefix_of` P → disk w !! q = Some Dir) as Hway.
  { intros q Hq0 Hq. destruct (decide (q = P)) as [->|Hne]; [done|].
    by apply (wellFormed_way (disk w) P q). }
  assert ((FS.ensureDir (disk w) (P ++ [".base"; dir])).1 = Returned ()) as Hok.
  { apply mkdirs_clear. intros q d Hq0 Hq. cbn in Hq.
    destruct (Hcases q Hq) as [->|[->|Hpre]]; [by rewrite Hnew|done|by rewrite Hway]. }
  pose proof (ensureDir_frame (disk w) (P ++ [".base"; dir])) as Hframe.
  pose proof (ensureDir_wellFormed (disk w) (P ++ [".base"; dir]) Hwf) as Hwf2.
  unfold sync_then, mkdirSyncRecursive, onDisk.
  destruct (FS.ensureDir (disk w) (P ++ [".base"; dir])) as [r fs2]. cbn [fst snd] in *.
  subst r. assert (∀ q, fs2 !! q =
    if decide (q ≠ [] ∧ q `prefix_of` P ++ [".base"; dir]) then Some Dir else disk w !! q)
    as Hframe' by (intros q; by apply Hframe).
  clear Hframe. rename Hframe' into Hframe.
  assert (disk w !! (P ++ [".base"; dir; "default.txt"]) = None) as Hfile.
  { replace (P ++ [".base"; dir; "default.txt"]) with ((P ++ [".base"; dir]) ++ ["default.txt"])
      by (by rewrite <- app_assoc).
    apply wellFormed_absent; [done|by destruct P|done]. }
  assert (FS.stat fs2 (P ++ [".base"; dir; "default.txt"]) ≠ Some Dir) as Hnodir.
  { rewrite stat_lookup by (by destruct P). rewrite Hframe, decide_False, Hfile; [done|].
    intros [_ Hpre]. apply prefix_length in Hpre. rewrite !length_app in Hpre. cbn in Hpre. lia. }
  assert (FS.stat fs2 (Path.dirname (P ++ [".base"; dir; "default.txt"])) = Some Dir) as Hparent.
  { replace (P ++ [".base"; dir; "default.txt"])
      with ((P ++ [".base"; dir]) ++ ["default.txt"]) by (by rewrite <- app_assoc).
    rewrite dirname_snoc, stat_lookup by (by destruct P).
    rewrite Hframe, decide_True; [done|]. split; [by destruct P|done]. }
  rewrite writeFileSync_ok by done. cbn [disk withDisk].
  eexists. split; [done|]. cbn [disk notices withDisk]. split; [done|]. split.
  - by apply wellFormed_insert_file.
  - unfold withTemplate. f_equal. apply map_eq. intros q. rewrite Hframe.
    destruct (decide (q = P ++ [".base"; dir])) as [->|H1].
    { rewrite lookup_insert_eq, decide_True; [done|]. split; [by destruct P|done]. }
    rewrite lookup_insert_ne by done.
    destruct (decide (q = P ++ [".base"])) as [->|H2].
    { rewrite lookup_insert_eq, decide_True; [done|]. split; [by destruct P|].
      exists [dir]. by rewrite <- app_assoc. }
    rewrite lookup_insert_ne by done.
    case_decide as Hpre; [|done]. destruct Hpre as [Hq0 Hpre].
    destruct (Hcases q Hpre) as [->|[->|Hpre']]; [done|done|by rewrite Hway].
Qed.

Lemma templates_paths (P : Path.t) (dir : string) :
  plain dir → hasSlash dir = false →
  Path.join (Path.join P ".base") dir = P ++ [".base"; dir] ∧
  Path.join (Path.join (Path.join P ".base") dir) "default.txt"
  = P ++ [".base"; dir; "default.txt"].
Proof.
  intros Hplain Hslash. rewrite !join_segment by done. by rewrite <- !app_assoc.
Qed.

Lemma ensureDirectoryExists_fresh (ws : Path.t) (w : bench) :
  wellFormed (disk w) → FS.stat (disk w) ws = Some Dir →
  disk w !! configsPathOf ws = None →
  ∃ w', ensureDirectoryExists ws w = Some (Returned (), w') ∧
        notices w' = notices w ∧ wellFormed (disk w') ∧
        disk w' = installed (configsPathOf ws) (disk w).
Proof.
  intros Hwf Hws Hnone.
  unfold ensureDirectoryExists, mbind, sync_bind, createBaseTemplates, saveConfigList.
  cbn [forEachSync]. unfold mbind, sync_bind.
  assert (configFileOf ws = configsPathOf ws ++ ["configs.json"]) as ->.
  { unfold configFileOf. by apply join_segment. }
  destruct (templates_paths (configsPathOf ws) "rules") as [-> ->]; [done|done|].
  destruct (templates_paths (configsPathOf ws) "memory-bank") as [-> ->]; [done|done|].
  destruct (templates_paths (configsPathOf ws) "templates") as [-> ->]; [done|done|].
  assert (Path.dirname (configsPathOf ws) = ws) as Hparent.
  { rewrite configsPathOf_eq. apply dirname_snoc. }
  assert (configsPathOf ws ≠ []) as HP0 by (rewrite configsPathOf_eq; apply snoc_nonempty).
  remember (configsPathOf ws) as P eqn:HP. clear HP.
  assert (∀ rel, disk w !! (P ++ rel) = None) as Habsent.
  { intros rel. by apply wellFormed_absent. }
  erewrite sync_then_returned; [|unfold existsSync, FS.pathExists;
                                 by rewrite (stat_lookup _ P), Hnone].
  cbv beta iota.
  erewrite sync_then_returned;
    [|apply mkdirSync_new; [by rewrite stat_lookup|by rewrite Hparent]].
  set (w1 := withDisk w (<[P := Dir]> (disk w))).
  assert (wellFormed (disk w1)) as Hwf1.
  { apply wellFormed_insert_dir; [done|by rewrite Hparent]. }
  destruct (template_step P "rules" w1) as (w2 & Hrun2 & Hnot2 & Hwf2 & Hdisk2); try done.
  { apply lookup_insert_eq. }
  { intros d. unfold w1. cbn [disk withDisk]. rewrite lookup_insert_ne by path_ne.
    by rewrite Habsent. }
  { unfold w1. cbn [disk withDisk]. rewrite lookup_insert_ne by path_ne. apply Habsent. }
  destruct (template_step P "memory-bank" w2) as (w3 & Hrun3 & Hnot3 & Hwf3 & Hdisk3);
    try done.
  { rewrite Hdisk2. unfold withTemplate, w1. cbn [disk withDisk].
    rewrite !lookup_insert_ne by path_ne. apply lookup_insert_eq. }
  { intros d. rewrite Hdisk2. unfold withTemplate.
    rewrite !lookup_insert_ne by path_ne. by rewrite lookup_insert_eq. }
  { rewrite Hdisk2. unfold withTemplate, w1. cbn [disk withDisk].
    rewrite !lookup_insert_ne by path_ne. apply Habsent. }
  destruct (template_step P "templates" w3) as (w4 & Hrun4 & Hnot4 & Hwf4 & Hdisk4);
    try done.
  { rewrite Hdisk3, Hdisk2. unfold withTemplate, w1. cbn [disk withDisk].
    rewrite !lookup_insert_ne by path_ne. apply lookup_insert_eq. }
  { intros d. rewrite Hdisk3. unfold withTemplate.
    rewrite !lookup_insert_ne by path_ne. by rewrite lookup_insert_eq. }
  { rewrite Hdisk3, Hdisk2. unfold withTemplate, w1. cbn [disk withDisk].
    rewrite !lookup_insert_ne by path_ne. apply Habsent. }
  erewrite sync_then_returned.
  2:{ erewrite sync_then_returned; [|exact Hrun2].
      erewrite sync_then_returned; [|exact Hrun3].
      erewrite sync_then_returned; [|exact Hrun4]. done. }
  assert (disk w4 !! (P ++ ["configs.json"]) = None) as Hcf.
  { rewrite Hdisk4, Hdisk3, Hdisk2. unfold withTemplate, w1. cbn [disk withDisk].
    rewrite !lookup_insert_ne by path_ne. apply Habsent. }
  assert (disk w4 !! P = Some Dir) as HP4.
  { rewrite Hdisk4, Hdisk3, Hdisk2. unfold withTemplate, w1. cbn [disk withDisk].
    rewrite !lookup_insert_ne by path_ne. apply lookup_insert_eq. }
  rewrite writeFileSync_ok.
  - eexists. split; [done|]. cbn [disk notices withDisk].
    split; [by rewrite Hnot4, Hnot3, Hnot2|]. split.
    + apply wellFormed_insert_file; [done| |].
      * by rewrite dirname_snoc, stat_lookup.
      * rewrite stat_lookup by apply snoc_nonempty. by rewrite Hcf.
    + unfold installed. by rewrite Hdisk4, Hdisk3, Hdisk2.
  - rewrite stat_lookup by apply snoc_nonempty. by rewrite Hcf.
  - by rewrite dirname_snoc, stat_lookup.
Qed.

Lemma size_insert_le (fs : FS.t) (p : Path.t) (n : node) : size (<[p := n]> fs) ≤ S (size fs).
Proof. rewrite map_size_insert. destruct (fs !! p); cbn; lia. Qed.

Lemma installed_base (P : Path.t) (fs : FS.t) :
  (∀ rel, fs !! (P ++ rel) = None) →
  size (inside (installed P fs) (P ++ [".base"])) ≤ 6.
Proof.
  intros Habsent.
  set (M := (<[P ++ [".base"; "templates"; "default.txt"] := File (templateText "templates")]>
            (<[P ++ [".base"; "templates"] := Dir]>
            (<[P ++ [".base"; "memory-bank"; "default.txt"] := File (templateText "memory-bank")]>
            (<[P ++ [".base"; "memory-bank"] := Dir]>
            (<[P ++ [".base"; "rules"; "default.txt"] := File (templateText "rules")]>
            (<[P ++ [".base"; "rules"] := Dir]> ∅))))) : FS.t)).
  transitivity (size M).
  - apply map_subseteq_size, map_subseteq_spec.
    intros q n [Hq [Hpre Hne]]%map_lookup_filter_Some. cbn in Hpre, Hne.
    unfold installed, withTemplate in Hq. unfold M.
    destruct (decide (q = P ++ ["configs.json"])) as [->|?].
    { exfalso. revert Hpre. rewrite <- (app_nil_r (P ++ ["configs.json"])).
      by apply siblings_apart. }
    rewrite lookup_insert_ne in Hq by done.
    repeat match type of Hq with
           | <[?k := ?v]> ?m !! q = Some n =>
               destruct (decide (q = k)) as [->|?];
               [ try done; rewrite lookup_insert_eq in Hq; rewrite <- Hq;
                 rewrite ?lookup_insert_ne by path_ne; by rewrite lookup_insert_eq
               | rewrite lookup_insert_ne in Hq by done ]
           end.
    destruct (decide (q = P)) as [->|?].
    { apply prefix_length in Hpre. rewrite length_app in Hpre. cbn in Hpre. lia. }
    rewrite lookup_insert_ne in Hq by done.
    destruct Hpre as [k ->]. rewrite <- app_assoc in Hq. by rewrite Habsent in Hq.
  - unfold M. repeat (etrans; [apply size_insert_le|]; apply le_n_S).
    by rewrite map_size_empty.
Qed.

Lemma sync_then_thrown {A B : Type} (m : sync A) (f : A → sync B) (w w' : bench)
    (e : string) :
  sync_then m f w = Some (Thrown e, w') →
  m w = Some (Thrown e, w') ∨ ∃ a w1, m w = Some (Returned a, w1) ∧ f a w1 = Some (Thrown e, w').
Proof.
  unfold sync_then. destruct (m w) as [[[a|e'] w1]|]; [|intros [= -> ->]; by left|done].
  intros H. right. by exists a, w1.
Qed.

Lemma mkdir_thrown (fs : FS.t) (p : Path.t) (e : string) :
  (mkdir fs p).1 = Thrown e → (mkdir fs p).2 = fs.
Proof.
  unfold mkdir. destruct (FS.stat fs p); [done|].
  by destruct (FS.stat fs (Path.dirname p)) as [[|?]|].
Qed.

Lemma mkdir_returned (fs : FS.t) (p : Path.t) :
  (mkdir fs p).1 = Returned () → FS.stat fs p = None ∧ (mkdir fs p).2 = <[p := Dir]> fs.
Proof.
  unfold mkdir. destruct (FS.stat fs p); [done|].
  by destruct (FS.stat fs (Path.dirname p)) as [[|?]|].
Qed.

Lemma writeFile_thrown (fs : FS.t) (p : Path.t) (slash : bool) (d : fileData) (e : string) :
  (FS.writeFile fs p slash d).1 = Thrown e → (FS.writeFile fs p slash d).2 = fs.
Proof.
  unfold FS.writeFile. destruct slash; [done|].
  destruct (FS.stat fs p) as [[|?]|]; try done;
    by destruct (FS.stat fs (Path.dirname p)) as [[|?]|].
Qed.

Lemma onDisk_inv {R : Type} (f : FS.t → outcome R * FS.t) (w w' : bench) (r : outcome R) :
  onDisk f w = Some (r, w') → (f (disk w)).1 = r ∧ w' = withDisk w (f (disk w)).2.
Proof. unfold onDisk. by intros [= <- <-]. Qed.

Lemma withDisk_same (w : bench) : withDisk w (disk w) = w.
Proof. by destruct w. Qed.

(** What [getConfigurations] reads depends on the file alone. *)
Lemma configsIn_agree (parse : parser) (ws : Path.t) (fs fs' : FS.t) :
  (∀ d, fs' !! configFileOf ws = Some (File d) ↔ fs !! configFileOf ws = Some (File d)) →
  configsIn parse ws fs' = configsIn parse ws fs.
Proof.
  intros Hsame. unfold configsIn. rewrite !stat_lookup by apply configFileOf_nonempty.
  destruct (fs' !! configFileOf ws) as [[|d']|];
    destruct (fs !! configFileOf ws) as [[|d]|]; try done;
    try (by pose proof (proj2 (Hsame _) eq_refl));
    try (by pose proof (proj1 (Hsame _) eq_refl)).
  pose proof (proj1 (Hsame d') eq_refl). by simplify_eq.
Qed.

(** ** The configuration manager: scenarios and what it guarantees *)

(** A workspace folder that the manager has not seen yet. *)
Definition bareWorkspace : bench :=
  {| disk := list_to_map [ (["ws"], Dir); (["ws"; "README.md"], File (Text "hello")) ];
     notices := [] |}.

(** The same workspace with [.agent-configs] set up. *)
Definition readyWorkspace : bench :=
  {| disk := installed ["ws"; ".agent-configs"] (disk bareWorkspace); notices := [] |}.

(** A [JSON.parse] that accepts nothing. *)
Definition noParse : parser := λ _, None.

(** X22: In a well-formed file tree, for a source and a
    target neither of which is at or below the other, and a depth above the
    number of entries below the source, [copyFolderRecursive] comes to an end;
    when it returns, everything at or below the source, directories and files
    alike, is at the same relative path below the target, and is still in
    place below the source. *)
Theorem copyFolder_copies (names : listing) (depth : nat) (source target : Path.t)
    (w : bench) :
  lists names → wellFormed (disk w) → incomparable source target →
  size (inside (disk w) source) < depth →
  ∃ r w', copyFolderRecursive names depth source target w = Some (r, w') ∧
          (r = Returned () →
           ∀ rel n, disk w !! (source ++ rel) = Some n →
                    disk w' !! (target ++ rel) = Some n ∧
                    disk w' !! (source ++ rel) = Some n).
Proof.
  intros Hlists Hwf Hinc Hdepth.
  destruct (copyFolderRecursive_copies names Hlists depth source target w)
    as (r & w' & Hrun & _ & Hconf & Hcopied); try done.
  exists r, w'. split; [done|]. intros Hr rel n Hn. split; [by apply Hcopied|].
  rewrite (confined_sameBelow source target (disk w) (disk w')); try done.
  by apply prefix_app_r.
Qed.

Lemma copyFolder_copies_witness :
  ∃ r w', copyFolderRecursive childrenOf 7 ["ws"; ".agent-configs"; ".base"] ["ws"; ".agent"]
            readyWorkspace = Some (r, w') ∧
          (r = Returned () →
           ∀ rel n, disk readyWorkspace !! (["ws"; ".agent-configs"; ".base"] ++ rel) = Some n →
                    disk w' !! (["ws"; ".agent"] ++ rel) = Some n ∧
                    disk w' !! (["ws"; ".agent-configs"; ".base"] ++ rel) = Some n).
Proof.
  apply (copyFolder_copies childrenOf 7 ["ws"; ".agent-configs"; ".base"] ["ws"; ".agent"]
           readyWorkspace).
  - apply childrenOf_lists.
  - apply wellFormed_check. apply (bool_decide_unpack _). vm_compute. exact I.
  - apply (bool_decide_unpack _). vm_compute. exact I.
  - vm_compute. lia.
Defined.

(** X23: Whenever [copyFolderRecursive] comes to an end,
    returning or throwing, for a source and a target neither of which is at or
    below the other: it has shown no message; nothing that existed is gone and
    every directory is still a directory; a path that is neither at or below
    the target nor on the way to it is unchanged; and below the target only
    paths whose counterpart below the source exists can have changed, so what
    the target folder held besides stays (the copy merges). *)
Theorem copyFolder_only_adds (names : listing) (depth : nat) (source target : Path.t)
    (w w' : bench) (r : outcome unit) :
  incomparable source target →
  copyFolderRecursive names depth source target w = Some (r, w') →
  notices w' = notices w ∧
  (∀ q, is_Some (disk w !! q) → is_Some (disk w' !! q)) ∧
  (∀ q, disk w !! q = Some Dir → disk w' !! q = Some Dir) ∧
  (∀ q, ¬ target `prefix_of` q → ¬ q `prefix_of` target → disk w' !! q = disk w !! q) ∧
  (∀ rel, disk w !! (source ++ rel) = None →
          disk w' !! (target ++ rel) = disk w !! (target ++ rel)).
Proof.
  intros Hinc Hrun.
  destruct (copyFolderRecursive_confined names depth source target w w' r Hrun)
    as (Hnot & Hkeep & Hout & _ & Hdirs).
  split; [done|]. split; [done|]. split; [done|]. split.
  - intros q Hq Hnot'. by apply Hout.
  - by apply (copyFolderRecursive_precise names depth source target w w' r).
Qed.

(** A workspace that has a [.agent] folder with a file of its own, and the
    template copied over it. *)
Definition usedWorkspace : bench :=
  {| disk := <[["ws"; ".agent"; "notes.txt"] := File (Text "mine")]>
               (<[["ws"; ".agent"] := Dir]> (disk readyWorkspace));
     notices := [] |}.

Definition copiedOver : outcome unit * bench :=
  default (Returned (), usedWorkspace)
    (copyFolderRecursive childrenOf 7 ["ws"; ".agent-configs"; ".base"] ["ws"; ".agent"]
       usedWorkspace).

Lemma copyFolder_only_adds_witness :
  copyFolderRecursive childrenOf 7 ["ws"; ".agent-configs"; ".base"] ["ws"; ".agent"]
    usedWorkspace = Some (copiedOver.1, copiedOver.2) ∧
  disk copiedOver.2 !! ["ws"; ".agent"; "notes.txt"] = Some (File (Text "mine")).
Proof.
  assert (copyFolderRecursive childrenOf 7 ["ws"; ".agent-configs"; ".base"] ["ws"; ".agent"]
            usedWorkspace = Some (copiedOver.1, copiedOver.2)) as Hrun.
  { vm_cast_no_check (eq_refl (Some (copiedOver.1, copiedOver.2))). }
  split; [exact Hrun|].
  destruct (copyFolder_only_adds childrenOf 7 ["ws"; ".agent-configs"; ".base"]
              ["ws"; ".agent"] usedWorkspace copiedOver.2 copiedOver.1)
    as (_ & _ & _ & _ & Hmerge).
  - apply (bool_decide_unpack _). vm_compute. exact I.
  - exact Hrun.
  - change (disk copiedOver.2 !! (["ws"; ".agent"] ++ ["notes.txt"])
            = Some (File (Text "mine"))).
    rewrite (Hmerge ["notes.txt"]); vm_compute; reflexivity.
Defined.

(** X24: In a well-formed file tree, copying to a target
    that does not exist and whose parent is a directory (source and target not
    at or below each other, the depth above the number of entries below the
    source) always returns, and the target is then an exact copy: at every
    relative path it holds what the source holds there, and nothing where the
    source holds nothing. *)
Theorem copyFolder_into_new (names : listing) (depth : nat) (source target : Path.t)
    (w : bench) :
  lists names → distinct names → wellFormed (disk w) → incomparable source target →
  size (inside (disk w) source) < depth →
  disk w !! target = None → FS.stat (disk w) (Path.dirname target) = Some Dir →
  ∃ w', copyFolderRecursive names depth source target w = Some (Returned (), w') ∧
        ∀ rel, disk w' !! (target ++ rel) = disk w !! (source ++ rel).
Proof.
  intros Hlists Hdistinct Hwf Hinc Hdepth Hnew Hparent.
  assert (source ≠ []) as Hsrc.
  { intros ->. destruct Hinc as [H _]. apply H. apply prefix_nil. }
  assert (target ≠ []) as Htgt.
  { intros ->. destruct Hinc as [_ H]. apply H. apply prefix_nil. }
  assert (treeBelow (disk w) source) as Htree by (by apply wellFormed_treeBelow).
  destruct (copyFolderRecursive_fresh names Hlists Hdistinct depth source target w)
    as [w' Hrun]; try done.
  { split; [|split].
    - intros rel _. by apply wellFormed_absent.
    - intros q Hq0 Hq Hne. destruct target as [|x target _] using rev_ind; [done|].
      rewrite dirname_snoc in Hparent. apply prefix_snoc_inv in Hq; [|done].
      destruct (decide (q = target)) as [->|Hqt]; [by rewrite stat_lookup in Hparent|].
      apply (wellFormed_way (disk w) target q); try done.
      rewrite stat_lookup in Hparent; [by eexists|]. intros ->. by destruct q, Hq.
    - by left. }
  exists w'. split; [done|]. intros rel.
  destruct (disk w !! (source ++ rel)) as [n|] eqn:Hn.
  - destruct (copyFolderRecursive_spec names Hlists depth source target w)
      as (r & w'' & Hrun' & _ & _ & Hcopied); try done.
    rewrite Hrun in Hrun'. injection Hrun' as <- <-. by apply Hcopied.
  - rewrite (copyFolderRecursive_precise names depth source target w w' _ Hinc Hrun) by done.
    by apply wellFormed_absent.
Qed.

Lemma copyFolder_into_new_witness :
  ∃ w', copyFolderRecursive childrenOf 7 ["ws"; ".agent-configs"; ".base"] ["ws"; ".agent"]
          readyWorkspace = Some (Returned (), w') ∧
        ∀ rel, disk w' !! (["ws"; ".agent"] ++ rel)
               = disk readyWorkspace !! (["ws"; ".agent-configs"; ".base"] ++ rel).
Proof.
  apply (copyFolder_into_new childrenOf 7 ["ws"; ".agent-configs"; ".base"] ["ws"; ".agent"]
           readyWorkspace).
  - apply childrenOf_lists.
  - apply childrenOf_distinct.
  - apply wellFormed_check. apply (bool_decide_unpack _). vm_compute. exact I.
  - apply (bool_decide_unpack _). vm_compute. exact I.
  - vm_compute. lia.
  - vm_compute. reflexivity.
  - vm_compute. reflexivity.
Defined.







(** X27: For a workspace folder that is a directory of
    a well-formed file tree and has no [.agent-configs] yet,
    [ensureDirectoryExists] returns without a message, and the file system is
    then the one before with exactly this added: [.agent-configs], [.base]
    with the folders [rules], [memory-bank] and [templates], in each of them
    [default.txt] with the text [# Default <folder> configuration], and
    [configs.json] holding the empty list, which [getConfigurations] reads
    back. *)
Theorem ensureDirectoryExists_sets_up (parse : parser) (ws : Path.t) (w : bench) :
  wellFormed (disk w) → FS.stat (disk w) ws = Some Dir →
  disk w !! configsPathOf ws = None →
  ∃ w', ensureDirectoryExists ws w = Some (Returned (), w') ∧
        notices w' = notices w ∧
        disk w' = installed (configsPathOf ws) (disk w) ∧
        getConfigurations parse ws w' = Some (Returned (JArray []), w').
Proof.
  intros Hwf Hws Hnone.
  destruct (ensureDirectoryExists_fresh ws w) as (w' & Hrun & Hnot & _ & Hdisk); try done.
  exists w'. split; [done|]. split; [done|]. split; [done|].
  rewrite getConfigurations_eq. unfold configsIn.
  rewrite stat_lookup by apply configFileOf_nonempty. rewrite Hdisk.
  assert (configFileOf ws = configsPathOf ws ++ ["configs.json"]) as ->.
  { unfold configFileOf. by apply join_segment. }
  unfold installed. by rewrite lookup_insert_eq.
Qed.

Lemma ensureDirectoryExists_sets_up_witness :
  ∃ w', ensureDirectoryExists ["ws"] bareWorkspace = Some (Returned (), w') ∧
        notices w' = notices bareWorkspace ∧
        disk w' = installed (configsPathOf ["ws"]) (disk bareWorkspace) ∧
        getConfigurations noParse ["ws"] w' = Some (Returned (JArray []), w').
Proof.
  apply (ensureDirectoryExists_sets_up noParse ["ws"] bareWorkspace).
  - apply wellFormed_check. apply (bool_decide_unpack _). vm_compute. exact I.
  - vm_compute. reflexivity.
  - vm_compute. reflexivity.
Defined.

(** X28: The first configuration of a
    workspace: after [ensureDirectoryExists] on a workspace folder without
    [.agent-configs] (a directory of a well-formed file tree), [createConfig]
    for a name that is a single path segment other than [.base] and
    [configs.json], with any depth above 6, returns; the list is then the one
    entry [{ name, active: false }], and the new folder holds the three
    templates with their [default.txt]. *)
Theorem first_config (parse : parser) (names : listing) (depth : nat) (ws : Path.t)
    (name : string) (w : bench) :
  lists names → distinct names →
  wellFormed (disk w) → FS.stat (disk w) ws = Some Dir →
  disk w !! configsPathOf ws = None →
  plain name → hasSlash name = false → name ≠ ".base" → name ≠ "configs.json" →
  6 < depth →
  ∃ w1 w2, ensureDirectoryExists ws w = Some (Returned (), w1) ∧
           createConfig parse names depth ws name w1 = Some (Returned (), w2) ∧
           getConfigurations parse ws w2 = Some (Returned (JArray [configEntry name]), w2) ∧
           ∀ dir, dir ∈ ["rules"; "memory-bank"; "templates"] →
                  disk w2 !! (Path.join (configsPathOf ws) name ++ [dir; "default.txt"])
                  = Some (File (templateText dir)).
Proof.
  intros Hlists Hdistinct Hwf Hws Hnone Hplain Hslash Hnb Hnc Hdepth.
  destruct (ensureDirectoryExists_fresh ws w) as (w1 & Hrun1 & Hnot1 & Hwf1 & Hdisk1);
    try done.
  assert (configFileOf ws = configsPathOf ws ++ ["configs.json"]) as Hcf.
  { unfold configFileOf. by apply join_segment. }
  assert (configsPathOf ws ≠ []) as HP0 by (rewrite configsPathOf_eq; apply snoc_nonempty).
  assert (∀ rel, disk w !! (configsPathOf ws ++ rel) = None) as Habsent.
  { intros rel. by apply wellFormed_absent. }
  destruct (createConfig_new parse names Hlists Hdistinct depth ws name [] w1)
    as (w2 & Hrun2 & _ & Hlist2 & _ & Hcopy & _); try done.
  - rewrite Hdisk1. unfold installed, withTemplate.
    rewrite !lookup_insert_ne by path_ne. apply lookup_insert_eq.
  - rewrite Hdisk1, join_segment by done. unfold installed, withTemplate.
    rewrite !lookup_insert_ne by path_ne. apply Habsent.
  - intros d. rewrite Hdisk1, join_segment by done. unfold installed, withTemplate.
    rewrite !lookup_insert_ne by path_ne. by rewrite lookup_insert_eq.
  - rewrite Hdisk1, Hcf. unfold installed. by rewrite lookup_insert_eq.
  - rewrite getConfigurations_eq. unfold configsIn.
    rewrite stat_lookup by apply configFileOf_nonempty. rewrite Hdisk1, Hcf.
    unfold installed. by rewrite lookup_insert_eq.
  - rewrite Hdisk1, join_segment by done.
    pose proof (installed_base (configsPathOf ws) (disk w) Habsent). lia.
  - exists w1, w2. split; [done|]. split; [done|]. split; [done|].
    intros dir Hdir. rewrite Hcopy by done. rewrite Hdisk1, join_segment by done.
    unfold installed, withTemplate. rewrite <- !app_assoc. cbn [app].
    repeat (apply elem_of_cons in Hdir as [->|Hdir]);
      [..|by apply elem_of_nil in Hdir];
      rewrite ?lookup_insert_ne by path_ne; by rewrite lookup_insert_eq.
Qed.

Lemma first_config_witness :
  ∃ w1 w2, ensureDirectoryExists ["ws"] bareWorkspace = Some (Returned (), w1) ∧
           createConfig noParse childrenOf 7 ["ws"] "team" w1 = Some (Returned (), w2) ∧
           getConfigurations noParse ["ws"] w2
           = Some (Returned (JArray [configEntry "team"]), w2) ∧
           ∀ dir, dir ∈ ["rules"; "memory-bank"; "templates"] →
                  disk w2 !! (Path.join (configsPathOf ["ws"]) "team" ++ [dir; "default.txt"])
                  = Some (File (templateText dir)).
Proof.
  apply (first_config noParse childrenOf 7 ["ws"] "team" bareWorkspace).
  - apply childrenOf_lists.
  - apply childrenOf_distinct.
  - apply wellFormed_check. apply (bool_decide_unpack _). vm_compute. exact I.
  - vm_compute. reflexivity.
  - vm_compute. reflexivity.
  - apply (bool_decide_unpack _). vm_compute. exact I.
  - reflexivity.
  - discriminate.
  - discriminate.
  - lia.
Defined.

(** X29: A creation that throws leaves the list alone: for a
    name that is a single path segment, when [createConfig] throws (the list
    file holds no array, the folder exists, a copy or the final write fails),
    no message has been shown, nothing that existed has been removed, and
    [getConfigurations] returns afterwards what it returned before, although
    the new folder may have been made and partly filled. *)
Theorem createConfig_failure (parse : parser) (names : listing) (depth : nat) (ws : Path.t)
    (name : string) (w w' : bench) (e : string) :
  plain name → hasSlash name = false →
  createConfig parse names depth ws name w = Some (Thrown e, w') →
  notices w' = notices w ∧
  (∀ q, is_Some (disk w !! q) → is_Some (disk w' !! q)) ∧
  ∃ configs, getConfigurations parse ws w = Some (Returned configs, w) ∧
             getConfigurations parse ws w' = Some (Returned configs, w').
Proof.
  intros Hplain Hslash. unfold createConfig, mbind, sync_bind.
  rewrite (sync_then_returned _ _ _ _ _ (getConfigurations_eq parse ws w)).
  rewrite !getConfigurations_eq.
  assert (∀ w0, w0 = w' → notices w0 = notices w ∧
                (∀ q, is_Some (disk w !! q) → is_Some (disk w0 !! q)) ∧
                configsIn parse ws (disk w0) = configsIn parse ws (disk w) →
          notices w' = notices w ∧
          (∀ q, is_Some (disk w !! q) → is_Some (disk w' !! q)) ∧
          ∃ configs, Some (Returned (configsIn parse ws (disk w)), w)
                     = Some (Returned configs, w) ∧
                     Some (Returned (configsIn parse ws (disk w')), w')
                     = Some (Returned configs, w')) as Hgoal.
  { intros w0 -> (Hnot & Hkeep & Hsame). split; [done|]. split; [done|].
    exists (configsIn parse ws (disk w)). by rewrite Hsame. }
  destruct (configsIn parse ws (disk w)) as [| | | |items|] eqn:Hitems;
    try (intros [= <- <-]; by apply (Hgoal w)).
  intros [Hfound|(found & w0 & Hfound & Hrest)]%sync_then_thrown.
  { unfold lift in Hfound. injection Hfound as _ <-. by apply (Hgoal w). }
  unfold lift in Hfound. injection Hfound as Hfound <-.
  destruct found; [done|].
  assert (configFileOf ws = configsPathOf ws ++ ["configs.json"]) as Hcf.
  { unfold configFileOf. by apply join_segment. }
  rewrite (join_segment _ name) in Hrest by done.
  apply sync_then_thrown in Hrest as [Hmk|([] & w1 & Hmk & Hrest)].
  { apply onDisk_inv in Hmk as [Hthrown ->].
    rewrite (mkdir_thrown _ _ _ Hthrown) in Hgoal |- *.
    rewrite withDisk_same in Hgoal |- *. by apply (Hgoal w). }
  apply onDisk_inv in Hmk as [[Hnew Hmade]%mkdir_returned ->]. rewrite Hmade in *.
  rewrite stat_lookup in Hnew by apply snoc_nonempty.
  set (np := configsPathOf ws ++ [name]) in *.
  assert (∀ w2 r, copyFolderRecursive names depth (Path.join (configsPathOf ws) ".base") np
                    (withDisk w (<[np := Dir]> (disk w))) = Some (r, w2) →
                  notices w2 = notices w ∧
                  (∀ q, is_Some (disk w !! q) → is_Some (disk w2 !! q)) ∧
                  configsIn parse ws (disk w2) = configsIn parse ws (disk w)) as Hcopy.
  { intros w2 r [Hnot (Hkeep & Hout & _ & Hdirs)]%copyFolderRecursive_confined.
    cbn [disk notices withDisk] in *. split; [done|]. split.
    - intros q Hq. apply Hkeep. destruct (decide (np = q)) as [<-|Hne].
      + by rewrite lookup_insert_eq.
      + by rewrite lookup_insert_ne.
    - apply configsIn_agree. intros d. rewrite Hcf.
      destruct (decide (name = "configs.json")) as [->|Hname].
      + fold np. rewrite Hnew, (Hdirs np) by apply lookup_insert_eq. done.
      + assert (¬ np `prefix_of` configsPathOf ws ++ ["configs.json"]) as H1.
        { rewrite <- (app_nil_r (_ ++ ["configs.json"])). by apply siblings_apart. }
        assert (¬ configsPathOf ws ++ ["configs.json"] `prefix_of` np) as H2.
        { unfold np. rewrite <- (app_nil_r (_ ++ [name])). apply siblings_apart.
          by intros <-. }
        rewrite (proj2 (Hout _ H1) H2). rewrite lookup_insert_ne; [done|].
        unfold np. intros H%(inj (app _)). by simplify_eq. }
  rewrite Hitems in Hcopy.
  apply sync_then_thrown in Hrest as [Hrun|([] & w2 & Hrun & Hrest)].
  { apply (Hgoal w'); [done|]. by apply (Hcopy w' (Thrown e)). }
  destruct (Hcopy w2 (Returned ()) Hrun) as (Hnot2 & Hkeep2 & Hsame2).
  apply sync_then_thrown in Hrest as [Hsave|([] & w3 & _ & Hrest)]; [|done].
  unfold saveConfigList, writeFileSync in Hsave.
  apply onDisk_inv in Hsave as [Hthrown ->].
  rewrite (writeFile_thrown _ _ _ _ _ Hthrown) in Hgoal |- *.
  rewrite withDisk_same in Hgoal |- *. by apply (Hgoal w2).
Qed.

(** A workspace whose [.base] is a regular file, and what a creation that
    fails on it leaves. *)
Definition brokenWorkspace : bench :=
  {| disk := list_to_map
               [ (["ws"], Dir);
                 (["ws"; ".agent-configs"], Dir);
                 (["ws"; ".agent-configs"; ".base"], File (Text "not a folder"));
                 (["ws"; ".agent-configs"; "configs.json"],
                  File (Formatted (JArray [configEntry "solo"]))) ];
     notices := [] |}.

Definition teamFailed : bench :=
  (default (Returned (), brokenWorkspace)
     (createConfig noParse childrenOf 7 ["ws"] "team" brokenWorkspace)).2.

Lemma createConfig_failure_witness :
  createConfig noParse childrenOf 7 ["ws"] "team" brokenWorkspace
  = Some (Thrown "EISDIR: illegal operation on a directory", teamFailed) ∧
  notices teamFailed = notices brokenWorkspace ∧
  (∀ q, is_Some (disk brokenWorkspace !! q) → is_Some (disk teamFailed !! q)) ∧
  ∃ configs, getConfigurations noParse ["ws"] brokenWorkspace
             = Some (Returned configs, brokenWorkspace) ∧
             getConfigurations noParse ["ws"] teamFailed
             = Some (Returned configs, teamFailed).
Proof.
  assert (createConfig noParse childrenOf 7 ["ws"] "team" brokenWorkspace
          = Some (Thrown "EISDIR: illegal operation on a directory", teamFailed)) as Hrun.
  { vm_cast_no_check
      (eq_refl (Some (Thrown (R := unit) "EISDIR: illegal operation on a directory",
                      teamFailed))). }
  split; [exact Hrun|].
  apply (createConfig_failure noParse childrenOf 7 ["ws"] "team" brokenWorkspace
           teamFailed "EISDIR: illegal operation on a directory").
  - apply (bool_decide_unpack _). vm_compute. exact I.
  - reflexivity.
  - exact Hrun.
Defined.
